(** * Roleplay data pipeline: the durable store, the conversation ledger
      and the turn loop of [main.py], embedded in Rocq.

    The development follows the layout of the program:
    - [Py]      the part of the Python runtime the program relies on
                (text, exceptions, computations with [try]/[except]/[finally]);
    - the data model: documents, message pairs, the configuration;
    - [OS]      files, clock, console, and the remote collaborators seen as
                a schedule of answers, one per [await];
    - [BackupManager]  the class of the same name;
    - [StandaloneRoleplayGenerator]  the class of the same name, [main] and
                the exit status.

    Modelling choices:
    - a file-system call can fail for reasons the program cannot see
      (permissions, a full disk): the world carries the schedule of such
      failures, and statements quantify over it;
    - every awaited call is a request, and the world records each request
      with the answer it got;
    - the program runs under [asyncio.run]: a Ctrl+C cancels the main task,
      the call it awaits raises [CancelledError], and the runner raises
      [KeyboardInterrupt] once the task has ended cancelled;
    - a line that carries text from outside the program (a reply, the text
      of an error, a configured name) can be more than the console encodes:
      printing it then raises [UnicodeEncodeError]; lines made of fixed
      text, numbers and file names are taken to print;
    - a loop is unrolled a bounded number of times; a run that has used up
      the bound, or waits for an answer that is not scheduled, is [Pending]
      and shows the state it has reached;
    - configuration values have the types of the defaults.

    The vocabulary of the statements and the sample inputs follow the
    program; lemmas and theorems come last. *)

From Stdlib Require Import String Ascii List ZArith Bool Lia Arith.
From Stdlib Require Import DecimalString Sorted Permutation.
Import ListNotations.

Local Open Scope string_scope.
Local Open Scope Z_scope.

(* ================================================================== *)
(** * The Python runtime, as far as [main.py] uses it *)
(* ================================================================== *)

Module Py.

(** ** Text

    A [str] is modelled by the string of its code points; the model is exact
    for text whose code points are below 256, which is what an [ascii]
    holds.  On such text [str.lower] works code point by code point; beyond
    it the lower-case form can be longer than the text, and nothing below is
    stated about such text. *)

(** [str.isspace] on one code point below 256. *)
Definition isspace (c : ascii) : bool :=
  let n := nat_of_ascii c in
  ((9 <=? n) && (n <=? 13) || (28 <=? n) && (n <=? 32)
   || (n =? 133) || (n =? 160))%nat.

(** [str.lower] on one code point below 256. *)
Definition lower_char (c : ascii) : ascii :=
  let n := nat_of_ascii c in
  if ((65 <=? n) && (n <=? 90)
      || (192 <=? n) && (n <=? 222) && negb (n =? 215))%nat
  then ascii_of_nat (n + 32) else c.

Fixpoint lower (s : string) : string :=
  match s with
  | EmptyString => EmptyString
  | String c r => String (lower_char c) (lower r)
  end.

Fixpoint lstrip (s : string) : string :=
  match s with
  | EmptyString => EmptyString
  | String c r => if isspace c then lstrip r else s
  end.

Fixpoint rstrip (s : string) : string :=
  match s with
  | EmptyString => EmptyString
  | String c r =>
      match rstrip r with
      | EmptyString => if isspace c then EmptyString else String c EmptyString
      | r' => String c r'
      end
  end.

(** [s.strip()] *)
Definition strip (s : string) : string := rstrip (lstrip s).

(** [s.startswith(p)] *)
Definition startswith (s p : string) : bool := String.prefix p s.

(** [s.endswith(p)] *)
Fixpoint endswith (s p : string) : bool :=
  if String.eqb s p then true
  else match s with
       | EmptyString => false
       | String _ r => endswith r p
       end.

(** [s[n:]] for [n >= 0] *)
Fixpoint slice_from (n : nat) (s : string) : string :=
  match n, s with
  | O, _ => s
  | S _, EmptyString => EmptyString
  | S k, String _ r => slice_from k r
  end.

(** the text "\n" *)
Definition nl : string := String (ascii_of_nat 10) EmptyString.

(** [str(n)] for an [int] *)
Definition str_of_int (z : Z) : string := NilZero.string_of_int (Z.to_int z).

(** [datetime.now().strftime(fmt)]: the clock [t] counts milliseconds and is
    rendered to the second.  Both layouts the program uses
    ("%Y%m%d_%H%M%S" and "%Y-%m-%d %H:%M:%S") have second resolution; the
    calendar arithmetic behind the digits is left out, the rendering is the
    decimal count of whole seconds. *)
Definition strftime (fmt : string) (t : Z) : string := str_of_int (t / 1000).

(** ** Exceptions *)

Inductive exn : Type :=
| OSError (msg : string)
| JSONDecodeError (msg : string)
| KeyError (key : string)
| AttributeError (msg : string)
| IndexError (msg : string)
| UnicodeEncodeError (msg : string)
| SessionClosedError (msg : string)
| Exception (msg : string)
| CancelledError
| KeyboardInterrupt
| SystemExit (code : Z).

(** [isinstance(e, Exception)]: what [except Exception] catches.
    [asyncio.CancelledError], [KeyboardInterrupt] and [SystemExit] derive
    from [BaseException] only. *)
Definition is_Exception (e : exn) : bool :=
  match e with
  | CancelledError | KeyboardInterrupt | SystemExit _ => false
  | _ => true
  end.

(** [str(e)] *)
Definition exn_str (e : exn) : string :=
  match e with
  | OSError msg | JSONDecodeError msg | AttributeError msg | IndexError msg
  | UnicodeEncodeError msg | SessionClosedError msg | Exception msg => msg
  | KeyError key => "'" ++ key ++ "'"
  | CancelledError | KeyboardInterrupt => ""
  | SystemExit code => str_of_int code
  end.

(** ** Computations

    A computation runs on a state and either returns, raises, or is still
    [Pending]: it waits for an answer that has not come (or the unrolling
    bound of a loop is used up).  A pending run shows the state of an
    execution prefix; no handler and no [finally] clause runs on it. *)

Inductive res (A : Type) : Type :=
| Ret (a : A)
| Raise (e : exn)
| Pending.
Arguments Ret {A} a.
Arguments Raise {A} e.
Arguments Pending {A}.

Definition M (S A : Type) : Type := S -> res A * S.

Definition ret {S A} (a : A) : M S A := fun s => (Ret a, s).
Definition raise {S A} (e : exn) : M S A := fun s => (Raise e, s).
Definition pending {S A} : M S A := fun s => (Pending, s).

Definition bind {S A B} (m : M S A) (k : A -> M S B) : M S B :=
  fun s =>
    match m s with
    | (Ret a, s') => k a s'
    | (Raise e, s') => (Raise e, s')
    | (Pending, s') => (Pending, s')
    end.

Definition get {S} : M S S := fun s => (Ret s, s).
Definition modify {S} (f : S -> S) : M S unit := fun s => (Ret tt, f s).

(** [try: body / except ...: handler]: [handler e] is [None] when no clause
    matches [e]. *)
Definition try_ {S A} (body : M S A) (handler : exn -> option (M S A)) : M S A :=
  fun s =>
    match body s with
    | (Raise e, s') =>
        match handler e with
        | Some h => h s'
        | None => (Raise e, s')
        end
    | r => r
    end.

(** [except Exception as e: h e] *)
Definition except_Exception {S A} (h : exn -> M S A) : exn -> option (M S A) :=
  fun e => if is_Exception e then Some (h e) else None.

(** [except: h] *)
Definition except_any {S A} (h : M S A) : exn -> option (M S A) :=
  fun _ => Some h.

(** [try: body / finally: fin] *)
Definition finally {S A} (body : M S A) (fin : M S unit) : M S A :=
  fun s =>
    match body s with
    | (Pending, s') => (Pending, s')
    | (r, s') =>
        match fin s' with
        | (Ret _, s'') => (r, s'')
        | (Raise e, s'') => (Raise e, s'')
        | (Pending, s'') => (Pending, s'')
        end
    end.

Declare Scope py_scope.
Delimit Scope py_scope with py.
Notation "x <- m ;; k" := (bind m (fun x => k))
  (at level 61, m at next level, right associativity) : py_scope.
Notation "m ;; k" := (bind m (fun _ => k))
  (at level 61, right associativity) : py_scope.

End Py.

Import Py.
Local Open Scope py_scope.

(* ================================================================== *)
(** * Data model *)
(* ================================================================== *)

(** One exchange, as [add_message_pair] builds it. *)
Record MessagePair : Type := {
  user : string;
  character : string;
  timestamp : string
}.

(** [conversation_data["metadata"]]; [characters_user] and
    [characters_character] are the two entries of its ["characters"] dict. *)
Record Metadata : Type := {
  date : string;
  characters_user : string;
  characters_character : string;
  metadata_scenario : string;
  pair_count : Z;
  total_target : Z
}.

(** [conversation_data] *)
Record Document : Type := {
  metadata : Metadata;
  scenario : string;
  conversation_pairs : list MessagePair
}.

(** The configuration.  Values have the types of the defaults of
    [__init__]; the keys the defaults do not have may be missing:
    [interests] and [speaking_style] of the persona, and the whole
    ["character"] section or its ["name"].  The two delays are floats in the
    program and kept here in milliseconds. *)
Record CharacterAI : Type := { token : string; character_id : string }.
Record Gemini : Type := {
  key_rotation_interval : Z; history_size : Z; model : string }.
Record Pipeline : Type := {
  target_message_count : Z; delay_min : Z; delay_max : Z;
  pipeline_max_backups : Z }.
Record Persona : Type := {
  name : string; personality : string; background : string;
  interests : option string; speaking_style : option string }.
Record Config : Type := {
  character_ai : CharacterAI;
  gemini : Gemini;
  pipeline : Pipeline;
  user_persona : Persona;
  config_scenario : string;
  config_character : option (option string)
    (* [None]: no "character" section; [Some None]: a section without "name" *)
}.

(** A configuration file, read as the key-level assignments that merging it
    into the defaults performs, in file order ([dict.update] per known
    section, plain assignment for ["scenario"] and ["character"]). *)
Inductive Setting : Type :=
| Set_token (v : string)
| Set_character_id (v : string)
| Set_key_rotation_interval (v : Z)
| Set_history_size (v : Z)
| Set_model (v : string)
| Set_target_message_count (v : Z)
| Set_delay_min (v : Z)
| Set_delay_max (v : Z)
| Set_max_backups (v : Z)
| Set_name (v : string)
| Set_personality (v : string)
| Set_background (v : string)
| Set_interests (v : string)
| Set_speaking_style (v : string)
| Set_scenario (v : string)
| Set_character (name : option string).

(* ================================================================== *)
(** * Files, clock, console and remote collaborators *)
(* ================================================================== *)

Module OS.

(** A path is kept as [os.path.dirname] and [os.path.basename]. *)
Record path : Type := { dirname : string; basename : string }.

Definition path_eqb (p q : path) : bool :=
  String.eqb (dirname p) (dirname q) && String.eqb (basename p) (basename q).

(** [os.path.join(d, n)] for a directory [d] and an entry name [n] *)
Definition join (d n : string) : path := {| dirname := d; basename := n |}.

(** the path as one string, for messages and for joining below it *)
Definition path_str (p : path) : string :=
  if String.eqb (dirname p) "" then basename p
  else dirname p ++ "/" ++ basename p.

(** What a regular file holds. [json.dump] writes the serialisation of a
    document, taken to be injective; [Torn d] is a strict prefix of it (a dump
    that stopped half-way), [Blank] an empty file. *)
Inductive contents : Type :=
| Blank
| Json (d : Document)
| Torn (d : Document)
| ConfigJson (c : list Setting)
| Other (s : string).

Record file : Type := { data : contents; mtime : Z }.

(** What the program awaits: a call to the character service
    ([get_client], [account.fetch_me], [chat.create_chat],
    [chat.send_message], [close_session]), a call to the text-completion
    service ([generate_content_async]), or [asyncio.sleep].  The chat id that
    [send_message] passes along is the one [create_chat] gave and is left
    out, as is the length of a sleep. *)
Inductive request : Type :=
| get_client (token : string)
| fetch_me
| create_chat (character_id : string)
| send_message (character_id : string) (message : string)
| generate_content_async (prompt : string)
| sleep
| close_session.

(** One answer of a remote collaborator (or of the event loop, for a sleep):
    the time that went by and what came back. *)
Inductive answer : Type :=
| Reply (text : string)
| Fails (e : exn).
Record event : Type := { elapsed : Z; outcome : answer }.

(** The world the program runs in:
    - [fs]: the regular files, in the order [os.listdir] reports them;
    - [now]: the clock, in milliseconds;
    - [faults]: for each file-system call to come, whether it fails with an
      [OSError] (permissions, full disk, ...); none fails once the list is
      used up;
    - [remote]: the answers to come, one per [await];
    - [stdout]: the lines printed so far;
    - [calls]: the requests awaited so far, each with the answer it got;
    - [console]: for a line, [None] when the console can encode it, else the
      text of the [UnicodeEncodeError] that printing it raises;
    - [json_error]: the text of the error [json.load] raises on a file that
      is not JSON. *)
Record world : Type := {
  fs : list (path * file);
  now : Z;
  faults : list bool;
  remote : list event;
  stdout : list string;
  calls : list (request * answer);
  console : string -> option string;
  json_error : contents -> string
}.

Definition set_fs (f : list (path * file) -> list (path * file)) (w : world) : world :=
  {| fs := f (fs w); now := now w; faults := faults w;
     remote := remote w; stdout := stdout w; calls := calls w;
     console := console w; json_error := json_error w |}.
Definition set_faults (l : list bool) (w : world) : world :=
  {| fs := fs w; now := now w; faults := l;
     remote := remote w; stdout := stdout w; calls := calls w;
     console := console w; json_error := json_error w |}.

Fixpoint lookup (p : path) (l : list (path * file)) : option file :=
  match l with
  | [] => None
  | (q, f) :: r => if path_eqb q p then Some f else lookup p r
  end.

(** replace in place, or add at the end *)
Fixpoint store (p : path) (f : file) (l : list (path * file)) : list (path * file) :=
  match l with
  | [] => [(p, f)]
  | (q, g) :: r => if path_eqb q p then (p, f) :: r else (q, g) :: store p f r
  end.

Fixpoint delete (p : path) (l : list (path * file)) : list (path * file) :=
  match l with
  | [] => []
  | (q, g) :: r => if path_eqb q p then delete p r else (q, g) :: delete p r
  end.

(** [print(msg)] for a line made of fixed text, numbers and file names *)
Definition print (msg : string) : M world unit :=
  fun w => (Ret tt, {| fs := fs w; now := now w; faults := faults w;
                       remote := remote w; stdout := stdout w ++ [msg];
                       calls := calls w; console := console w;
                       json_error := json_error w |}).

(** [print(msg)] for a line that carries text from outside the program: it
    raises when the console cannot encode the line *)
Definition print_text (msg : string) : M world unit :=
  fun w =>
    match console w msg with
    | None => print msg w
    | Some err => (Raise (UnicodeEncodeError err), w)
    end.

(** the next entry of the fault schedule *)
Definition fault (msg : string) : M world unit :=
  fun w =>
    match faults w with
    | true :: l => (Raise (OSError msg), set_faults l w)
    | false :: l => (Ret tt, set_faults l w)
    | [] => (Ret tt, w)
    end.

(** [os.path.exists(p)]: never raises *)
Definition os_path_exists (p : path) : M world bool :=
  fun w => (Ret (match lookup p (fs w) with Some _ => true | None => false end), w).

(** [open(p, 'w')]: creates or truncates *)
Definition open_w (p : path) : M world unit :=
  fault ("cannot open " ++ path_str p) ;;
  (fun w => (Ret tt, set_fs (store p {| data := Blank; mtime := now w |}) w)).

(** [json.dump(d, f)] followed by the close of the [with] block; a failure
    leaves a torn file behind *)
Definition json_dump (d : Document) (p : path) : M world unit :=
  try_ (fault ("cannot write " ++ path_str p))
       (fun e => Some ((fun w => (Ret tt, set_fs (store p {| data := Torn d; mtime := now w |}) w)) ;;
                       raise e)) ;;
  (fun w => (Ret tt, set_fs (store p {| data := Json d; mtime := now w |}) w)).

(** [json.dump] of a configuration; a failure leaves the file as [open] made
    it *)
Definition json_dump_config (c : list Setting) (p : path) : M world unit :=
  fault ("cannot write " ++ path_str p) ;;
  (fun w => (Ret tt, set_fs (store p {| data := ConfigJson c; mtime := now w |}) w)).

(** [open(p, 'r')] and [json.load]: the settings of a configuration file *)
Definition json_load (p : path) : M world (list Setting) :=
  fault ("cannot open " ++ path_str p) ;;
  (fun w =>
     match lookup p (fs w) with
     | None => (Raise (OSError ("No such file or directory: " ++ path_str p)), w)
     | Some f =>
         match data f with
         | ConfigJson c => (Ret c, w)
         | Json d => (Ret [Set_scenario (scenario d)], w)
         | Blank =>
             (Raise (JSONDecodeError "Expecting value: line 1 column 1 (char 0)"), w)
         | c => (Raise (JSONDecodeError (json_error w c)), w)
         end
     end).

(** [os.remove(p)] *)
Definition os_remove (p : path) : M world unit :=
  fault ("cannot remove " ++ path_str p) ;;
  (fun w =>
     match lookup p (fs w) with
     | None => (Raise (OSError ("No such file or directory: " ++ path_str p)), w)
     | Some _ => (Ret tt, set_fs (delete p) w)
     end).

(** [os.rename(src, dst)] *)
Definition os_rename (src dst : path) : M world unit :=
  fault ("cannot rename " ++ path_str src) ;;
  (fun w =>
     match lookup src (fs w) with
     | None => (Raise (OSError ("No such file or directory: " ++ path_str src)), w)
     | Some f => (Ret tt, set_fs (fun l => store dst f (delete src l)) w)
     end).

(** [shutil.copy2(src, dst)]: contents and modification time *)
Definition shutil_copy2 (src dst : path) : M world unit :=
  fault ("cannot copy " ++ path_str src) ;;
  (fun w =>
     match lookup src (fs w) with
     | None => (Raise (OSError ("No such file or directory: " ++ path_str src)), w)
     | Some f => (Ret tt, set_fs (store dst f) w)
     end).

(** [os.listdir(d)] *)
Definition os_listdir (d : string) : M world (list string) :=
  fault ("cannot list " ++ d) ;;
  (fun w =>
     (Ret (map (fun e => basename (fst e))
               (filter (fun e => String.eqb (dirname (fst e)) d) (fs w))), w)).

(** [os.path.getmtime(p)] *)
Definition os_path_getmtime (p : path) : M world Z :=
  fault ("cannot stat " ++ path_str p) ;;
  (fun w =>
     match lookup p (fs w) with
     | None => (Raise (OSError ("No such file or directory: " ++ path_str p)), w)
     | Some f => (Ret (mtime f), w)
     end).

(** [os.makedirs(d, exist_ok=True)]: directories are not tracked, all that is
    kept is that the call may fail *)
Definition os_makedirs (d : string) : M world unit :=
  fault ("cannot create " ++ d).

(** [datetime.now().strftime(fmt)] *)
Definition datetime_now_strftime (fmt : string) : M world string :=
  fun w => (Ret (strftime fmt (now w)), w).

(** [await req]: takes the next answer, and records the request with it;
    the run is pending while there is no answer *)
Definition await (req : request) : M world string :=
  fun w =>
    match remote w with
    | [] => (Pending, w)
    | ev :: l =>
        let w' := {| fs := fs w; now := now w + elapsed ev; faults := faults w;
                     remote := l; stdout := stdout w;
                     calls := calls w ++ [(req, outcome ev)];
                     console := console w; json_error := json_error w |} in
        match outcome ev with
        | Reply text => (Ret text, w')
        | Fails e => (Raise e, w')
        end
    end.

(** time going by between two calls *)
Definition advance (dt : Z) : M world unit :=
  fun w => (Ret tt, {| fs := fs w; now := now w + dt; faults := faults w;
                       remote := remote w; stdout := stdout w; calls := calls w;
                       console := console w; json_error := json_error w |}).

(** the clock reads [t] *)
Definition at_time (t : Z) : M world unit :=
  fun w => (Ret tt, {| fs := fs w; now := t; faults := faults w;
                       remote := remote w; stdout := stdout w; calls := calls w;
                       console := console w; json_error := json_error w |}).

End OS.

Import OS.

(* ================================================================== *)
(** * class BackupManager *)
(* ================================================================== *)

Module BackupManager.

Record t : Type := {
  base_filename : path;
  max_backups : Z;
  backup_dir : string
}.

(** [os.path.join(os.path.dirname(base_filename), "backups")] *)
Definition backup_dir_of (base_filename : path) : string :=
  path_str (join (dirname base_filename) "backups").

(** [__init__(self, base_filename, max_backups)] *)
Definition __init__ (base_filename : path) (max_backups : Z) : M world t :=
  let self := {| base_filename := base_filename;
                 max_backups := max_backups;
                 backup_dir := backup_dir_of base_filename |} in
  os_makedirs (backup_dir self) ;;
  ret self.

(** [f"{self.base_filename}.tmp"] *)
Definition temp_filename (self : t) : path :=
  {| dirname := dirname (base_filename self);
     basename := basename (base_filename self) ++ ".tmp" |}.

(** the name of the backup taken at clock [t] *)
Definition backup_filename (self : t) (timestamp : string) : path :=
  join (backup_dir self)
       (basename (base_filename self) ++ "." ++ timestamp ++ ".bak").

(** the keys of [list.sort(key=...)], computed for every element before any
    is moved *)
Fixpoint sort_keys (key : path -> M world Z) (l : list path) : M world (list (Z * path)) :=
  match l with
  | [] => ret []
  | x :: r => k <- key x ;; kr <- sort_keys key r ;; ret ((k, x) :: kr)
  end.

Fixpoint insert_sorted (x : Z * path) (l : list (Z * path)) : list (Z * path) :=
  match l with
  | [] => [x]
  | y :: r => if fst x <=? fst y then x :: l else y :: insert_sorted x r
  end.

(** the stable sort of [list.sort]: equal keys keep their order *)
Fixpoint sorted (l : list (Z * path)) : list (Z * path) :=
  match l with
  | [] => []
  | x :: r => insert_sorted x (sorted r)
  end.

(** [backups.sort(key=lambda x: os.path.getmtime(x))] *)
Definition sort_by_mtime (backups : list path) : M world (list path) :=
  kl <- sort_keys os_path_getmtime backups ;;
  ret (map snd (sorted kl)).

(** [while len(backups) > self.max_backups:
        os.remove(backups[0]); backups.pop(0)] *)
Fixpoint prune (max_backups : Z) (backups : list path) : M world unit :=
  if Z.of_nat (length backups) >? max_backups then
    match backups with
    | [] => raise (IndexError "list index out of range")
    | b :: rest => os_remove b ;; prune max_backups rest
    end
  else ret tt.

Definition _cleanup_old_backups (self : t) : M world unit :=
  try_
    (names <- os_listdir (backup_dir self) ;;
     let backups := map (join (backup_dir self))
                        (filter (fun f => endswith f ".bak") names) in
     backups <- sort_by_mtime backups ;;
     prune (max_backups self) backups)
    (except_Exception (fun e =>
       print ("Had a small issue cleaning up old backups: " ++ exn_str e))).

Definition _create_backup (self : t) : M world unit :=
  b <- os_path_exists (base_filename self) ;;
  if negb b then ret tt
  else
    timestamp <- datetime_now_strftime "%Y%m%d_%H%M%S" ;;
    let backup_filename := backup_filename self timestamp in
    try_
      (shutil_copy2 (base_filename self) backup_filename ;;
       _cleanup_old_backups self)
      (except_Exception (fun e =>
         print ("Couldn't create backup right now: " ++ exn_str e))).

Definition save_data (self : t) (data : Document) : M world unit :=
  let temp_filename := temp_filename self in
  try_
    (open_w temp_filename ;;
     json_dump data temp_filename ;;
     (b <- os_path_exists (base_filename self) ;;
      if b then _create_backup self else ret tt) ;;
     (b <- os_path_exists (base_filename self) ;;
      if b then os_remove (base_filename self) else ret tt) ;;
     os_rename temp_filename (base_filename self))
    (except_Exception (fun e =>
       print ("Oops! Had trouble saving data: " ++ exn_str e) ;;
       b <- os_path_exists temp_filename ;;
       if b then try_ (os_remove temp_filename) (except_any (ret tt))
       else ret tt)).

End BackupManager.

(* ================================================================== *)
(** * class StandaloneRoleplayGenerator *)
(* ================================================================== *)

Module StandaloneRoleplayGenerator.

(** The attributes of the object.  [char_ai_client] and [char_ai_chat] are
    [false] for [None].  [character_name] is the attribute that
    [get_user_message] reads: [None] while nothing has assigned it.
    [gemini_client] and [current_pair] hold nothing the methods read back
    and are left out. *)
Record t : Type := {
  config : Config;
  char_ai_client : bool;
  char_ai_chat : bool;
  conversation_data : Document;
  output_file : path;
  backup_manager : BackupManager.t;
  character_name : option string
}.

(** The object and the world it runs in. *)
Record state : Type := { self : t; env : world }.

(** a computation on the world, run from a method *)
Definition io {A} (m : M world A) : M state A :=
  fun s => let (r, w) := m (env s) in (r, {| self := self s; env := w |}).

(** a method, run on an object from outside *)
Definition call {A} (obj : t) (m : M state A) : M world A :=
  fun w => let (r, s) := m {| self := obj; env := w |} in (r, env s).

Definition set_self (f : t -> t) : M state unit :=
  fun s => (Ret tt, {| self := f (self s); env := env s |}).

Definition set_char_ai_client (b : bool) (g : t) : t :=
  {| config := config g; char_ai_client := b; char_ai_chat := char_ai_chat g;
     conversation_data := conversation_data g; output_file := output_file g;
     backup_manager := backup_manager g; character_name := character_name g |}.
Definition set_char_ai_chat (b : bool) (g : t) : t :=
  {| config := config g; char_ai_client := char_ai_client g; char_ai_chat := b;
     conversation_data := conversation_data g; output_file := output_file g;
     backup_manager := backup_manager g; character_name := character_name g |}.
Definition set_conversation_data (d : Document) (g : t) : t :=
  {| config := config g; char_ai_client := char_ai_client g;
     char_ai_chat := char_ai_chat g;
     conversation_data := d; output_file := output_file g;
     backup_manager := backup_manager g; character_name := character_name g |}.

(** ** Configuration *)

Definition default_config : Config := {|
  character_ai := {| token := ""; character_id := "" |};
  gemini := {| key_rotation_interval := 60; history_size := 10;
               model := "gemini-1.5-pro" |};
  pipeline := {| target_message_count := 50; delay_min := 2000;
                 delay_max := 4000; pipeline_max_backups := 5 |};
  user_persona := {| name := "User";
                     personality := "Friendly and curious individual";
                     background := "Someone interested in meaningful conversations";
                     interests := None; speaking_style := None |};
  config_scenario := "A casual conversation between two individuals";
  config_character := None
|}.

Definition upd_character_ai (f : CharacterAI -> CharacterAI) (c : Config) : Config :=
  {| character_ai := f (character_ai c); gemini := gemini c;
     pipeline := pipeline c; user_persona := user_persona c;
     config_scenario := config_scenario c; config_character := config_character c |}.
Definition upd_gemini (f : Gemini -> Gemini) (c : Config) : Config :=
  {| character_ai := character_ai c; gemini := f (gemini c);
     pipeline := pipeline c; user_persona := user_persona c;
     config_scenario := config_scenario c; config_character := config_character c |}.
Definition upd_pipeline (f : Pipeline -> Pipeline) (c : Config) : Config :=
  {| character_ai := character_ai c; gemini := gemini c;
     pipeline := f (pipeline c); user_persona := user_persona c;
     config_scenario := config_scenario c; config_character := config_character c |}.
Definition upd_user_persona (f : Persona -> Persona) (c : Config) : Config :=
  {| character_ai := character_ai c; gemini := gemini c;
     pipeline := pipeline c; user_persona := f (user_persona c);
     config_scenario := config_scenario c; config_character := config_character c |}.

(** one step of
    [for category, values in custom_config.items(): ...], at key level *)
Definition apply_setting (c : Config) (s : Setting) : Config :=
  match s with
  | Set_token v =>
      upd_character_ai (fun a => {| token := v; character_id := character_id a |}) c
  | Set_character_id v =>
      upd_character_ai (fun a => {| token := token a; character_id := v |}) c
  | Set_key_rotation_interval v =>
      upd_gemini (fun g => {| key_rotation_interval := v;
                              history_size := history_size g; model := model g |}) c
  | Set_history_size v =>
      upd_gemini (fun g => {| key_rotation_interval := key_rotation_interval g;
                              history_size := v; model := model g |}) c
  | Set_model v =>
      upd_gemini (fun g => {| key_rotation_interval := key_rotation_interval g;
                              history_size := history_size g; model := v |}) c
  | Set_target_message_count v =>
      upd_pipeline (fun p => {| target_message_count := v; delay_min := delay_min p;
                                delay_max := delay_max p;
                                pipeline_max_backups := pipeline_max_backups p |}) c
  | Set_delay_min v =>
      upd_pipeline (fun p => {| target_message_count := target_message_count p;
                                delay_min := v; delay_max := delay_max p;
                                pipeline_max_backups := pipeline_max_backups p |}) c
  | Set_delay_max v =>
      upd_pipeline (fun p => {| target_message_count := target_message_count p;
                                delay_min := delay_min p; delay_max := v;
                                pipeline_max_backups := pipeline_max_backups p |}) c
  | Set_max_backups v =>
      upd_pipeline (fun p => {| target_message_count := target_message_count p;
                                delay_min := delay_min p; delay_max := delay_max p;
                                pipeline_max_backups := v |}) c
  | Set_name v =>
      upd_user_persona (fun u => {| name := v; personality := personality u;
                                    background := background u;
                                    interests := interests u;
                                    speaking_style := speaking_style u |}) c
  | Set_personality v =>
      upd_user_persona (fun u => {| name := name u; personality := v;
                                    background := background u;
                                    interests := interests u;
                                    speaking_style := speaking_style u |}) c
  | Set_background v =>
      upd_user_persona (fun u => {| name := name u; personality := personality u;
                                    background := v;
                                    interests := interests u;
                                    speaking_style := speaking_style u |}) c
  | Set_interests v =>
      upd_user_persona (fun u => {| name := name u; personality := personality u;
                                    background := background u;
                                    interests := Some v;
                                    speaking_style := speaking_style u |}) c
  | Set_speaking_style v =>
      upd_user_persona (fun u => {| name := name u; personality := personality u;
                                    background := background u;
                                    interests := interests u;
                                    speaking_style := Some v |}) c
  | Set_scenario v =>
      {| character_ai := character_ai c; gemini := gemini c;
         pipeline := pipeline c; user_persona := user_persona c;
         config_scenario := v; config_character := config_character c |}
  | Set_character n =>
      {| character_ai := character_ai c; gemini := gemini c;
         pipeline := pipeline c; user_persona := user_persona c;
         config_scenario := config_scenario c; config_character := Some n |}
  end.

(** the settings [json.dump(self.config, f)] writes for the defaults *)
Definition default_settings : list Setting :=
  [ Set_token ""; Set_character_id "";
    Set_key_rotation_interval 60; Set_history_size 10; Set_model "gemini-1.5-pro";
    Set_target_message_count 50; Set_delay_min 2000; Set_delay_max 4000;
    Set_max_backups 5;
    Set_name "User"; Set_personality "Friendly and curious individual";
    Set_background "Someone interested in meaningful conversations";
    Set_scenario "A casual conversation between two individuals" ].

(** [self.config['character']['name']] *)
Definition config_character_name {S} (c : Config) : M S string :=
  match config_character c with
  | None => raise (KeyError "character")
  | Some None => raise (KeyError "name")
  | Some (Some n) => ret n
  end.

(** [user[key]] for a key the defaults do not have *)
Definition persona_key {S} (key : string) (v : option string) : M S string :=
  match v with
  | None => raise (KeyError key)
  | Some x => ret x
  end.

(** the document [__init__] starts from *)
Definition initial_conversation_data (c : Config) (date : string) : Document := {|
  metadata := {| date := date;
                 characters_user := name (user_persona c);
                 characters_character := "AI Character";
                 metadata_scenario := config_scenario c;
                 pair_count := 0;
                 total_target := target_message_count (pipeline c) |};
  scenario := config_scenario c;
  conversation_pairs := []
|}.

(** [__init__(self, config_path)].  The call [self.initialize_char_ai()] in
    it builds a coroutine that is never awaited, and the constructor of the
    text-completion client takes no answer from a collaborator: neither
    shows in the world. *)
Definition __init__ (config_path : path) : M world t :=
  config <-
    try_
      (b <- os_path_exists config_path ;;
       if b then
         custom_config <- json_load config_path ;;
         print ("Loaded your settings from " ++ path_str config_path) ;;
         ret (fold_left apply_setting custom_config default_config)
       else
         print ("No config file found! Creating a starter one at "
                ++ path_str config_path ++ "...") ;;
         open_w config_path ;;
         json_dump_config default_settings config_path ;;
         print ("Default settings saved to " ++ path_str config_path
                ++ ". Please add your info and restart.") ;;
         raise (SystemExit 0))
      (except_Exception (fun e =>
         print ("Had trouble with the config file: " ++ exn_str e) ;;
         print "Going with default settings instead" ;;
         ret default_config)) ;;
  os_makedirs "datasets" ;;
  os_makedirs "cache" ;;
  date <- datetime_now_strftime "%Y-%m-%d %H:%M:%S" ;;
  let conversation_data := initial_conversation_data config date in
  stamp <- datetime_now_strftime "%Y%m%d_%H%M%S" ;;
  let output_file := join "datasets" ("conversation_" ++ stamp ++ ".json") in
  backup_manager <-
    BackupManager.__init__ output_file (pipeline_max_backups (pipeline config)) ;;
  print ("Ready to generate "
         ++ str_of_int (target_message_count (pipeline config))
         ++ " message pairs!") ;;
  character <- config_character_name config ;;
  print_text ("Character: " ++ character) ;;
  print_text ("Scenario: " ++ config_scenario config) ;;
  ret {| config := config; char_ai_client := false; char_ai_chat := false;
         conversation_data := conversation_data; output_file := output_file;
         backup_manager := backup_manager; character_name := None |}.

(** ** The remote session *)

Definition initialize_char_ai : M state bool :=
  try_
    (s <- get ;;
     _ <- io (await (get_client (token (character_ai (config (self s)))))) ;;
     set_self (set_char_ai_client true) ;;
     me <- io (await fetch_me) ;;
     io (print_text ("Character AI: Logged in as @" ++ me)) ;;
     greeting <- io (await (create_chat (character_id (character_ai (config (self s)))))) ;;
     set_self (set_char_ai_chat true) ;;
     io (print_text ("Character AI Greeting: " ++ greeting)) ;;
     ret true)
    (except_Exception (fun e =>
       io (print_text ("Failed to initialize Character AI: " ++ exn_str e)) ;;
       ret false)).

(** ** The ledger *)

Definition append_pair (p : MessagePair) (d : Document) : Document :=
  {| metadata := {| date := date (metadata d);
                    characters_user := characters_user (metadata d);
                    characters_character := characters_character (metadata d);
                    metadata_scenario := metadata_scenario (metadata d);
                    pair_count := pair_count (metadata d) + 1;
                    total_target := total_target (metadata d) |};
     scenario := scenario d;
     conversation_pairs := conversation_pairs d ++ [p] |}.

Definition save_conversation : M state unit :=
  try_
    (s <- get ;;
     io (BackupManager.save_data (backup_manager (self s))
                                 (conversation_data (self s))) ;;
     io (print ("Saved progress: "
                ++ str_of_int (pair_count (metadata (conversation_data (self s))))
                ++ " / "
                ++ str_of_int (total_target (metadata (conversation_data (self s)))))))
    (except_Exception (fun e =>
       s <- get ;;
       io (print ("Had a hiccup saving the conversation: " ++ exn_str e)) ;;
       io (open_w (output_file (self s))) ;;
       io (json_dump (conversation_data (self s)) (output_file (self s))) ;;
       io (print "But don't worry, saved it another way!"))).

Definition add_message_pair (user_text character_text : string) : M state unit :=
  timestamp <- io (datetime_now_strftime "%Y-%m-%d %H:%M:%S") ;;
  let complete_pair := {| user := user_text; character := character_text;
                          timestamp := timestamp |} in
  set_self (fun g => set_conversation_data
                       (append_pair complete_pair (conversation_data g)) g) ;;
  save_conversation.

(** ** Normalisation *)

Definition user_prefixes : list string :=
  ["user:"; "*user:"; "*as user:"; "<user>:"; "[user]:"; "(as user)"].

(** [for prefix in prefixes:
        if response.lower().startswith(prefix):
            response = response[len(prefix):].strip()] *)
Definition strip_prefixes (prefixes : list string) (response : string) : string :=
  fold_left
    (fun response prefix =>
       if startswith (lower response) prefix
       then strip (slice_from (String.length prefix) response)
       else response)
    prefixes response.

Definition character_prefixes (character_name : string) : list string :=
  [character_name; "*as " ++ character_name;
   "<" ++ character_name ++ ">"; "[" ++ character_name ++ "]"].

Definition clean_response (response : string) : M state string :=
  let response := strip response in
  let response := strip_prefixes user_prefixes response in
  s <- get ;;
  n <- config_character_name (config (self s)) ;;
  let character_name := lower n ++ ":" in
  ret (strip_prefixes (character_prefixes character_name) response).

(** ** The two turns *)

(** A context entry: the ["user"] and ["character"] keys of a pair. *)
Definition context : Type := list (string * string).

Definition context_of (pairs : list MessagePair) : context :=
  map (fun p => (user p, character p)) pairs.

(** [for pair in recent_pairs: conversation_history += ...]; the second line
    of the body reads [self.character_name] *)
Fixpoint conversation_history (g : t) (recent_pairs : context) (acc : string)
  : M state string :=
  match recent_pairs with
  | [] => ret acc
  | (u, c) :: rest =>
      let acc := acc ++ name (user_persona (config g)) ++ ": " ++ u ++ nl ++ nl in
      match character_name g with
      | None =>
          raise (AttributeError
                   "'StandaloneRoleplayGenerator' object has no attribute 'character_name'")
      | Some cn =>
          conversation_history g rest (acc ++ cn ++ ": " ++ c ++ nl ++ nl)
      end
  end.

(** the prompt of the opening message; the wording is shortened to the lines
    that carry a value, the reads of the persona are those of the program *)
Definition first_prompt (c : Config) : M state string :=
  let user := user_persona c in
  i <- persona_key "interests" (interests user) ;;
  st <- persona_key "speaking_style" (speaking_style user) ;;
  ret ("You are roleplaying as a character with the following traits:" ++ nl
       ++ "- Name: " ++ name user ++ nl
       ++ "- Personality: " ++ personality user ++ nl
       ++ "- Background: " ++ background user ++ nl
       ++ "- Interests: " ++ i ++ nl
       ++ "- Speaking Style: " ++ st ++ nl
       ++ "SCENARIO: " ++ config_scenario c ++ nl
       ++ "- Stay in character as " ++ name user ++ nl
       ++ "Start the conversation in a way that fits the scenario.").

Definition next_prompt (c : Config) (history : string) : M state string :=
  let user := user_persona c in
  st <- persona_key "speaking_style" (speaking_style user) ;;
  ret ("Continue roleplaying as " ++ name user ++ " with these traits:" ++ nl
       ++ "- Personality: " ++ personality user ++ nl
       ++ "- Background: " ++ background user ++ nl
       ++ "- Speaking Style: " ++ st ++ nl
       ++ "SCENARIO: " ++ config_scenario c ++ nl
       ++ "RECENT CONVERSATION: " ++ history ++ nl
       ++ "Respond naturally to the last message while staying in character.").

Definition fallback_next : string :=
  "Sorry, got distracted for a second! Anyway, what were you saying?".

Definition fallback_first (user_name interests : string) : string :=
  "Hi there! I'm " ++ user_name ++ ". It's great to meet you. I'm really interested in "
  ++ interests ++ ". What about you?".

Definition get_user_message (is_first_message : bool) (recent_pairs : context)
  : M state string :=
  s <- get ;;
  let user := user_persona (config (self s)) in
  history <- conversation_history (self s) recent_pairs "" ;;
  prompt <- (if is_first_message then first_prompt (config (self s))
             else next_prompt (config (self s)) history) ;;
  try_
    (response <- io (await (generate_content_async prompt)) ;;
     response <- clean_response response ;;
     ret response)
    (except_Exception (fun e =>
       io (print_text ("Oops! Couldn't get a user response: " ++ exn_str e)) ;;
       if is_first_message then
         i <- persona_key "interests" (interests user) ;;
         ret (fallback_first (name user) i)
       else ret fallback_next)).

(** [recent_pairs[-1]["user"] if recent_pairs else "Hello!"] *)
Definition last_user_message (recent_pairs : context) : string :=
  match rev recent_pairs with
  | [] => "Hello!"
  | (u, _) :: _ => u
  end.

(** [get_character_message]; [depth] bounds the calls it makes to itself
    after a closed session *)
Fixpoint get_character_message (depth : nat) (recent_pairs : context)
  : M state string :=
  match depth with
  | O => pending
  | S depth' =>
      s <- get ;;
      (if negb (char_ai_client (self s)) || negb (char_ai_chat (self s)) then
         ok <- initialize_char_ai ;;
         if negb ok
         then raise (Exception "Cannot continue without Character AI connection")
         else ret tt
       else ret tt) ;;
      try_
        (let last_user_message := last_user_message recent_pairs in
         s <- get ;;
         response <- io (await (send_message
                                  (character_id (character_ai (config (self s))))
                                  last_user_message)) ;;
         clean_response response)
        (fun e =>
           match e with
           | SessionClosedError _ =>
               Some (io (print "Character AI session expired, attempting to reconnect...") ;;
                     ok <- initialize_char_ai ;;
                     if ok then get_character_message depth' recent_pairs
                     else raise (Exception "Failed to reconnect to Character AI"))
           | _ =>
               if is_Exception e
               then Some (raise (Exception ("Character AI error: " ++ exn_str e)))
               else None
           end)
  end.

(** ** The loop *)

(** [conversation_pairs[-3:]] *)
Definition last3 (l : list MessagePair) : list MessagePair :=
  skipn (length l - 3) l.

(** how one pass through the body of the [while] ends *)
Inductive flow : Type := Next | Break.

(** the character's name in a progress line *)
Definition character_label : M state string :=
  s <- get ;; config_character_name (config (self s)).

(** the body of the [while] loop with its two handlers; the delay drawn by
    [random.uniform] is not modelled, its digits are left out of the two
    lines that show it, and the pause is as long as the answer says *)
Definition loop_body (depth : nat) : M state flow :=
  try_
    (io (print (nl ++ "[Taking a break to think...]")) ;;
     io (await sleep) ;;
     s <- get ;;
     let recent_pairs := context_of (last3 (conversation_pairs (conversation_data (self s)))) in
     io (print (nl ++ "[Creating the user's next message...]")) ;;
     user_message <- get_user_message false recent_pairs ;;
     io (print_text ("[" ++ name (user_persona (config (self s))) ++ "]: " ++ user_message)) ;;
     io (print (nl ++ "[Waiting for character to respond...]")) ;;
     io (await sleep) ;;
     c <- character_label ;;
     io (print_text ("[Getting " ++ c ++ "'s thoughts...]")) ;;
     let latest_context := (recent_pairs ++ [(user_message, "")])%list in
     character_message <- get_character_message depth latest_context ;;
     c <- character_label ;;
     io (print_text ("[" ++ c ++ "]: " ++ character_message)) ;;
     add_message_pair user_message character_message ;;
     ret Next)
    (fun e =>
       match e with
       | SessionClosedError _ =>
           Some (io (print "Character AI session expired, reconnecting...") ;;
                 ok <- initialize_char_ai ;;
                 if negb ok
                 then raise (Exception "Failed to reconnect to Character AI")
                 else ret Next)
       | _ =>
           if is_Exception e
           then Some (io (print_text ("Error during conversation: " ++ exn_str e)) ;;
                      ret Break)
           else None
       end).

(** [while pair_count < target_message_count: ...], unrolled at most
    [fuel] times *)
Fixpoint loop (fuel : nat) : M state unit :=
  s <- get ;;
  if pair_count (metadata (conversation_data (self s)))
     <? target_message_count (pipeline (config (self s)))
  then
    match fuel with
    | O => pending
    | S fuel' =>
        f <- loop_body fuel ;;
        match f with
        | Next => loop fuel'
        | Break => ret tt
        end
    end
  else ret tt.

(** the [finally] clause of [run_generation] *)
Definition finish : M state unit :=
  s <- get ;;
  (if char_ai_client (self s)
   then io (await close_session) ;; ret tt
   else ret tt) ;;
  save_conversation ;;
  s <- get ;;
  io (print ("All done! Created "
             ++ str_of_int (pair_count (metadata (conversation_data (self s))))
             ++ " conversation exchanges")) ;;
  io (print ("Your new dataset is saved at: " ++ path_str (output_file (self s)))).

Definition run_generation (fuel : nat) : M state unit :=
  ok <- initialize_char_ai ;;
  if negb ok then
    io (print "Cannot continue without Character AI connection")
  else
    finally
      (try_
         (s <- get ;;
          let user_name := name (user_persona (config (self s))) in
          io (print_text (nl ++ "[Thinking up " ++ user_name ++ "'s first message...]")) ;;
          user_message <- get_user_message true [] ;;
          io (print_text ("[" ++ user_name ++ "]: " ++ user_message)) ;;
          c <- character_label ;;
          io (print_text (nl ++ "[Now " ++ c ++ " is responding...]")) ;;
          io (await sleep) ;;
          character_message <- get_character_message fuel [(user_message, "")] ;;
          c <- character_label ;;
          io (print_text ("[" ++ c ++ "]: " ++ character_message)) ;;
          add_message_pair user_message character_message ;;
          loop fuel)
         (fun e =>
            match e with
            | KeyboardInterrupt =>
                Some (io (print (nl ++ "No problem, saving your progress before stopping!")))
            | _ =>
                if is_Exception e
                then Some (io (print_text ("Ran into a snag: " ++ exn_str e)))
                else None
            end))
      finish.

(** ** The program *)

(** [main()]: [argv] is [sys.argv] *)
Definition main (fuel : nat) (argv : list string) : M world unit :=
  print "Roleplay Dataset Generator" ;;
  print "===========================================" ;;
  let config_file := match argv with
                     | _ :: a :: _ => a
                     | _ => "config.json"
                     end in
  generator <- __init__ (join "" config_file) ;;
  print (nl ++ "Starting the conversation generator...") ;;
  print "Press Ctrl+C anytime to save and stop" ;;
  try_
    (call generator (run_generation fuel))
    (fun e =>
       match e with
       | KeyboardInterrupt =>
           Some (print (nl ++ "Saving your progress and wrapping things up!"))
       | _ => None
       end).

(** [asyncio.run(coro)]: a Ctrl+C cancels the main task, so that the call
    it awaits raises [CancelledError]; when the task has ended cancelled the
    runner raises [KeyboardInterrupt].  Whatever else the task returns or
    raises is passed on. *)
Definition asyncio_run {A} (coro : M world A) : M world A :=
  try_ coro
       (fun e =>
          match e with
          | CancelledError => Some (raise KeyboardInterrupt)
          | _ => None
          end).

(** the [if __name__ == "__main__":] block *)
Definition program (fuel : nat) (argv : list string) : M world unit :=
  os_makedirs "datasets" ;;
  os_makedirs "cache" ;;
  asyncio_run (main fuel argv).

(** The exit status of the interpreter: 0 when the program runs to its end or
    leaves through [sys.exit(0)], the status given to [sys.exit], 130 for a
    [KeyboardInterrupt] nobody caught, and 1 for any other exception nobody
    caught.  A pending run has none yet. *)
Definition exit_status (r : res unit) : option Z :=
  match r with
  | Ret _ => Some 0
  | Raise (SystemExit code) => Some code
  | Raise KeyboardInterrupt => Some 130
  | Raise _ => Some 1
  | Pending => None
  end.

End StandaloneRoleplayGenerator.

(* ================================================================== *)
(** * Vocabulary of the statements *)
(* ================================================================== *)

Import StandaloneRoleplayGenerator.

(** ** Computations *)

(** [returns m]: [m] runs to its end from every state, raising nothing. *)
Definition returns {S A} (m : M S A) : Prop :=
  forall s, exists a s', m s = (Ret a, s').

(** [tame m]: [m] runs to its end or raises what [except Exception]
    catches. *)
Definition tame {S A} (m : M S A) : Prop :=
  forall s, match fst (m s) with
            | Ret _ => True
            | Raise e => is_Exception e = true
            | Pending => False
            end.

(** [maintains I m R]: from a state where [I] holds, [m] leaves a state
    where [I] holds, however it ends; what it returns satisfies [R]. *)
Definition maintains {S A} (I : S -> Prop) (m : M S A) (R : A -> Prop) : Prop :=
  forall s, I s ->
    I (snd (m s)) /\ match fst (m s) with Ret a => R a | _ => True end.

(** [throws I m Q]: from a state where [I] holds, [m] leaves a state where
    [I] holds, and what it raises, if anything, satisfies [Q]. *)
Definition throws {S A} (I : S -> Prop) (m : M S A) (Q : exn -> Prop) : Prop :=
  forall s, I s ->
    I (snd (m s)) /\ match fst (m s) with Raise e => Q e | _ => True end.

(** the side of the world the collaborators and the console make up *)
Definition same_outside (w w' : world) : Prop :=
  remote w' = remote w /\ calls w' = calls w /\ console w' = console w.

(** file-system calls and printing leave the schedule of answers, the record
    of the calls and the console alone *)
Definition frame {A} (m : M world A) : Prop :=
  forall w, same_outside w (snd (m w)).

(** ** Files and backups *)

Definition keys (l : list (path * file)) : list path := map fst l.

(** the entries [_cleanup_old_backups] looks at: those of the backup
    directory whose name ends in [.bak] *)
Definition backup_files (self : BackupManager.t) (l : list (path * file))
  : list (path * file) :=
  filter (fun e => String.eqb (dirname (fst e)) (BackupManager.backup_dir self)
                   && endswith (basename (fst e)) ".bak") l.

Definition backup_paths (self : BackupManager.t) (l : list (path * file)) : list path :=
  keys (backup_files self l).

Definition backup_contents (self : BackupManager.t) (w : world) : list contents :=
  map (fun e => data (snd e)) (backup_files self (fs w)).

(** the modification time of [p] in the table [l] *)
Definition mtime_in (l : list (path * file)) (p : path) : Z :=
  match lookup p l with
  | Some f => mtime f
  | None => 0
  end.

Definition by_key (a b : Z * path) : Prop := fst a <= fst b.

(** the backups by ascending modification time, entries of equal time in
    listing order: what [backups.sort(key=getmtime)] leaves in [backups] *)
Definition oldest_first (self : BackupManager.t) (l : list (path * file)) : list path :=
  map snd (BackupManager.sorted (map (fun p => (mtime_in l p, p)) (backup_paths self l))).

Definition delete_all (ps : list path) (l : list (path * file)) : list (path * file) :=
  fold_left (fun a p => delete p a) ps l.

(** the steps inside the [try] of [save_data] *)
Definition save_steps (self : BackupManager.t) (data : Document) : M world unit :=
  open_w (BackupManager.temp_filename self) ;;
  json_dump data (BackupManager.temp_filename self) ;;
  (b <- os_path_exists (BackupManager.base_filename self) ;;
   if b then BackupManager._create_backup self else ret tt) ;;
  (b <- os_path_exists (BackupManager.base_filename self) ;;
   if b then os_remove (BackupManager.base_filename self) else ret tt) ;;
  os_rename (BackupManager.temp_filename self) (BackupManager.base_filename self).

(** ** The ledger and the run *)

(** the progress line of [save_conversation] *)
Definition progress_line (d : Document) : string :=
  "Saved progress: " ++ str_of_int (pair_count (metadata d))
  ++ " / " ++ str_of_int (total_target (metadata d)).

(** the object after the two assignments of [add_message_pair] *)
Definition with_pair (user_text character_text : string) (s : state) : state :=
  {| self := set_conversation_data
               (append_pair {| user := user_text; character := character_text;
                               timestamp := strftime "%Y-%m-%d %H:%M:%S" (now (env s)) |}
                            (conversation_data (self s)))
               (self s);
     env := env s |}.

(** what [clean_response] makes of [response] when the character is named
    [character_name] *)
Definition normalise (character_name response : string) : string :=
  strip_prefixes (character_prefixes (lower character_name ++ ":"))
                 (strip_prefixes user_prefixes (strip response)).

(** the counter agrees with the list *)
Definition counted (d : Document) : Prop :=
  pair_count (metadata d) = Z.of_nat (length (conversation_pairs d)).

(** the prompt of the opening message, for the interests [i] and the
    speaking style [st] of the persona *)
Definition opening_prompt (c : Config) (i st : string) : string :=
  let user := user_persona c in
  "You are roleplaying as a character with the following traits:" ++ nl
  ++ "- Name: " ++ name user ++ nl
  ++ "- Personality: " ++ personality user ++ nl
  ++ "- Background: " ++ background user ++ nl
  ++ "- Interests: " ++ i ++ nl
  ++ "- Speaking Style: " ++ st ++ nl
  ++ "SCENARIO: " ++ config_scenario c ++ nl
  ++ "- Stay in character as " ++ name user ++ nl
  ++ "Start the conversation in a way that fits the scenario.".

(** the user text [u] of the opening exchange, given the calls [made]: the
    normalised reply to the opening prompt, or the opening fallback when the
    call with that prompt raised what [except Exception] catches *)
Definition user_turn (cfg : Config) (n : string) (made : list (request * answer))
  (u : string) : Prop :=
  exists i st,
    interests (user_persona cfg) = Some i
    /\ speaking_style (user_persona cfg) = Some st
    /\ ((exists x, In (generate_content_async (opening_prompt cfg i st), Reply x) made
                   /\ u = normalise n x)
        \/ (exists e, In (generate_content_async (opening_prompt cfg i st), Fails e) made
                      /\ is_Exception e = true
                      /\ u = fallback_first (name (user_persona cfg)) i)).

(** the character text [c] that goes with the user text [u]: the normalised
    reply of the character service to the message [u] *)
Definition character_turn (cfg : Config) (n : string) (made : list (request * answer))
  (u c : string) : Prop :=
  exists y, In (send_message (character_id (character_ai cfg)) u, Reply y) made
            /\ c = normalise n y.

(** The states an object can be in: the one its constructor builds, and
    those its methods lead to, with any arguments, with whatever bound on
    the loops, and with the world free to change between two calls.  A run
    that is still pending shows as the state it has got to. *)
Inductive reachable : state -> Prop :=
| reach_init path w g w' :
    __init__ path w = (Ret g, w') -> reachable {| self := g; env := w' |}
| reach_world s w :
    reachable s -> reachable {| self := self s; env := w |}
| reach_run_generation s fuel :
    reachable s -> reachable (snd (run_generation fuel s))
| reach_add_message_pair s u c :
    reachable s -> reachable (snd (add_message_pair u c s))
| reach_save_conversation s :
    reachable s -> reachable (snd (save_conversation s))
| reach_initialize_char_ai s :
    reachable s -> reachable (snd (initialize_char_ai s))
| reach_get_user_message s b ctx :
    reachable s -> reachable (snd (get_user_message b ctx s))
| reach_get_character_message s depth ctx :
    reachable s -> reachable (snd (get_character_message depth ctx s)).

(** where the constructor leaves the object, when it returns *)
Definition started (path : path) (w : world) : state :=
  match __init__ path w with
  | (Ret g, w') => {| self := g; env := w' |}
  | (_, w') =>
      {| self := {| config := default_config; char_ai_client := false;
                    char_ai_chat := false;
                    conversation_data := initial_conversation_data default_config "";
                    output_file := path;
                    backup_manager := {| BackupManager.base_filename := path;
                                         BackupManager.max_backups := 5;
                                         BackupManager.backup_dir := "" |};
                    character_name := None |};
         env := w' |}
  end.

(** the answer is a reply *)
Definition replied (ev : event) : Prop := exists text, outcome ev = Reply text.

(** every failing answer is the cancellation of the task by a Ctrl+C *)
Definition cancellations_only (L : list event) : Prop :=
  Forall (fun ev => match outcome ev with
                    | Reply _ => True
                    | Fails e => e = CancelledError
                    end) L.

(** the console encodes every line *)
Definition prints_all (w : world) : Prop := forall msg, console w msg = None.

(** [sys.argv[1]] if given, else "config.json" *)
Definition config_path (argv : list string) : path :=
  join "" (match argv with
           | _ :: a :: _ => a
           | _ => "config.json"
           end).

(** a state of a run on a console that encodes every line, in which only
    cancellations are left to fail; of the answers [L] scheduled at the
    start, those taken so far were all replies if [clean], and one of them
    was a cancellation if not *)
Definition calm (L : list event) (clean : bool) (s : state) : Prop :=
  prints_all (env s)
  /\ cancellations_only (remote (env s))
  /\ exists pre, L = (pre ++ remote (env s))%list
                 /\ if clean then Forall replied pre else ~ Forall replied pre.

(** [ends T m]: from a state [T clean], [m] returns to a state [T clean];
    what it raises is the cancellation it has met, or is what
    [except Exception] catches and then leaves a state [T clean] *)
Definition ends {A} (T : bool -> state -> Prop) (m : M state A) : Prop :=
  forall clean s, T clean s ->
    match m s with
    | (Ret _, s') => T clean s'
    | (Raise e, s') =>
        (e = CancelledError /\ T false s') \/ (is_Exception e = true /\ T clean s')
    | (Pending, s') => exists c, T c s'
    end.

(** [ends_cancelled T m]: as [ends T m], and [m] raises nothing but the
    cancellation it has met *)
Definition ends_cancelled {A} (T : bool -> state -> Prop) (m : M state A) : Prop :=
  forall clean s, T clean s ->
    match m s with
    | (Ret _, s') => T clean s'
    | (Raise e, s') => e = CancelledError /\ T false s'
    | (Pending, s') => exists c, T c s'
    end.

(** [runs P m Q X]: from a state where [P] holds, [m] ends: it returns [a]
    to a state where [Q a] holds, or it raises [e] in a state where [X e]
    holds. *)
Definition runs {S A} (P : S -> Prop) (m : M S A) (Q : A -> S -> Prop)
  (X : exn -> S -> Prop) : Prop :=
  forall s, P s -> match m s with
                   | (Ret a, s') => Q a s'
                   | (Raise e, s') => X e s'
                   | (Pending, _) => False
                   end.

(** what a run needs to go on to its end: the object is configured by
    [cfg], the console shows every line, the collaborators answer or the
    task is cancelled, at least [k] answers are scheduled, and at most [j]
    pairs are missing to the target *)
Definition supplied (cfg : Config) (k j : nat) (s : state) : Prop :=
  config (self s) = cfg
  /\ prints_all (env s) /\ cancellations_only (remote (env s))
  /\ (k <= length (remote (env s)))%nat
  /\ target_message_count (pipeline cfg)
     - pair_count (metadata (conversation_data (self s))) <= Z.of_nat j.

(** [spends cfg b n d m]: when at most [b] pairs are missing, [m] ends after
    at most [n] awaited calls; it returns [a] having stored [d a] pairs, and
    it does not raise [SessionClosedError] *)
Definition spends {A} (cfg : Config) (b n : nat) (d : A -> nat) (m : M state A) : Prop :=
  forall k j, (j <= b)%nat ->
    runs (supplied cfg (n + k) j) m
         (fun a => supplied cfg k (j - d a))
         (fun e s' => supplied cfg k j s' /\ forall msg, e <> SessionClosedError msg).

(** the pairs an iteration of the loop has stored *)
Definition stored (f : flow) : nat :=
  match f with
  | Next => 1
  | Break => 0
  end.

(** the [except KeyboardInterrupt] clause of [main] *)
Definition main_handler (e : exn) : option (M world unit) :=
  match e with
  | KeyboardInterrupt => Some (print (nl ++ "Saving your progress and wrapping things up!"))
  | _ => None
  end.

(** no label of the list heads [x], whatever the case of its letters *)
Definition unlabelled (labels : list string) (x : string) : Prop :=
  forallb (fun p => negb (startswith (lower x) p)) labels = true.

(** ** Sample inputs *)

(** an empty disk at clock [t], nothing scheduled *)
Definition fresh (t : Z) : world :=
  {| fs := []; now := t; faults := []; remote := []; stdout := [];
     calls := []; console := fun _ => None;
     json_error := fun _ => "Expecting value: line 1 column 1 (char 0)" |}.

(** the world [w] with the files [l], the clock at [t], the failures [fl]
    and the answers [answers] to come *)
Definition world_with (l : list (path * file)) (t : Z) (fl : list bool)
  (answers : list event) : world :=
  {| fs := l; now := t; faults := fl; remote := answers; stdout := [];
     calls := []; console := fun _ => None;
     json_error := fun _ => "Expecting value: line 1 column 1 (char 0)" |}.

(** the save of the document [d] when the clock reads [t] *)
Definition save_at (self : BackupManager.t) (t : Z) (d : Document) : M world unit :=
  at_time t ;; BackupManager.save_data self d.

Definition store2 : BackupManager.t :=
  {| BackupManager.base_filename := join "datasets" "conversation.json";
     BackupManager.max_backups := 2;
     BackupManager.backup_dir := BackupManager.backup_dir_of (join "datasets" "conversation.json") |}.

(** a document with [n] pairs *)
Definition growing (n : nat) : Document :=
  {| metadata := {| date := "0"; characters_user := "User";
                    characters_character := "AI Character";
                    metadata_scenario := "A casual conversation";
                    pair_count := Z.of_nat n; total_target := 50 |};
     scenario := "A casual conversation";
     conversation_pairs :=
       repeat {| user := "hello"; character := "hi"; timestamp := "0" |} n |}.

(** a disk that holds the target file with the document of an earlier save,
    at clock [t], with the failures [fl] to come *)
Definition committed_disk (self : BackupManager.t) (d : Document) (t : Z)
  (fl : list bool) : world :=
  world_with [(BackupManager.base_filename self, {| data := Json d; mtime := t - 1000 |})]
             t fl [].

(** a disk with the target file and the backups of three earlier saves *)
Definition crowded_disk (fl : list bool) : world :=
  world_with [ (join "datasets" "conversation.json",
                {| data := Json (growing 4); mtime := 4000 |});
               (join "datasets/backups" "conversation.json.2.bak",
                {| data := Json (growing 2); mtime := 2000 |});
               (join "datasets/backups" "conversation.json.1.bak",
                {| data := Json (growing 1); mtime := 1000 |});
               (join "datasets/backups" "conversation.json.3.bak",
                {| data := Json (growing 3); mtime := 3000 |}) ]
             5000 fl [].

(** a disk with the target file and the backups of two earlier saves *)
Definition full_disk (fl : list bool) : world :=
  world_with [ (join "datasets" "conversation.json",
                {| data := Json (growing 3); mtime := 3000 |});
               (join "datasets/backups" "conversation.json.3.bak",
                {| data := Json (growing 2); mtime := 2000 |});
               (join "datasets/backups" "conversation.json.2.bak",
                {| data := Json (growing 1); mtime := 1000 |}) ]
             4000 fl [].

(** an empty disk on which the next file-system call fails, and none after *)
Definition failing_once : world := world_with [] 5000 [true] [].

Definition said (text : string) : event := {| elapsed := 1000; outcome := Reply text |}.

(** [n] replies in a row *)
Definition patient_answers (n : nat) : list event := repeat (said "well") n.

(** five replies, a Ctrl+C, and replies again *)
Definition cancelled_answers (n : nat) : list event :=
  (patient_answers 5
   ++ {| elapsed := 500; outcome := Fails CancelledError |} :: patient_answers n)%list.

Definition sample_settings : list Setting :=
  [Set_token "t"; Set_character_id "c"; Set_target_message_count 3;
   Set_interests "chess"; Set_speaking_style "plain";
   Set_character (Some "Bot")].

(** a disk with a filled-in configuration file, and the answers to come *)
Definition configured (settings : list Setting) (answers : list event) : world :=
  world_with [(join "" "config.json", {| data := ConfigJson settings; mtime := 0 |})]
             1700000000000 [] answers.

(** a run on a configured disk: the session opens, the first exchange
    succeeds *)
Definition sample_answers : list event :=
  [said "client"; said "me"; said "Hello, traveller";
   said "User: hello"; said ""; said "Bot: hi there"].

Definition sample_run : state :=
  snd (run_generation 3
         (started (join "" "config.json") (configured sample_settings sample_answers))).

(** answers of a run in which both collaborators come back with nothing to
    say: a label and nothing after it, then an empty reply *)
Definition empty_answers : list event :=
  [said "client"; said "me"; said "Hello, traveller";
   said "User: "; said ""; said ""].

(** an object as the constructor builds it, holding the document [d] *)
Definition sample_generator (d : Document) : t :=
  {| config := fold_left apply_setting sample_settings default_config;
     char_ai_client := false; char_ai_chat := false;
     conversation_data := d;
     output_file := BackupManager.base_filename store2;
     backup_manager := store2;
     character_name := None |}.

(** answers of a run interrupted between the user turn and the character
    turn *)
Definition interrupted_answers : list event :=
  [said "client"; said "me"; said "Hello, traveller";
   said "User: hello"; {| elapsed := 500; outcome := Fails CancelledError |};
   said "closed"].

Definition alice_settings : list Setting := Set_name "Alice" :: sample_settings.

Definition alice_answers : list event :=
  [said "client"; said "me"; said "Hello, traveller";
   said "Alice: hello"; said ""; said "[Bot]: hi there"].

(** ** Further vocabulary: the store *)

(** no file-system call to come fails *)
Definition unfailing (w : world) : Prop := faults w = [].

(** the steps of [save_data] up to and including the backup *)
Definition save_prefix (self : BackupManager.t) (data : Document) : M world unit :=
  open_w (BackupManager.temp_filename self) ;;
  json_dump data (BackupManager.temp_filename self) ;;
  (b <- os_path_exists (BackupManager.base_filename self) ;;
   if b then BackupManager._create_backup self else ret tt).

(** the files a store writes, renames or removes: its target, its temporary
    file and the [.bak] entries of its backup directory *)
Definition own_file (self : BackupManager.t) (p : path) : bool :=
  path_eqb p (BackupManager.base_filename self)
  || path_eqb p (BackupManager.temp_filename self)
  || String.eqb (dirname p) (BackupManager.backup_dir self)
     && endswith (basename p) ".bak".

(** ** Further vocabulary: the object and the run *)

(** the attributes no method assigns once the constructor has returned *)
Definition settled (g g' : t) : Prop :=
  config g' = config g
  /\ output_file g' = output_file g
  /\ backup_manager g' = backup_manager g
  /\ character_name g' = character_name g.

(** the object apart from the two session attributes *)
Definition same_object (g g' : t) : Prop :=
  settled g g' /\ conversation_data g' = conversation_data g.

(** the report of [initialize_char_ai] on the error [e] *)
Definition startup_report (e : exn) : string :=
  "Failed to initialize Character AI: " ++ exn_str e.

(** what [get_character_message] lets out on the console of [w]: a
    cancellation, an interrupt or an exit; one of the three errors it builds,
    the third around the text of the error it caught; or the failure of
    [initialize_char_ai] to print its report *)
Definition wrapped (w : world) (e : exn) : Prop :=
  is_Exception e = false
  \/ e = Exception "Cannot continue without Character AI connection"
  \/ e = Exception "Failed to reconnect to Character AI"
  \/ (exists e', is_Exception e' = true
                 /\ e = Exception ("Character AI error: " ++ exn_str e'))
  \/ (exists e' err, is_Exception e' = true
                     /\ console w (startup_report e') = Some err
                     /\ e = UnicodeEncodeError err).

(** [x] is a piece of [r]: nothing in it was made up *)
Definition part_of (x r : string) : Prop := exists a b, r = a ++ x ++ b.

(** what [get_user_message] needs in order to return: a history it can
    build, and the keys of the persona that its prompt reads *)
Definition can_speak (g : t) (is_first_message : bool) (recent_pairs : context) : Prop :=
  (recent_pairs = [] \/ character_name g <> None)
  /\ speaking_style (user_persona (config g)) <> None
  /\ (is_first_message = true -> interests (user_persona (config g)) <> None).

(** the state of a run of the object [g]: the settled attributes are those
    of [g], the world satisfies [J] and the document satisfies [D] *)
Definition keeps (g : t) (J : world -> Prop) (D : Document -> Prop) (s : state) : Prop :=
  settled g (self s) /\ J (env s) /\ D (conversation_data (self s)).

(** the same, for a property [K] that ties the document to the world *)
Definition holds (g : t) (K : world -> Document -> Prop) (s : state) : Prop :=
  settled g (self s) /\ K (env s) (conversation_data (self s)).

(** [gives P m Q E]: from a state where [P] holds, [m] returns [a] to a state
    where [Q a] holds, or ends otherwise in a state where [E] holds. *)
Definition gives {S A} (P : S -> Prop) (m : M S A) (Q : A -> S -> Prop) (E : S -> Prop)
  : Prop :=
  forall s, P s -> match fst (m s) with
                   | Ret a => Q a (snd (m s))
                   | _ => E (snd (m s))
                   end.

(** [leads P m Q]: from a state where [P] holds, [m] leaves a state where
    [Q] holds, however it ends. *)
Definition leads {S A} (P : S -> Prop) (m : M S A) (Q : S -> Prop) : Prop :=
  forall s, P s -> Q (snd (m s)).

(** [yields P m R Q]: from a state where [P] holds, [m] returns a value
    that satisfies [R] and leaves a state where [Q] holds. *)
Definition yields {S A} (P : S -> Prop) (m : M S A) (R : A -> Prop) (Q : S -> Prop) : Prop :=
  forall s, P s -> exists a s', m s = (Ret a, s') /\ R a /\ Q s'.

(** the [try] block of [run_generation] with its two handlers *)
Definition run_body (fuel : nat) : M state unit :=
  try_
    (s <- get ;;
     let user_name := name (user_persona (config (self s))) in
     io (print_text (nl ++ "[Thinking up " ++ user_name ++ "'s first message...]")) ;;
     user_message <- get_user_message true [] ;;
     io (print_text ("[" ++ user_name ++ "]: " ++ user_message)) ;;
     c <- character_label ;;
     io (print_text (nl ++ "[Now " ++ c ++ " is responding...]")) ;;
     io (await sleep) ;;
     character_message <- get_character_message fuel [(user_message, "")] ;;
     c <- character_label ;;
     io (print_text ("[" ++ c ++ "]: " ++ character_message)) ;;
     add_message_pair user_message character_message ;;
     loop fuel)
    (fun e =>
       match e with
       | KeyboardInterrupt =>
           Some (io (print (nl ++ "No problem, saving your progress before stopping!")))
       | _ =>
           if is_Exception e
           then Some (io (print_text ("Ran into a snag: " ++ exn_str e)))
           else None
       end).

(** the configuration [__init__] reads from the file [f] *)
Definition loaded (f : file) : Config :=
  match data f with
  | ConfigJson c => fold_left apply_setting c default_config
  | Json d => fold_left apply_setting [Set_scenario (scenario d)] default_config
  | _ => default_config
  end.

(** what the world keeps through the calls of the constructor that write no
    file *)
Definition undisturbed (w w' : world) : Prop :=
  fs w' = fs w /\ remote w' = remote w /\ now w' = now w.

(** a state of the object [g] that holds the document [d], with the answers
    [L] to come; [connected]: the session is open *)
Definition poised (g : t) (d : Document) (connected : bool) (L : list event)
  (s : state) : Prop :=
  settled g (self s)
  /\ conversation_data (self s) = d
  /\ remote (env s) = L
  /\ prints_all (env s)
  /\ (connected = true ->
      char_ai_client (self s) = true /\ char_ai_chat (self s) = true).

(** ** Further sample inputs *)

(** a store whose bound on the backups is negative *)
Definition store_minus : BackupManager.t :=
  {| BackupManager.base_filename := join "datasets" "conversation.json";
     BackupManager.max_backups := -1;
     BackupManager.backup_dir := BackupManager.backup_dir_of (join "datasets" "conversation.json") |}.

(** the [try] block of [__init__]: the configuration it settles on *)
Definition load_config (config_path : path) : M world Config :=
  try_
    (b <- os_path_exists config_path ;;
     if b then
       custom_config <- json_load config_path ;;
       print ("Loaded your settings from " ++ path_str config_path) ;;
       ret (fold_left apply_setting custom_config default_config)
     else
       print ("No config file found! Creating a starter one at "
              ++ path_str config_path ++ "...") ;;
       open_w config_path ;;
       json_dump_config default_settings config_path ;;
       print ("Default settings saved to " ++ path_str config_path
              ++ ". Please add your info and restart.") ;;
       raise (SystemExit 0))
    (except_Exception (fun e =>
       print ("Had trouble with the config file: " ++ exn_str e) ;;
       print "Going with default settings instead" ;;
       ret default_config)).

(** a disk that holds the configuration file [f] and nothing else *)
Definition disk_with (f : file) (answers : list event) : world :=
  world_with [(join "" "config.json", f)] 1700000000000 [] answers.

(** the session opens half-way: the client is there, the account is not *)
Definition half_open_answers : list event :=
  [said "client"; {| elapsed := 1000; outcome := Fails (Exception "no account") |}].

(** the session opens, then the character-side call breaks *)
Definition broken_answers : list event :=
  [said "client"; said "me"; said "Hello, traveller";
   {| elapsed := 1000; outcome := Fails (OSError "connection reset") |}].

(** the session has expired, it opens again and the reply comes *)
Definition expired_answers : list event :=
  [{| elapsed := 1000; outcome := Fails (SessionClosedError "") |};
   said "client"; said "me"; said "Hello again"; said "Bot: welcome back"].

(** an object whose session is open *)
Definition connected_generator (d : Document) : t :=
  set_char_ai_chat true (set_char_ai_client true (sample_generator d)).

(** a configuration that names the character and leaves the persona as the
    defaults have it *)
Definition bare_settings : list Setting :=
  [Set_token "t"; Set_character_id "c"; Set_character (Some "Bot")].

(** the opening exchange, and answers enough for a second one *)
Definition long_answers : list event :=
  (sample_answers
   ++ [said ""; said "User: and then?"; said ""; said "Bot: then nothing";
       said "closed"])%list.

(** closing the session fails *)
Definition unclosable_answers : list event :=
  [{| elapsed := 1000; outcome := Fails (OSError "connection reset") |}].

(* ================================================================== *)
(** * Facts about computations *)
(* ================================================================== *)

Section Computations.

Context {S : Type}.

Lemma bind_ret_eq {A B} (m : M S A) (k : A -> M S B) s a s' :
  m s = (Ret a, s') -> bind m k s = k a s'.
Proof. intros E. unfold bind. now rewrite E. Qed.

Lemma returns_tame {A} (m : M S A) : returns m -> tame m.
Proof. intros H s. destruct (H s) as (a & s' & ->). exact I. Qed.

Lemma returns_ret {A} (a : A) : returns (ret a : M S A).
Proof. intros s. now exists a, s. Qed.

Lemma returns_bind {A B} (m : M S A) (k : A -> M S B) :
  returns m -> (forall a, returns (k a)) -> returns (bind m k).
Proof.
  intros Hm Hk s. unfold bind. destruct (Hm s) as (a & s' & ->). apply Hk.
Qed.

Lemma tame_ret {A} (a : A) : tame (ret a : M S A).
Proof. intros s. exact I. Qed.

Lemma tame_raise {A} e : is_Exception e = true -> tame (raise e : M S A).
Proof. intros H s. exact H. Qed.

Lemma tame_bind {A B} (m : M S A) (k : A -> M S B) :
  tame m -> (forall a, tame (k a)) -> tame (bind m k).
Proof.
  intros Hm Hk s. unfold bind. specialize (Hm s).
  destruct (m s) as [[a|e|] s']; simpl in *; auto. apply Hk.
Qed.

Lemma tame_if {A} (b : bool) (m1 m2 : M S A) :
  tame m1 -> tame m2 -> tame (if b then m1 else m2).
Proof. now destruct b. Qed.

Lemma returns_if {A} (b : bool) (m1 m2 : M S A) :
  returns m1 -> returns m2 -> returns (if b then m1 else m2).
Proof. now destruct b. Qed.

(** a [try] whose [except Exception] clause runs to its end *)
Lemma returns_try {A} (body : M S A) (h : exn -> M S A) :
  tame body -> (forall e, returns (h e)) ->
  returns (try_ body (except_Exception h)).
Proof.
  intros Hb Hh s. unfold try_, except_Exception. specialize (Hb s).
  destruct (body s) as [[a|e|] s']; simpl in *.
  - now exists a, s'.
  - rewrite Hb. apply Hh.
  - contradiction.
Qed.

(** a [try] with a bare [except] clause that runs to its end *)
Lemma returns_try_any {A} (body h : M S A) :
  tame body -> returns h -> returns (try_ body (except_any h)).
Proof.
  intros Hb Hh s. unfold try_, except_any. specialize (Hb s).
  destruct (body s) as [[a|e|] s']; simpl in *.
  - now exists a, s'.
  - apply Hh.
  - contradiction.
Qed.

End Computations.

Create HintDb py discriminated.
#[export] Hint Resolve returns_ret returns_bind returns_if returns_try
  returns_try_any tame_ret tame_bind tame_if tame_raise : py.

(* ================================================================== *)
(** * Facts about the file-system calls *)
(* ================================================================== *)

Section Calls.

Lemma returns_print msg : returns (print msg).
Proof. intros w. eexists _, _. reflexivity. Qed.

Lemma returns_os_path_exists p : returns (os_path_exists p).
Proof. intros w. eexists _, _. reflexivity. Qed.

Lemma returns_datetime_now_strftime fmt : returns (datetime_now_strftime fmt).
Proof. intros w. eexists _, _. reflexivity. Qed.

Lemma tame_fault msg : tame (fault msg).
Proof. intros w. unfold fault. now destruct (faults w) as [|[] l]. Qed.

Ltac tame_call :=
  apply tame_bind; [apply tame_fault|];
  intros _ w; cbn;
  try match goal with
      | |- context [lookup ?p ?l] => destruct (lookup p l); cbn
      end; auto.

Lemma tame_open_w p : tame (open_w p).
Proof. unfold open_w. tame_call. Qed.

Lemma tame_json_dump d p : tame (json_dump d p).
Proof.
  unfold json_dump. apply tame_bind.
  - intros w. unfold try_, fault. now destruct (faults w) as [|[] l].
  - intros _ w. exact I.
Qed.

Lemma tame_os_remove p : tame (os_remove p).
Proof. unfold os_remove. tame_call. Qed.

Lemma tame_os_rename p q : tame (os_rename p q).
Proof. unfold os_rename. tame_call. Qed.

Lemma tame_shutil_copy2 p q : tame (shutil_copy2 p q).
Proof. unfold shutil_copy2. tame_call. Qed.

Lemma tame_os_listdir d : tame (os_listdir d).
Proof. unfold os_listdir. tame_call. Qed.

Lemma tame_os_path_getmtime p : tame (os_path_getmtime p).
Proof. unfold os_path_getmtime. tame_call. Qed.

Lemma tame_os_makedirs d : tame (os_makedirs d).
Proof. apply tame_fault. Qed.

End Calls.

#[export] Hint Resolve returns_print returns_os_path_exists
  returns_datetime_now_strftime tame_fault tame_open_w tame_json_dump
  tame_os_remove tame_os_rename tame_shutil_copy2 tame_os_listdir
  tame_os_path_getmtime tame_os_makedirs : py.
#[export] Hint Extern 5 (tame _) => apply returns_tame : py.

(* ================================================================== *)
(** * The durable store never raises *)
(* ================================================================== *)

Section StoreReturns.

Import BackupManager.

Lemma tame_sort_keys l : tame (sort_keys os_path_getmtime l).
Proof. induction l as [|x r IH]; simpl; auto 10 with py. Qed.

Lemma tame_prune n l : tame (prune n l).
Proof.
  induction l as [|b r IH]; simpl.
  - destruct (_ >? _); auto with py.
  - destruct (_ >? _); auto with py.
Qed.

Lemma returns_cleanup_old_backups self : returns (_cleanup_old_backups self).
Proof.
  unfold _cleanup_old_backups. apply returns_try; auto with py.
  apply tame_bind; auto with py. intros names.
  apply tame_bind.
  - unfold sort_by_mtime. apply tame_bind; auto using tame_sort_keys with py.
  - intros. apply tame_prune.
Qed.

Lemma returns_create_backup self : returns (_create_backup self).
Proof.
  unfold _create_backup. apply returns_bind; auto with py. intros b.
  apply returns_if; auto with py.
  apply returns_bind; auto with py. intros ts.
  apply returns_try; auto with py.
  apply tame_bind; auto with py. intros _.
  apply returns_tame, returns_cleanup_old_backups.
Qed.

Lemma returns_save_data self data : returns (save_data self data).
Proof.
  unfold save_data. apply returns_try.
  - apply tame_bind; [auto with py | intros _].
    apply tame_bind; [auto with py | intros _].
    apply tame_bind; [| intros _].
    { apply tame_bind; [auto with py | intros [|]]; auto with py.
      apply returns_tame, returns_create_backup. }
    apply tame_bind; [| intros _; auto with py].
    apply tame_bind; [auto with py | intros [|]]; auto with py.
  - intros e. repeat (apply returns_bind; [auto with py | intros ?]).
    apply returns_if; auto with py.
Qed.

End StoreReturns.

(* ================================================================== *)
(** * Paths and the table of files *)
(* ================================================================== *)

Section Files.

Lemma path_eqb_eq p q : path_eqb p q = true <-> p = q.
Proof.
  destruct p as [d b], q as [d' b']. unfold path_eqb; simpl.
  rewrite andb_true_iff, !String.eqb_eq. split.
  - now intros [-> ->].
  - intros H; injection H; auto.
Qed.

Lemma path_eqb_refl p : path_eqb p p = true.
Proof. now apply path_eqb_eq. Qed.

Lemma path_eqb_neq p q : path_eqb p q = false <-> p <> q.
Proof.
  rewrite <- path_eqb_eq. destruct (path_eqb p q); split; intros; congruence.
Qed.

Lemma path_eqb_sym p q : path_eqb p q = path_eqb q p.
Proof.
  destruct (path_eqb p q) eqn:E.
  - apply path_eqb_eq in E. subst. now rewrite path_eqb_refl.
  - symmetry. apply path_eqb_neq. apply path_eqb_neq in E. congruence.
Qed.

Lemma lookup_store_eq p f l : lookup p (store p f l) = Some f.
Proof.
  induction l as [|[q g] r IH]; simpl.
  - now rewrite path_eqb_refl.
  - destruct (path_eqb q p) eqn:E; simpl.
    + now rewrite path_eqb_refl.
    + now rewrite E.
Qed.

Lemma lookup_store_neq p q f l :
  path_eqb q p = false -> lookup p (store q f l) = lookup p l.
Proof.
  intros N. induction l as [|[x g] r IH]; simpl.
  - now rewrite N.
  - destruct (path_eqb x q) eqn:E; simpl.
    + apply path_eqb_eq in E. subst x. now rewrite N.
    + now rewrite IH.
Qed.

Lemma lookup_delete_eq p l : lookup p (delete p l) = None.
Proof.
  induction l as [|[q g] r IH]; simpl; auto.
  destruct (path_eqb q p) eqn:E; simpl; auto. now rewrite E.
Qed.

Lemma lookup_delete_neq p q l :
  path_eqb q p = false -> lookup p (delete q l) = lookup p l.
Proof.
  intros N. induction l as [|[x g] r IH]; simpl; auto.
  destruct (path_eqb x q) eqn:E; simpl.
  - apply path_eqb_eq in E. subst x. now rewrite N.
  - now rewrite IH.
Qed.

Lemma length_append_string (a b : string) :
  String.length (a ++ b) = (String.length a + String.length b)%nat.
Proof. induction a; simpl; auto. Qed.

Lemma append_nonempty_neq (a b : string) :
  (0 < String.length b)%nat -> a ++ b <> a.
Proof.
  intros L E. apply (f_equal String.length) in E.
  rewrite length_append_string in E. lia.
Qed.

(** the temporary file is never the target itself *)
Lemma temp_is_not_base self :
  path_eqb (BackupManager.temp_filename self) (BackupManager.base_filename self) = false.
Proof.
  apply path_eqb_neq. intros E. apply (f_equal basename) in E. simpl in E.
  revert E. apply append_nonempty_neq. simpl. lia.
Qed.

Lemma base_is_not_temp self :
  path_eqb (BackupManager.base_filename self) (BackupManager.temp_filename self) = false.
Proof. rewrite path_eqb_sym. apply temp_is_not_base. Qed.

Lemma endswith_unfold s p :
  endswith s p =
  if String.eqb s p then true
  else match s with
       | EmptyString => false
       | String _ r => endswith r p
       end.
Proof. destruct s; reflexivity. Qed.

Lemma endswith_append (a p : string) : endswith (a ++ p) p = true.
Proof.
  induction a as [|c a IH]; rewrite endswith_unfold.
  - cbn [append]. now rewrite String.eqb_refl.
  - cbn [append]. destruct (String.eqb (String c (a ++ p)) p); auto.
Qed.

Lemma append_assoc_string (a b c : string) : (a ++ b) ++ c = a ++ b ++ c.
Proof. induction a; simpl; auto. now f_equal. Qed.

End Files.

(* ================================================================== *)
(** * The calls when nothing fails *)
(* ================================================================== *)

Section NoFault.

Variable w : world.
Hypothesis quiet : faults w = [].

Lemma fault_quiet msg : fault msg w = (Ret tt, w).
Proof. unfold fault. now rewrite quiet. Qed.

Lemma open_w_quiet p :
  open_w p w = (Ret tt, set_fs (store p {| data := Blank; mtime := now w |}) w).
Proof. unfold open_w, bind. now rewrite fault_quiet. Qed.

Lemma json_dump_quiet d p :
  json_dump d p w = (Ret tt, set_fs (store p {| data := Json d; mtime := now w |}) w).
Proof. unfold json_dump, bind, try_. now rewrite fault_quiet. Qed.

Lemma os_remove_quiet p f :
  lookup p (fs w) = Some f -> os_remove p w = (Ret tt, set_fs (delete p) w).
Proof. intros H. unfold os_remove, bind. now rewrite fault_quiet, H. Qed.

Lemma os_rename_quiet p q f :
  lookup p (fs w) = Some f ->
  os_rename p q w = (Ret tt, set_fs (fun l => store q f (delete p l)) w).
Proof. intros H. unfold os_rename, bind. now rewrite fault_quiet, H. Qed.

Lemma shutil_copy2_quiet p q f :
  lookup p (fs w) = Some f ->
  shutil_copy2 p q w = (Ret tt, set_fs (store q f) w).
Proof. intros H. unfold shutil_copy2, bind. now rewrite fault_quiet, H. Qed.

Lemma os_listdir_quiet d :
  os_listdir d w =
  (Ret (map (fun e => basename (fst e))
            (filter (fun e => String.eqb (dirname (fst e)) d) (fs w))), w).
Proof. unfold os_listdir, bind. now rewrite fault_quiet. Qed.

Lemma os_path_getmtime_quiet p f :
  lookup p (fs w) = Some f -> os_path_getmtime p w = (Ret (mtime f), w).
Proof. intros H. unfold os_path_getmtime, bind. now rewrite fault_quiet, H. Qed.

End NoFault.

(* ================================================================== *)
(** * Invariants of computations *)
(* ================================================================== *)

Section Maintains.

Context {S : Type}.

Variable I : S -> Prop.

Lemma maintains_ret {A} (a : A) (R : A -> Prop) : R a -> maintains I (ret a) R.
Proof. intros H s Hs. now split. Qed.

Lemma maintains_raise {A} e (R : A -> Prop) : maintains I (raise e) R.
Proof. intros s Hs. now split. Qed.

Lemma maintains_pending {A} (R : A -> Prop) : maintains I pending R.
Proof. intros s Hs. now split. Qed.

Lemma maintains_get (R : S -> Prop) :
  (forall s, I s -> R s) -> maintains I get R.
Proof. intros H s Hs. split; simpl; auto. Qed.

Lemma maintains_bind {A B} (m : M S A) (k : A -> M S B) R' R :
  maintains I m R' -> (forall a, R' a -> maintains I (k a) R) ->
  maintains I (bind m k) R.
Proof.
  intros Hm Hk s Hs. unfold bind. destruct (Hm s Hs) as [H1 H2].
  destruct (m s) as [[a|e|] s']; simpl in *; auto.
  now apply Hk.
Qed.

Lemma maintains_weaken {A} (m : M S A) (R R' : A -> Prop) :
  maintains I m R -> (forall a, R a -> R' a) -> maintains I m R'.
Proof.
  intros Hm Hw s Hs. destruct (Hm s Hs) as [H1 H2]. split; auto.
  destruct (fst (m s)); auto.
Qed.

Lemma maintains_if {A} (b : bool) (m1 m2 : M S A) R :
  maintains I m1 R -> maintains I m2 R -> maintains I (if b then m1 else m2) R.
Proof. now destruct b. Qed.

Lemma maintains_try {A} (body : M S A) handler R :
  maintains I body R ->
  (forall e h, handler e = Some h -> maintains I h R) ->
  maintains I (try_ body handler) R.
Proof.
  intros Hb Hh s Hs. unfold try_. destruct (Hb s Hs) as [H1 H2].
  destruct (body s) as [[a|e|] s']; simpl in *; auto.
  destruct (handler e) as [h|] eqn:E; simpl; auto.
  now apply (Hh e h E).
Qed.

Lemma maintains_finally {A} (body : M S A) fin R :
  maintains I body R -> maintains I fin (fun _ => True) ->
  maintains I (finally body fin) R.
Proof.
  intros Hb Hf s Hs. unfold finally. destruct (Hb s Hs) as [H1 H2].
  destruct (body s) as [[a|e|] s']; simpl in *; auto;
    destruct (Hf s' H1) as [H3 _];
    destruct (fin s') as [[u|e'|] s'']; simpl in *; auto.
Qed.

(** handlers built from [except Exception] and a bare [except] *)
Lemma maintains_except_Exception {A} (h : exn -> M S A) R e k :
  (forall e, maintains I (h e) R) ->
  except_Exception h e = Some k -> maintains I k R.
Proof.
  unfold except_Exception. intros H E.
  destruct (is_Exception e); inversion E; subst; auto.
Qed.

Lemma maintains_except_any {A} (h : M S A) R e k :
  maintains I h R -> except_any h e = Some k -> maintains I k R.
Proof. unfold except_any. intros H E. inversion E; subst; auto. Qed.

End Maintains.

(* ================================================================== *)
(** * What a save leaves alone *)
(* ================================================================== *)

Section StoreInvariant.

Import BackupManager.

(** An invariant of the world that does not look at the fault schedule nor
    at the console, and tolerates changes to the files at [touchable]
    paths. *)
Variable I : world -> Prop.
Variable touchable : path -> Prop.
Hypothesis I_faults : forall w l, I w -> I (set_faults l w).
Hypothesis I_print : forall w msg, I w -> I (snd (print msg w)).
Hypothesis I_store : forall w q f, touchable q -> I w -> I (set_fs (store q f) w).
Hypothesis I_delete : forall w q, touchable q -> I w -> I (set_fs (delete q) w).

Lemma maintains_fault msg : maintains I (fault msg) (fun _ => True).
Proof.
  intros w Hw. unfold fault. destruct (faults w) as [|[] l]; simpl; auto.
Qed.

Lemma maintains_print msg : maintains I (print msg) (fun _ => True).
Proof. intros w Hw. split; [now apply I_print | exact Logic.I]. Qed.

Lemma maintains_os_path_exists p : maintains I (os_path_exists p) (fun _ => True).
Proof. intros w Hw. split; simpl; auto. Qed.

Lemma maintains_datetime_now_strftime fmt :
  maintains I (datetime_now_strftime fmt) (fun _ => True).
Proof. intros w Hw. split; simpl; auto. Qed.

Lemma maintains_open_w p : touchable p -> maintains I (open_w p) (fun _ => True).
Proof.
  intros T. unfold open_w. eapply maintains_bind; [apply maintains_fault|].
  intros _ _ w Hw. split; simpl; auto.
Qed.

Lemma maintains_json_dump d p :
  touchable p -> maintains I (json_dump d p) (fun _ => True).
Proof.
  intros T. unfold json_dump. eapply maintains_bind.
  - apply maintains_try with (R := fun _ => True); [apply maintains_fault|].
    intros e h E. inversion E; subst.
    apply maintains_bind with (R' := fun _ => True);
      [|intros; apply maintains_raise].
    intros w Hw. split; simpl; auto.
  - intros _ _ w Hw. split; simpl; auto.
Qed.

Lemma maintains_os_remove p : touchable p -> maintains I (os_remove p) (fun _ => True).
Proof.
  intros T. unfold os_remove. eapply maintains_bind; [apply maintains_fault|].
  intros _ _ w Hw. destruct (lookup p (fs w)); simpl; auto.
Qed.

Lemma maintains_os_rename p q :
  touchable p -> touchable q -> maintains I (os_rename p q) (fun _ => True).
Proof.
  intros Tp Tq. unfold os_rename. eapply maintains_bind; [apply maintains_fault|].
  intros _ _ w Hw. destruct (lookup p (fs w)); simpl; auto. split; auto.
  apply (I_store (set_fs (delete p) w)); auto.
Qed.

Lemma maintains_shutil_copy2 p q :
  touchable q -> maintains I (shutil_copy2 p q) (fun _ => True).
Proof.
  intros T. unfold shutil_copy2. eapply maintains_bind; [apply maintains_fault|].
  intros _ _ w Hw. destruct (lookup p (fs w)); simpl; auto.
Qed.

Lemma maintains_os_listdir d : maintains I (os_listdir d) (fun _ => True).
Proof.
  unfold os_listdir. eapply maintains_bind; [apply maintains_fault|].
  intros _ _ w Hw. split; simpl; auto.
Qed.

Lemma maintains_os_path_getmtime p :
  maintains I (os_path_getmtime p) (fun _ => True).
Proof.
  unfold os_path_getmtime. eapply maintains_bind; [apply maintains_fault|].
  intros _ _ w Hw. destruct (lookup p (fs w)); simpl; auto.
Qed.

Lemma maintains_os_makedirs d : maintains I (os_makedirs d) (fun _ => True).
Proof. apply maintains_fault. Qed.

Lemma maintains_sort_keys l :
  Forall touchable l ->
  maintains I (sort_keys os_path_getmtime l)
            (fun kl => Forall (fun kx => touchable (snd kx)) kl).
Proof.
  induction 1 as [|x r Hx Hr IH]; simpl.
  - now apply maintains_ret.
  - eapply maintains_bind; [apply maintains_os_path_getmtime|]. intros k _.
    eapply maintains_bind; [apply IH|]. intros kr Hkr.
    apply maintains_ret. constructor; auto.
Qed.

Lemma Forall_insert_sorted (P : Z * path -> Prop) x l :
  P x -> Forall P l -> Forall P (insert_sorted x l).
Proof.
  intros Hx Hl. induction Hl as [|y r Hy Hr IH]; simpl.
  - auto.
  - destruct (fst x <=? fst y); auto.
Qed.

Lemma Forall_sorted (P : Z * path -> Prop) l : Forall P l -> Forall P (sorted l).
Proof.
  induction 1; simpl; auto using Forall_insert_sorted.
Qed.

Lemma maintains_sort_by_mtime l :
  Forall touchable l ->
  maintains I (sort_by_mtime l) (Forall touchable).
Proof.
  intros H. unfold sort_by_mtime.
  eapply maintains_bind; [apply maintains_sort_keys, H|].
  intros kl Hkl. apply maintains_ret.
  apply Forall_sorted in Hkl. rewrite Forall_map. exact Hkl.
Qed.

Lemma maintains_prune n l :
  Forall touchable l -> maintains I (prune n l) (fun _ => True).
Proof.
  induction 1 as [|b r Hb Hr IH]; simpl.
  - destruct (_ >? _); [apply maintains_raise | now apply maintains_ret].
  - destruct (_ >? _); [|now apply maintains_ret].
    eapply maintains_bind; [apply maintains_os_remove, Hb|]. intros; apply IH.
Qed.

Variable self : BackupManager.t.
Hypothesis touchable_bak :
  forall f, endswith f ".bak" = true -> touchable (join (backup_dir self) f).

Lemma maintains_cleanup_old_backups :
  maintains I (_cleanup_old_backups self) (fun _ => True).
Proof.
  unfold _cleanup_old_backups. apply maintains_try.
  - eapply maintains_bind; [apply maintains_os_listdir|]. intros names _.
    eapply maintains_bind; [apply maintains_sort_by_mtime|].
    + rewrite Forall_map, Forall_forall. intros f Hf.
      apply filter_In in Hf. now apply touchable_bak.
    + intros l Hl. now apply maintains_prune.
  - intros e h. apply maintains_except_Exception. intros. apply maintains_print.
Qed.

Lemma backup_filename_is_bak ts :
  endswith (basename (backup_filename self ts)) ".bak" = true.
Proof.
  unfold backup_filename, join. cbn [basename].
  rewrite <- !append_assoc_string. apply endswith_append.
Qed.

Lemma maintains_create_backup :
  maintains I (_create_backup self) (fun _ => True).
Proof.
  unfold _create_backup.
  eapply maintains_bind; [apply maintains_os_path_exists|]. intros b _.
  apply maintains_if; [now apply maintains_ret|].
  eapply maintains_bind; [apply maintains_datetime_now_strftime|]. intros ts _.
  apply maintains_try.
  - eapply maintains_bind; [|intros; apply maintains_cleanup_old_backups].
    apply maintains_shutil_copy2.
    apply (touchable_bak _ (backup_filename_is_bak ts)).
  - intros e h. apply maintains_except_Exception. intros. apply maintains_print.
Qed.

Hypothesis touchable_base : touchable (base_filename self).
Hypothesis touchable_temp : touchable (temp_filename self).

Lemma maintains_save_data data :
  maintains I (save_data self data) (fun _ => True).
Proof.
  unfold save_data. apply maintains_try.
  - eapply maintains_bind; [now apply maintains_open_w|]. intros _ _.
    eapply maintains_bind; [now apply maintains_json_dump|]. intros _ _.
    eapply maintains_bind.
    { eapply maintains_bind; [apply maintains_os_path_exists|]. intros b _.
      apply maintains_if; [apply maintains_create_backup | now apply maintains_ret]. }
    intros _ _.
    eapply maintains_bind.
    { eapply maintains_bind; [apply maintains_os_path_exists|]. intros b _.
      apply maintains_if; [now apply maintains_os_remove | now apply maintains_ret]. }
    intros _ _. now apply maintains_os_rename.
  - intros e h. apply maintains_except_Exception. clear e h. intros e.
    eapply maintains_bind; [apply maintains_print|]. intros _ _.
    eapply maintains_bind; [apply maintains_os_path_exists|]. intros b _.
    apply maintains_if; [|now apply maintains_ret].
    apply maintains_try; [now apply maintains_os_remove|].
    intros e' h. apply maintains_except_any. now apply maintains_ret.
Qed.

End StoreInvariant.

(* ================================================================== *)
(** * A save that ends without a report has committed *)
(* ================================================================== *)

Section StoreCommits.

Import BackupManager.

Lemma tmp_is_not_bak (b : string) : endswith (b ++ ".tmp") ".bak" = false.
Proof.
  induction b as [|c b IH]; [reflexivity|].
  rewrite endswith_unfold. cbn [append].
  replace (String.eqb (String c (b ++ ".tmp")) ".bak") with false; [exact IH|].
  symmetry. apply String.eqb_neq. intros E.
  apply (f_equal String.length) in E. simpl in E.
  rewrite length_append_string in E. simpl in E. lia.
Qed.

Variable self : BackupManager.t.

Local Abbreviation save_steps := (save_steps self).

Lemma bak_is_not_temp f :
  endswith f ".bak" = true -> path_eqb (join (backup_dir self) f) (temp_filename self) = false.
Proof.
  intros H. apply path_eqb_neq. intros E. apply (f_equal basename) in E.
  simpl in E. subst f. now rewrite tmp_is_not_bak in H.
Qed.

(** the temporary file is left alone by the backup step *)
Lemma create_backup_keeps_temp v :
  maintains (fun w => lookup (temp_filename self) (fs w) = v)
            (_create_backup self) (fun _ => True).
Proof.
  apply maintains_create_backup
    with (touchable := fun q => path_eqb q (temp_filename self) = false).
  - auto.
  - auto.
  - intros w q f T H. simpl. now rewrite lookup_store_neq.
  - intros w q T H. simpl. now rewrite lookup_delete_neq.
  - apply bak_is_not_temp.
Qed.

Lemma open_w_now p w w1 : open_w p w = (Ret tt, w1) -> now w1 = now w.
Proof.
  unfold open_w, bind, fault. destruct (faults w) as [|[] l]; intros E;
    inversion E; reflexivity.
Qed.

Lemma json_dump_done d p w w1 :
  json_dump d p w = (Ret tt, w1) ->
  lookup p (fs w1) = Some {| data := Json d; mtime := now w |}.
Proof.
  unfold json_dump, bind, try_, fault. destruct (faults w) as [|[] l]; simpl;
    intros E; inversion E; simpl; apply lookup_store_eq.
Qed.

Lemma os_rename_done p q w w1 f :
  os_rename p q w = (Ret tt, w1) -> lookup p (fs w) = Some f ->
  lookup q (fs w1) = Some f.
Proof.
  unfold os_rename, bind, fault. intros E H.
  destruct (faults w) as [|[] l]; simpl in E; try discriminate;
    rewrite H in E; inversion E; simpl; apply lookup_store_eq.
Qed.

Lemma os_remove_other p q w :
  path_eqb p q = false ->
  lookup q (fs (snd (os_remove p w))) = lookup q (fs w).
Proof.
  intros N. unfold os_remove, bind, fault.
  destruct (faults w) as [|[] l]; simpl; auto;
    destruct (lookup p (fs w)); simpl; auto using lookup_delete_neq.
Qed.

Lemma save_steps_commit data w w' :
  save_steps data w = (Ret tt, w') ->
  lookup (base_filename self) (fs w') = Some {| data := Json data; mtime := now w |}.
Proof.
  unfold save_steps. unfold bind at 1.
  destruct (open_w (temp_filename self) w) as [[[]|e|] w1] eqn:E1; try discriminate.
  apply open_w_now in E1. unfold bind at 1.
  destruct (json_dump data (temp_filename self) w1) as [[[]|e|] w2] eqn:E2;
    try discriminate.
  apply json_dump_done in E2. rewrite E1 in E2. unfold bind at 1.
  set (B := (b <- os_path_exists (base_filename self) ;;
             if b then _create_backup self else ret tt)).
  assert (HB : lookup (temp_filename self) (fs (snd (B w2)))
               = Some {| data := Json data; mtime := now w |}).
  { unfold B, bind, os_path_exists. cbn.
    destruct (lookup (base_filename self) (fs w2)); [|exact E2].
    now apply create_backup_keeps_temp. }
  destruct (B w2) as [[[]|e|] w3]; try discriminate. simpl in HB.
  unfold bind at 1.
  set (R := (b <- os_path_exists (base_filename self) ;;
             if b then os_remove (base_filename self) else ret tt)).
  assert (HR : lookup (temp_filename self) (fs (snd (R w3)))
               = Some {| data := Json data; mtime := now w |}).
  { unfold R, bind, os_path_exists. cbn.
    destruct (lookup (base_filename self) (fs w3)); [|exact HB].
    rewrite os_remove_other; auto using base_is_not_temp. }
  destruct (R w3) as [[[]|e|] w4]; try discriminate. simpl in HR.
  intros E. eapply os_rename_done; eauto.
Qed.

(** what [save_data] does with the outcome of its steps *)
Lemma save_data_cases data w :
  (exists w', save_steps data w = (Ret tt, w') /\ save_data self data w = (Ret tt, w'))
  \/ (exists e w1 w', save_steps data w = (Raise e, w1)
        /\ save_data self data w = (Ret tt, w')
        /\ stdout w' = (stdout w1 ++ [("Oops! Had trouble saving data: " ++ exn_str e)%string])%list
        /\ lookup (base_filename self) (fs w') = lookup (base_filename self) (fs w1)).
Proof.
  assert (T : tame (save_steps data)).
  { unfold save_steps.
    apply tame_bind; [auto with py | intros _].
    apply tame_bind; [auto with py | intros _].
    apply tame_bind; [| intros _].
    { apply tame_bind; [auto with py | intros [|]]; auto with py.
      apply returns_tame, returns_create_backup. }
    apply tame_bind; [| intros _; auto with py].
    apply tame_bind; [auto with py | intros [|]]; auto with py. }
  specialize (T w). unfold save_data. fold (save_steps data). unfold try_.
  destruct (save_steps data w) as [[[]|e|] w1]; simpl in T.
  - left. now exists w1.
  - right. exists e, w1. unfold except_Exception. rewrite T.
    unfold bind, print, os_path_exists. cbn.
    destruct (lookup (temp_filename self) (fs w1)) eqn:L; cbn.
    + unfold try_, os_remove, bind, fault, except_any, ret. cbn.
      destruct (faults w1) as [|[] l]; cbn; rewrite ?L; cbn;
        eexists; repeat split; cbn [fs set_fs set_faults];
        rewrite ?lookup_delete_neq; auto using temp_is_not_base.
    + eexists; repeat split.
  - contradiction.
Qed.

End StoreCommits.

(** C10: [save_data] never raises: whatever the document, the files and the
    failures to come, the call returns [None].  A failure of a step is caught
    inside and printed: either the target now holds the document, or a line
    "Oops! Had trouble saving data: ..." is on the console. *)
Theorem save_data_never_raises (self : BackupManager.t) (data : Document) (w : world) :
  exists w',
    BackupManager.save_data self data w = (Ret tt, w')
    /\ (lookup (BackupManager.base_filename self) (fs w')
          = Some {| data := Json data; mtime := now w |}
        \/ exists e, In ("Oops! Had trouble saving data: " ++ exn_str e) (stdout w')).
Proof.
  destruct (save_data_cases self data w)
    as [(w' & E & ->) | (e & w1 & w' & E & -> & Hout & _)].
  - exists w'. split; [reflexivity|]. left. eapply save_steps_commit; eauto.
  - exists w'. split; [reflexivity|]. right. exists e. rewrite Hout.
    apply in_or_app. right. now left.
Qed.

(* ================================================================== *)
(** * Failures inside a save *)
(* ================================================================== *)

Section StoreFailures.

Import BackupManager.

Variable self : BackupManager.t.
Variable doc : Document.

Ltac run :=
  cbv beta iota zeta delta
    [save_data _create_backup try_ bind open_w json_dump os_path_exists
     os_remove os_rename shutil_copy2 datetime_now_strftime fault print
     except_Exception except_any ret raise negb];
  cbn [fs now faults remote stdout set_fs set_faults fst snd is_Exception hd].

Ltac reported := apply in_or_app; right; now left.

(** [open] of the temporary file fails *)
Lemma save_data_open_fails w l :
  faults w = true :: l ->
  exists w',
    save_data self doc w = (Ret tt, w')
    /\ lookup (base_filename self) (fs w') = lookup (base_filename self) (fs w)
    /\ In ("Oops! Had trouble saving data: cannot open " ++ path_str (temp_filename self))
          (stdout w')
    /\ (hd false l = false -> lookup (temp_filename self) (fs w') = None).
Proof.
  intros F. run. rewrite F. run.
  destruct (lookup (temp_filename self) (fs w)) eqn:L.
  - destruct l as [|[] l']; run; rewrite ?L;
      (eexists; split; [reflexivity|]); run;
      rewrite ?lookup_delete_neq, ?lookup_delete_eq by apply temp_is_not_base;
      (split; [reflexivity|]); (split; [reported|]);
      intros; congruence.
  - eexists; split; [reflexivity|]. run. split; [reflexivity|].
    split; [reported|]. now intros.
Qed.

(** [json.dump] into the temporary file fails *)
Lemma save_data_dump_fails w l :
  faults w = false :: true :: l ->
  exists w',
    save_data self doc w = (Ret tt, w')
    /\ lookup (base_filename self) (fs w') = lookup (base_filename self) (fs w)
    /\ In ("Oops! Had trouble saving data: cannot write " ++ path_str (temp_filename self))
          (stdout w')
    /\ (hd false l = false -> lookup (temp_filename self) (fs w') = None).
Proof.
  intros F. run. rewrite F. run. rewrite !lookup_store_eq.
  destruct l as [|[] l']; run; rewrite ?lookup_store_eq;
    (eexists; split; [reflexivity|]); run;
    rewrite ?lookup_delete_neq, ?lookup_delete_eq, ?lookup_store_neq
      by apply temp_is_not_base;
    (split; [reflexivity|]); (split; [reported|]);
    intros; congruence.
Qed.

(** the copy to the backup directory fails and nothing fails after it *)
Lemma save_data_backup_fails w f :
  faults w = [false; false; true] ->
  lookup (base_filename self) (fs w) = Some f ->
  exists w',
    save_data self doc w = (Ret tt, w')
    /\ In ("Couldn't create backup right now: cannot copy " ++ path_str (base_filename self))
          (stdout w')
    /\ lookup (base_filename self) (fs w') = Some {| data := Json doc; mtime := now w |}
    /\ lookup (temp_filename self) (fs w') = None.
Proof.
  intros F B. run. rewrite F. run.
  repeat (progress (rewrite ?lookup_store_neq, ?B by apply temp_is_not_base); run).
  rewrite lookup_delete_neq, !lookup_store_eq by apply base_is_not_temp.
  eexists; split; [reflexivity|]. run.
  split; [reported|].
  rewrite lookup_store_eq. split; [reflexivity|].
  rewrite lookup_store_neq by apply base_is_not_temp. apply lookup_delete_eq.
Qed.

End StoreFailures.

(** C4, as amended.  When writing the temporary file fails ([open] or
    [json.dump] raises), [save_data] reports it, leaves the target file as it
    was, and removes the temporary file unless that removal fails too.  When
    the copy into the backup directory fails, that is reported and the save
    goes on: with no later failure the target is replaced by the new document
    and the temporary file is gone. *)
Theorem save_failure_handling (self : BackupManager.t) (doc : Document) (w : world) :
  (forall l,
     faults w = true :: l \/ faults w = false :: true :: l ->
     exists w',
       BackupManager.save_data self doc w = (Ret tt, w')
       /\ lookup (BackupManager.base_filename self) (fs w')
          = lookup (BackupManager.base_filename self) (fs w)
       /\ (exists e, In ("Oops! Had trouble saving data: " ++ exn_str e) (stdout w'))
       /\ (hd false l = false ->
           lookup (BackupManager.temp_filename self) (fs w') = None))
  /\ (forall f,
        faults w = [false; false; true] ->
        lookup (BackupManager.base_filename self) (fs w) = Some f ->
        exists w',
          BackupManager.save_data self doc w = (Ret tt, w')
          /\ (exists e, In ("Couldn't create backup right now: " ++ exn_str e) (stdout w'))
          /\ lookup (BackupManager.base_filename self) (fs w')
             = Some {| data := Json doc; mtime := now w |}
          /\ lookup (BackupManager.temp_filename self) (fs w') = None).
Proof.
  split.
  - intros l [F|F].
    + destruct (save_data_open_fails self doc w l F) as (w' & E & T & R & P).
      exists w'. repeat split; auto.
      now exists (OSError ("cannot open " ++ path_str (BackupManager.temp_filename self))).
    + destruct (save_data_dump_fails self doc w l F) as (w' & E & T & R & P).
      exists w'. repeat split; auto.
      now exists (OSError ("cannot write " ++ path_str (BackupManager.temp_filename self))).
  - intros f F B.
    destruct (save_data_backup_fails self doc w f F B) as (w' & E & R & T & P).
    exists w'. repeat split; auto.
    now exists (OSError ("cannot copy " ++ path_str (BackupManager.base_filename self))).
Qed.

Lemma save_failure_handling_witness :
  (exists w',
     BackupManager.save_data store2 (growing 2)
       (committed_disk store2 (growing 1) 5000 [true]) = (Ret tt, w')
     /\ lookup (BackupManager.base_filename store2) (fs w')
        = lookup (BackupManager.base_filename store2)
                 (fs (committed_disk store2 (growing 1) 5000 [true]))
     /\ (exists e, In ("Oops! Had trouble saving data: " ++ exn_str e) (stdout w'))
     /\ (hd false [] = false ->
         lookup (BackupManager.temp_filename store2) (fs w') = None))
  /\ (exists w',
        BackupManager.save_data store2 (growing 2)
          (committed_disk store2 (growing 1) 5000 [false; false; true]) = (Ret tt, w')
        /\ (exists e, In ("Couldn't create backup right now: " ++ exn_str e) (stdout w'))
        /\ lookup (BackupManager.base_filename store2) (fs w')
           = Some {| data := Json (growing 2); mtime := 5000 |}
        /\ lookup (BackupManager.temp_filename store2) (fs w') = None).
Proof.
  split.
  - apply (proj1 (save_failure_handling store2 (growing 2)
                    (committed_disk store2 (growing 1) 5000 [true])) []).
    left. reflexivity.
  - apply (proj2 (save_failure_handling store2 (growing 2)
                    (committed_disk store2 (growing 1) 5000 [false; false; true]))
                 {| data := Json (growing 1); mtime := 4000 |}); reflexivity.
Defined.

(** C4, as stated, fails for a failure during backup creation: the copy
    fails and is reported, and the target file is replaced all the same. *)
Lemma backup_failure_replaces_target :
  let w := committed_disk store2 (growing 1) 5000 [false; false; true] in
  let w' := snd (BackupManager.save_data store2 (growing 2) w) in
  In "Couldn't create backup right now: cannot copy datasets/conversation.json" (stdout w')
  /\ option_map data (lookup (BackupManager.base_filename store2) (fs w))
     = Some (Json (growing 1))
  /\ option_map data (lookup (BackupManager.base_filename store2) (fs w'))
     = Some (Json (growing 2))
  /\ lookup (BackupManager.base_filename store2) (fs w')
     <> lookup (BackupManager.base_filename store2) (fs w).
Proof.
  vm_compute. repeat split; auto. discriminate.
Qed.

(* ================================================================== *)
(** * Pruning the backups *)
(* ================================================================== *)

Section Sorting.

Import BackupManager.

Lemma insert_sorted_perm x l : Permutation (insert_sorted x l) (x :: l).
Proof.
  induction l as [|y r IH]; simpl; auto.
  destruct (fst x <=? fst y); auto.
  rewrite IH. apply perm_swap.
Qed.

Lemma sorted_perm l : Permutation (sorted l) l.
Proof.
  induction l as [|x r IH]; simpl; auto.
  rewrite insert_sorted_perm. now constructor.
Qed.

Lemma insert_sorted_sorted x l :
  StronglySorted by_key l -> StronglySorted by_key (insert_sorted x l).
Proof.
  induction 1 as [|y r Hr IH Hy]; simpl.
  - repeat constructor.
  - destruct (fst x <=? fst y) eqn:E.
    + constructor; [now constructor|].
      constructor; [unfold by_key; lia|].
      eapply Forall_impl; [|exact Hy]. unfold by_key. intros; lia.
    + constructor; auto.
      eapply Permutation_Forall; [symmetry; apply insert_sorted_perm|].
      constructor; auto. unfold by_key. lia.
Qed.

Lemma sorted_sorted l : StronglySorted by_key (sorted l).
Proof.
  induction l; simpl; [constructor | now apply insert_sorted_sorted].
Qed.

End Sorting.

Section Tables.

Variable self : BackupManager.t.

Lemma lookup_in_keys p l : In p (keys l) -> exists f, lookup p l = Some f.
Proof.
  induction l as [|[q g] r IH]; simpl; [easy|].
  intros [->|H].
  - rewrite path_eqb_refl. eauto.
  - destruct (path_eqb q p); eauto.
Qed.

Lemma lookup_not_in_keys p l : ~ In p (keys l) -> lookup p l = None.
Proof.
  induction l as [|[q g] r IH]; simpl; [easy|].
  intros H. destruct (path_eqb q p) eqn:E.
  - apply path_eqb_eq in E. subst. tauto.
  - apply IH. tauto.
Qed.

Lemma delete_not_in p l : ~ In p (keys l) -> delete p l = l.
Proof.
  induction l as [|[q g] r IH]; simpl; [easy|].
  intros H. destruct (path_eqb q p) eqn:E.
  - apply path_eqb_eq in E. subst. tauto.
  - f_equal. apply IH. tauto.
Qed.

Lemma keys_delete_incl p q l : In q (keys (delete p l)) -> In q (keys l).
Proof.
  induction l as [|[x g] r IH]; simpl; [easy|].
  destruct (path_eqb x p); simpl; tauto.
Qed.

Lemma keys_delete_in p q l : q <> p -> In q (keys l) -> In q (keys (delete p l)).
Proof.
  intros N. induction l as [|[x g] r IH]; simpl; [easy|].
  destruct (path_eqb x p) eqn:E; simpl.
  - apply path_eqb_eq in E. subst x. intros [->|H]; [easy | auto].
  - tauto.
Qed.

Lemma NoDup_keys_delete p l : NoDup (keys l) -> NoDup (keys (delete p l)).
Proof.
  induction l as [|[x g] r IH]; simpl; [easy|].
  intros H. inversion H; subst.
  destruct (path_eqb x p); simpl; auto.
  constructor; auto. intros C. now apply keys_delete_incl in C.
Qed.

Lemma keys_store_incl p f q l : In q (keys (store p f l)) -> q = p \/ In q (keys l).
Proof.
  induction l as [|[x g] r IH]; simpl.
  - intros [<-|[]]. now left.
  - destruct (path_eqb x p) eqn:E; simpl.
    + intros [<-|H]; auto.
    + intros [<-|H]; auto. destruct (IH H); auto.
Qed.

Lemma NoDup_keys_store p f l : NoDup (keys l) -> NoDup (keys (store p f l)).
Proof.
  induction l as [|[x g] r IH]; simpl.
  - repeat constructor. easy.
  - intros H. inversion H; subst.
    destruct (path_eqb x p) eqn:E; simpl.
    + apply path_eqb_eq in E. subst x. now constructor.
    + constructor; auto. intros C. apply keys_store_incl in C.
      destruct C as [->|C]; [|easy]. now rewrite path_eqb_refl in E.
Qed.

Lemma NoDup_backup_paths l : NoDup (keys l) -> NoDup (backup_paths self l).
Proof.
  unfold backup_paths, backup_files.
  induction l as [|[x g] r IH]; simpl; [constructor|].
  intros H. inversion H; subst.
  destruct (_ && _); simpl; auto.
  constructor; auto. intros C. apply H2.
  unfold keys in *. apply in_map_iff in C. destruct C as (e & <- & He).
  apply in_map. now apply filter_In in He.
Qed.

Lemma backup_paths_in_keys p l : In p (backup_paths self l) -> In p (keys l).
Proof.
  unfold backup_paths, backup_files, keys. intros C.
  apply in_map_iff in C. destruct C as (e & <- & He).
  apply in_map. now apply filter_In in He.
Qed.

(** removing a backup makes the backups one fewer *)
Lemma backup_paths_delete_in p l :
  NoDup (keys l) -> In p (backup_paths self l) ->
  S (length (backup_paths self (delete p l))) = length (backup_paths self l)
  /\ (forall q, q <> p -> In q (backup_paths self l) ->
                In q (backup_paths self (delete p l))).
Proof.
  unfold backup_paths, backup_files.
  induction l as [|[x g] r IH]; simpl; [easy|].
  intros H Hp. inversion H; subst.
  destruct (path_eqb x p) eqn:E.
  - apply path_eqb_eq in E. subst x.
    rewrite delete_not_in by assumption.
    destruct (_ && _) eqn:B; simpl in *.
    + split; auto. intros q N [->|Hq]; [easy | auto].
    + exfalso. apply H2. now apply backup_paths_in_keys.
  - assert (N : x <> p) by now apply path_eqb_neq.
    simpl. destruct (_ && _) eqn:B; simpl in *.
    + destruct Hp as [->|Hp]; [easy|]. destruct (IH H3 Hp) as [L K].
      split; [now rewrite L|]. intros q Nq [->|Hq]; auto.
    + destruct (IH H3 Hp) as [L K]. split; auto.
Qed.

Lemma backup_paths_delete_all ps l :
  NoDup (keys l) -> NoDup ps -> incl ps (backup_paths self l) ->
  (length (backup_paths self (delete_all ps l)) + length ps
   = length (backup_paths self l))%nat.
Proof.
  revert l.
  induction ps as [|p ps IH]; intros l Hl Hps Hin; [simpl; lia|].
  inversion Hps; subst.
  destruct (backup_paths_delete_in p l Hl (Hin p (or_introl eq_refl))) as [L K].
  assert (E : (length (backup_paths self (delete_all ps (delete p l))) + length ps
               = length (backup_paths self (delete p l)))%nat).
  { apply IH; auto using NoDup_keys_delete.
    intros q Hq. apply K; [|apply Hin; now right]. intros ->. easy. }
  change (delete_all (p :: ps) l) with (delete_all ps (delete p l)).
  cbn [length]. lia.
Qed.

(** files outside the backup directory do not count *)
Lemma backup_files_delete_outside p l :
  String.eqb (dirname p) (BackupManager.backup_dir self) = false ->
  backup_files self (delete p l) = backup_files self l.
Proof.
  intros N. unfold backup_files.
  induction l as [|[x g] r IH]; simpl; [easy|].
  destruct (path_eqb x p) eqn:E; simpl.
  - apply path_eqb_eq in E. subst x. now rewrite N.
  - now rewrite IH.
Qed.

Lemma backup_files_store_outside p f l :
  String.eqb (dirname p) (BackupManager.backup_dir self) = false ->
  backup_files self (store p f l) = backup_files self l.
Proof.
  intros N. unfold backup_files.
  induction l as [|[x g] r IH]; simpl.
  - now rewrite N.
  - destruct (path_eqb x p) eqn:E; simpl.
    + apply path_eqb_eq in E. subst x. now rewrite N.
    + now rewrite IH.
Qed.

(** what the listing of [_cleanup_old_backups] comes to *)
Lemma listing_is_backup_paths l :
  map (join (BackupManager.backup_dir self))
      (filter (fun f => endswith f ".bak")
              (map (fun e => basename (fst e))
                   (filter (fun e => String.eqb (dirname (fst e))
                                                (BackupManager.backup_dir self)) l)))
  = backup_paths self l.
Proof.
  unfold backup_paths, backup_files, keys.
  induction l as [|[[d b] g] r IH]; simpl; [easy|].
  destruct (String.eqb d (BackupManager.backup_dir self)) eqn:E; simpl; auto.
  destruct (endswith b ".bak"); simpl; auto.
  apply String.eqb_eq in E. subst d. now rewrite IH.
Qed.

End Tables.

Section PruneQuiet.

Import BackupManager.

Variable self : BackupManager.t.

Lemma oldest_first_perm l : Permutation (oldest_first self l) (backup_paths self l).
Proof.
  unfold oldest_first.
  rewrite (Permutation_map snd (sorted_perm _)), map_map. simpl.
  now rewrite map_id.
Qed.

Lemma oldest_first_ascending l :
  StronglySorted (fun p q => mtime_in l p <= mtime_in l q) (oldest_first self l).
Proof.
  unfold oldest_first.
  set (kl := map (fun p => (mtime_in l p, p)) (backup_paths self l)).
  assert (K : Forall (fun kx => fst kx = mtime_in l (snd kx)) (sorted kl)).
  { eapply Permutation_Forall; [symmetry; apply sorted_perm|].
    unfold kl. rewrite Forall_map. apply Forall_forall. now intros. }
  pose proof (sorted_sorted kl) as Hs.
  induction Hs as [|a r Hr IH Ha]; simpl; constructor.
  - apply IH. now inversion K.
  - inversion K; subst. rewrite Forall_map.
    rewrite Forall_forall in *. intros x Hx.
    specialize (Ha x Hx). unfold by_key in Ha. rewrite <- H1, <- (H2 x Hx). exact Ha.
Qed.

Lemma sort_keys_quiet l w :
  faults w = [] -> incl l (keys (fs w)) ->
  sort_keys os_path_getmtime l w = (Ret (map (fun p => (mtime_in (fs w) p, p)) l), w).
Proof.
  intros Q. induction l as [|p r IH]; intros H; simpl; [reflexivity|].
  destruct (lookup_in_keys p (fs w) (H p (or_introl eq_refl))) as [f Hf].
  unfold bind. rewrite (os_path_getmtime_quiet w Q p f Hf).
  rewrite IH by (intros q Hq; apply H; now right).
  unfold ret, mtime_in. now rewrite Hf.
Qed.

Lemma prune_quiet m l w :
  faults w = [] -> NoDup l -> incl l (keys (fs w)) -> 0 <= m ->
  exists w',
    prune m l w = (Ret tt, w')
    /\ fs w' = delete_all (firstn (length l - Z.to_nat m) l) (fs w)
    /\ faults w' = [].
Proof.
  intros Q N H M. revert w Q H.
  induction N as [|b r Hb Hr IH]; intros w Q H.
  - simpl. destruct (Z.gtb_spec 0 m) as [E|E]; [lia|]. exists w.
    split; [reflexivity|]. split; [|assumption]. reflexivity.
  - change (prune m (b :: r))
      with (if Z.of_nat (length (b :: r)) >? m
            then os_remove b ;; prune m r else ret tt).
    destruct (Z.gtb_spec (Z.of_nat (length (b :: r))) m) as [E|E];
      cbn [length] in *.
    + destruct (lookup_in_keys b (fs w) (H b (or_introl eq_refl))) as [f Hf].
      unfold bind. rewrite (os_remove_quiet w Q b f Hf).
      destruct (IH (set_fs (delete b) w)) as (w' & E1 & E2 & E3); auto.
      { intros q Hq. simpl. apply keys_delete_in; [|apply H; now right].
        intros ->. easy. }
      exists w'. rewrite E1, E2. split; [reflexivity|]. split; [|assumption].
      replace (S (length r) - Z.to_nat m)%nat with (S (length r - Z.to_nat m)) by lia.
      reflexivity.
    + exists w. replace (S (length r) - Z.to_nat m)%nat with 0%nat by lia.
      now repeat split.
Qed.

(** the pruning step when no call fails *)
Lemma cleanup_old_backups_quiet w :
  NoDup (keys (fs w)) -> faults w = [] -> 0 <= max_backups self ->
  exists w',
    _cleanup_old_backups self w = (Ret tt, w')
    /\ fs w' = delete_all
                 (firstn (length (backup_paths self (fs w)) - Z.to_nat (max_backups self))
                         (oldest_first self (fs w)))
                 (fs w)
    /\ faults w' = []
    /\ Z.of_nat (length (backup_paths self (fs w')))
       = Z.min (Z.of_nat (length (backup_paths self (fs w)))) (max_backups self).
Proof.
  intros N Q M.
  assert (P := oldest_first_perm (fs w)).
  assert (L : length (oldest_first self (fs w)) = length (backup_paths self (fs w)))
    by now apply Permutation_length.
  assert (ND : NoDup (oldest_first self (fs w))).
  { eapply Permutation_NoDup; [symmetry; exact P|]. now apply NoDup_backup_paths. }
  assert (IN : incl (oldest_first self (fs w)) (backup_paths self (fs w))).
  { intros p Hp. eapply Permutation_in; eauto. }
  destruct (prune_quiet (max_backups self) (oldest_first self (fs w)) w)
    as (w' & E1 & E2 & E3); auto.
  { intros p Hp. eapply backup_paths_in_keys, IN, Hp. }
  exists w'. unfold _cleanup_old_backups, try_, bind.
  rewrite (os_listdir_quiet w Q), listing_is_backup_paths.
  unfold sort_by_mtime, bind.
  rewrite sort_keys_quiet by (auto; intros p Hp; eapply backup_paths_in_keys, Hp).
  unfold ret. fold (oldest_first self (fs w)). rewrite E1.
  rewrite L in E2. repeat split; auto.
  rewrite E2.
  set (k := (length (backup_paths self (fs w)) - Z.to_nat (max_backups self))%nat).
  assert (C := backup_paths_delete_all self (firstn k (oldest_first self (fs w))) (fs w) N).
  rewrite length_firstn, L in C.
  assert (C' : (length (backup_paths self
                   (delete_all (firstn k (oldest_first self (fs w))) (fs w)))
                + Nat.min k (length (backup_paths self (fs w)))
                = length (backup_paths self (fs w)))%nat).
  { apply C.
    - rewrite <- (firstn_skipn k) in ND. now apply NoDup_app_remove_r in ND.
    - intros p Hp. apply IN. rewrite <- (firstn_skipn k). apply in_or_app. now left. }
  unfold k in *. lia.
Qed.

End PruneQuiet.

Section SaveQuiet.

Import BackupManager.

Variable self : BackupManager.t.
Hypothesis self_built : backup_dir self = backup_dir_of (base_filename self).

(** the target and its temporary file are not in the backup directory *)
Lemma base_outside_backup_dir :
  String.eqb (dirname (base_filename self)) (backup_dir self) = false.
Proof.
  apply String.eqb_neq. rewrite self_built. unfold backup_dir_of, path_str, join.
  cbn [dirname basename].
  destruct (String.eqb_spec (dirname (base_filename self)) "") as [->|N].
  - discriminate.
  - intros E. symmetry in E. revert E. apply append_nonempty_neq. simpl. lia.
Qed.

Lemma bak_is_not_base f : path_eqb (join (backup_dir self) f) (base_filename self) = false.
Proof.
  apply path_eqb_neq. intros E. apply (f_equal dirname) in E. simpl in E.
  pose proof base_outside_backup_dir as N. apply String.eqb_neq in N. congruence.
Qed.

Lemma cleanup_keeps_base v :
  maintains (fun w => lookup (base_filename self) (fs w) = v)
            (_cleanup_old_backups self) (fun _ => True).
Proof.
  apply maintains_cleanup_old_backups
    with (touchable := fun q => path_eqb q (base_filename self) = false).
  - auto.
  - auto.
  - intros w q T H. simpl. now rewrite lookup_delete_neq.
  - intros f _. apply bak_is_not_base.
Qed.

Lemma cleanup_keeps_temp v :
  maintains (fun w => lookup (temp_filename self) (fs w) = v)
            (_cleanup_old_backups self) (fun _ => True).
Proof.
  apply maintains_cleanup_old_backups
    with (touchable := fun q => path_eqb q (temp_filename self) = false).
  - auto.
  - auto.
  - intros w q T H. simpl. now rewrite lookup_delete_neq.
  - apply bak_is_not_temp.
Qed.

(** a save over an existing target when no call fails: the backups end up
    within the bound *)
Lemma save_data_quiet doc w f :
  NoDup (keys (fs w)) -> faults w = [] -> 0 <= max_backups self ->
  lookup (base_filename self) (fs w) = Some f ->
  exists w',
    save_data self doc w = (Ret tt, w')
    /\ Z.of_nat (length (backup_paths self (fs w'))) <= max_backups self
    /\ lookup (base_filename self) (fs w') = Some {| data := Json doc; mtime := now w |}
    /\ faults w' = []
    /\ (let l3 := store (backup_filename self (strftime "%Y%m%d_%H%M%S" (now w))) f
                     (store (temp_filename self) {| data := Json doc; mtime := now w |}
                        (store (temp_filename self) {| data := Blank; mtime := now w |}
                           (fs w))) in
        fs w' = store (base_filename self) {| data := Json doc; mtime := now w |}
                  (delete (temp_filename self)
                     (delete (base_filename self)
                        (delete_all
                           (firstn (length (backup_paths self l3)
                                    - Z.to_nat (max_backups self))
                                   (oldest_first self l3))
                           l3)))).
Proof.
  intros N Q M B.
  set (t1 := {| data := Blank; mtime := now w |}).
  set (t2 := {| data := Json doc; mtime := now w |}).
  set (w2 := set_fs (store (temp_filename self) t2)
                    (set_fs (store (temp_filename self) t1) w)).
  set (bk := backup_filename self (strftime "%Y%m%d_%H%M%S" (now w))).
  set (w3 := set_fs (store bk f) w2).
  assert (B2 : lookup (base_filename self) (fs w2) = Some f).
  { unfold w2. simpl. now rewrite !lookup_store_neq by apply temp_is_not_base. }
  assert (T2 : lookup (temp_filename self) (fs w2) = Some t2).
  { unfold w2. simpl. apply lookup_store_eq. }
  assert (NB : path_eqb bk (base_filename self) = false) by apply bak_is_not_base.
  assert (NT : path_eqb bk (temp_filename self) = false)
    by apply bak_is_not_temp, backup_filename_is_bak.
  destruct (cleanup_old_backups_quiet self w3) as (w4 & E4 & F4 & Q4 & C4); auto.
  { unfold w3, w2. simpl. auto using NoDup_keys_store. }
  assert (B4 : lookup (base_filename self) (fs w4) = Some f).
  { pose proof (cleanup_keeps_base (Some f) w3) as K. rewrite E4 in K.
    apply K. unfold w3. simpl. now rewrite lookup_store_neq. }
  assert (T4 : lookup (temp_filename self) (fs w4) = Some t2).
  { pose proof (cleanup_keeps_temp (Some t2) w3) as K. rewrite E4 in K.
    apply K. unfold w3. simpl. now rewrite lookup_store_neq. }
  set (w5 := set_fs (delete (base_filename self)) w4).
  set (w6 := set_fs (fun l => store (base_filename self) t2
                                    (delete (temp_filename self) l)) w5).
  assert (E1 : open_w (temp_filename self) w
               = (Ret tt, set_fs (store (temp_filename self) t1) w))
    by apply open_w_quiet, Q.
  assert (E2 : json_dump doc (temp_filename self)
                 (set_fs (store (temp_filename self) t1) w) = (Ret tt, w2))
    by (apply json_dump_quiet; exact Q).
  assert (E3 : (b <- os_path_exists (base_filename self) ;;
                if b then _create_backup self else ret tt) w2 = (Ret tt, w4)).
  { unfold bind at 1, os_path_exists at 1. rewrite B2.
    unfold _create_backup. unfold bind at 1, os_path_exists at 1. rewrite B2.
    cbn [negb]. unfold bind at 1, datetime_now_strftime, try_.
    rewrite (bind_ret_eq _ _ _ _ _ (shutil_copy2_quiet w2 Q _ bk f B2)).
    fold w3. now rewrite E4. }
  assert (E5 : (b <- os_path_exists (base_filename self) ;;
                if b then os_remove (base_filename self) else ret tt) w4 = (Ret tt, w5)).
  { unfold bind at 1, os_path_exists at 1. rewrite B4.
    apply (os_remove_quiet w4 Q4 _ f B4). }
  assert (E6 : os_rename (temp_filename self) (base_filename self) w5 = (Ret tt, w6)).
  { apply os_rename_quiet; [exact Q4|]. unfold w5. simpl.
    rewrite lookup_delete_neq by apply base_is_not_temp. exact T4. }
  exists w6. split; [|split; [|split; [|split]]].
  - unfold save_data, try_.
    rewrite (bind_ret_eq _ _ _ _ _ E1), (bind_ret_eq _ _ _ _ _ E2),
      (bind_ret_eq _ _ _ _ _ E3), (bind_ret_eq _ _ _ _ _ E5), E6.
    reflexivity.
  - unfold w6, w5. simpl. unfold backup_paths.
    rewrite backup_files_store_outside, !backup_files_delete_outside
      by apply base_outside_backup_dir.
    fold (backup_paths self (fs w4)). lia.
  - unfold w6. simpl. apply lookup_store_eq.
  - exact Q4.
  - unfold w6, w5. cbn [fs set_fs]. rewrite F4. reflexivity.
Qed.

End SaveQuiet.

(** C3, as amended.  Let no file-system call fail, let [max_backups] be
    non-negative and the table of files be well formed.  Then a save over an
    existing target (one that makes a backup copy) returns with at most
    [max_backups] entries ending in [.bak] in the backup directory.  The
    pruning step removes the first [n - max_backups] entries of the backups
    taken by ascending modification time, [n] being their number, and leaves
    [min n max_backups] of them; that order is a rearrangement of the backups
    in which modification times never decrease. *)
Theorem backups_pruned_oldest_first (self : BackupManager.t) (doc : Document) (w : world) :
  NoDup (keys (fs w)) -> faults w = [] -> 0 <= BackupManager.max_backups self ->
  (forall f,
     BackupManager.backup_dir self
       = BackupManager.backup_dir_of (BackupManager.base_filename self) ->
     lookup (BackupManager.base_filename self) (fs w) = Some f ->
     exists w',
       BackupManager.save_data self doc w = (Ret tt, w')
       /\ Z.of_nat (length (backup_paths self (fs w'))) <= BackupManager.max_backups self)
  /\ (exists w',
        BackupManager._cleanup_old_backups self w = (Ret tt, w')
        /\ fs w' = delete_all
                     (firstn (length (backup_paths self (fs w))
                              - Z.to_nat (BackupManager.max_backups self))
                             (oldest_first self (fs w)))
                     (fs w)
        /\ Z.of_nat (length (backup_paths self (fs w')))
           = Z.min (Z.of_nat (length (backup_paths self (fs w))))
                   (BackupManager.max_backups self))
  /\ Permutation (oldest_first self (fs w)) (backup_paths self (fs w))
  /\ StronglySorted (fun p q => mtime_in (fs w) p <= mtime_in (fs w) q)
                    (oldest_first self (fs w)).
Proof.
  intros N Q M. repeat split.
  - intros f SB B.
    destruct (save_data_quiet self SB doc w f N Q M B) as (w' & E & C & _).
    now exists w'.
  - destruct (cleanup_old_backups_quiet self w N Q M) as (w' & E & F & _ & C).
    now exists w'.
  - apply oldest_first_perm.
  - apply oldest_first_ascending.
Qed.

Lemma crowded_disk_well_formed : NoDup (keys (fs (crowded_disk []))).
Proof.
  repeat constructor; simpl; intuition discriminate.
Defined.

Lemma backups_pruned_oldest_first_witness :
  NoDup (keys (fs (crowded_disk [])))
  /\ faults (crowded_disk []) = []
  /\ 0 <= BackupManager.max_backups store2
  /\ (exists w',
        BackupManager.save_data store2 (growing 5) (crowded_disk []) = (Ret tt, w')
        /\ Z.of_nat (length (backup_paths store2 (fs w'))) <= 2)
  /\ (exists w',
        BackupManager._cleanup_old_backups store2 (crowded_disk []) = (Ret tt, w')
        /\ fs w' = delete_all [join "datasets/backups" "conversation.json.1.bak"]
                              (fs (crowded_disk []))
        /\ Z.of_nat (length (backup_paths store2 (fs w'))) = 2).
Proof.
  split; [exact crowded_disk_well_formed|]. split; [reflexivity|].
  split; [simpl; lia|].
  pose proof (backups_pruned_oldest_first store2 (growing 5) (crowded_disk [])
                crowded_disk_well_formed eq_refl ltac:(simpl; lia)) as (A & B & _).
  split.
  - exact (A _ eq_refl eq_refl).
  - exact B.
Defined.

(** C3, as stated, fails when a removal fails: from a disk with two backups
    and [max_backups = 2] the save makes its backup copy, the pruning step
    stops at the failing removal with a report, and three backups are left. *)
Lemma failed_removal_leaves_backups :
  let w := full_disk [false; false; false; false; false; false; false; true] in
  let w' := snd (BackupManager.save_data store2 (growing 4) w) in
  length (backup_paths store2 (fs w)) = 2%nat
  /\ option_map data (lookup (BackupManager.backup_filename store2 "4") (fs w'))
     = Some (Json (growing 3))
  /\ In "Had a small issue cleaning up old backups: cannot remove datasets/backups/conversation.json.2.bak"
        (stdout w')
  /\ length (backup_paths store2 (fs w')) = 3%nat
  /\ BackupManager.max_backups store2 = 2.
Proof.
  vm_compute. repeat split. now left.
Qed.

(* ================================================================== *)
(** * The ledger *)
(* ================================================================== *)

Section Ledger.

(** [save_conversation] always takes the first branch of its [try]: the call
    to [save_data] returns, the progress line is printed, and the fallback
    write of the [except] clause is never reached *)
Lemma save_conversation_eq s :
  exists w1,
    BackupManager.save_data (backup_manager (self s)) (conversation_data (self s)) (env s)
      = (Ret tt, w1)
    /\ save_conversation s
       = (Ret tt, {| self := self s;
                     env := snd (print (progress_line (conversation_data (self s))) w1) |}).
Proof.
  destruct (returns_save_data (backup_manager (self s)) (conversation_data (self s)) (env s))
    as ([] & w1 & E).
  exists w1. split; [exact E|].
  unfold save_conversation, try_, bind, get, io. cbn. rewrite E. reflexivity.
Qed.

Lemma add_message_pair_eq user_text character_text s :
  add_message_pair user_text character_text s
  = save_conversation (with_pair user_text character_text s).
Proof.
  unfold add_message_pair, bind, io, datetime_now_strftime, set_self, with_pair.
  destruct s as [g w]. reflexivity.
Qed.

End Ledger.

(** C5: a call [add_message_pair(user_text, character_text)] returns, having
    added exactly one pair with the two texts and the current timestamp at
    the end of [conversation_pairs], the pairs before it unchanged and in
    order, and [pair_count] one higher; before it returns, [save_data] has
    been run on the document so extended, from the world of the call. *)
Theorem add_message_pair_appends_and_saves (user_text character_text : string) (s : state) :
  let d := conversation_data (self s) in
  exists s' w1,
    add_message_pair user_text character_text s = (Ret tt, s')
    /\ (let d' := conversation_data (self s') in
        conversation_pairs d'
        = (conversation_pairs d
           ++ [{| user := user_text; character := character_text;
                  timestamp := strftime "%Y-%m-%d %H:%M:%S" (now (env s)) |}])%list
        /\ pair_count (metadata d') = pair_count (metadata d) + 1
        /\ BackupManager.save_data (backup_manager (self s)) d' (env s) = (Ret tt, w1)
        /\ env s' = snd (print (progress_line d') w1)).
Proof.
  intros d. rewrite add_message_pair_eq.
  destruct (save_conversation_eq (with_pair user_text character_text s))
    as (w1 & E1 & E2).
  eexists _, w1. split; [exact E2|]. cbn. repeat split. exact E1.
Qed.

(* ================================================================== *)
(** * What a run keeps true of the document *)
(* ================================================================== *)

Section Frames.

Lemma same_outside_refl w : same_outside w w.
Proof. now repeat split. Qed.

Lemma frame_print msg : frame (print msg).
Proof. intros w. now repeat split. Qed.

Lemma frame_datetime_now_strftime fmt : frame (datetime_now_strftime fmt).
Proof. intros w. now repeat split. Qed.

Lemma frame_open_w p : frame (open_w p).
Proof.
  intros w.
  apply (maintains_open_w (same_outside w) (fun _ => True));
    auto using same_outside_refl.
Qed.

Lemma frame_json_dump d p : frame (json_dump d p).
Proof.
  intros w.
  apply (maintains_json_dump (same_outside w) (fun _ => True));
    auto using same_outside_refl.
Qed.

Lemma frame_save_data self d : frame (BackupManager.save_data self d).
Proof.
  intros w.
  apply (maintains_save_data (same_outside w) (fun _ => True));
    auto using same_outside_refl.
Qed.

End Frames.

(* ================================================================== *)
(** * The fallback write of the ledger *)
(* ================================================================== *)

(** C1 asks for a direct write when [save_data] fails.  Here [open] of the
    temporary file fails once: [save_data] prints its report and returns, so
    [save_conversation] prints the progress line, never enters its [except]
    clause, and returns with the document written nowhere; yet the direct
    write would have gone through. *)
Theorem save_conversation_skips_fallback :
  let s := {| self := sample_generator (growing 1); env := failing_once |} in
  let s' := snd (save_conversation s) in
  fst (save_conversation s) = Ret tt
  /\ stdout (env s')
     = ["Oops! Had trouble saving data: cannot open datasets/conversation.json.tmp";
        "Saved progress: 1 / 50"]
  /\ lookup (output_file (self s)) (fs (env s')) = None
  /\ fst ((open_w (output_file (self s)) ;;
           json_dump (growing 1) (output_file (self s))) (env s')) = Ret tt.
Proof. vm_compute. repeat split. Qed.

(* ================================================================== *)
(** * The store when no call fails, and when the last one does *)
(* ================================================================== *)

Section Associativity.

Context {S : Type}.

Lemma bind_assoc {A B C} (m : M S A) (f : A -> M S B) (g : B -> M S C) s :
  bind (bind m f) g s = bind m (fun x => bind (f x) g) s.
Proof. unfold bind. now destruct (m s) as [[a|e|] s']. Qed.

Lemma bind_ext {A B} (m : M S A) (f g : A -> M S B) s :
  (forall a s', f a s' = g a s') -> bind m f s = bind m g s.
Proof. intros E. unfold bind. destruct (m s) as [[a|e|] s']; auto. Qed.

Lemma try_ext {A} (body body' : M S A) handler s :
  body s = body' s -> try_ body handler s = try_ body' handler s.
Proof. intros E. unfold try_. now rewrite E. Qed.

End Associativity.

Section Unfailing.

Import BackupManager.

Lemma unfailing_call {A} msg (k : M world A) :
  (forall w, faults (snd (k w)) = faults w) ->
  maintains unfailing (fault msg ;; k) (fun _ => True).
Proof.
  intros H w Q. unfold bind, fault. rewrite Q. specialize (H w).
  destruct (k w) as [r w']. simpl in *. split; [|now destruct r].
  unfold unfailing. congruence.
Qed.

Lemma unfailing_print msg : maintains unfailing (print msg) (fun _ => True).
Proof. intros w Q. now split. Qed.

Lemma unfailing_shutil_copy2 p q : maintains unfailing (shutil_copy2 p q) (fun _ => True).
Proof. apply unfailing_call. intros w. now destruct (lookup p (fs w)). Qed.

Lemma unfailing_os_listdir d : maintains unfailing (os_listdir d) (fun _ => True).
Proof. now apply unfailing_call. Qed.

Lemma unfailing_os_path_getmtime p :
  maintains unfailing (os_path_getmtime p) (fun _ => True).
Proof. apply unfailing_call. intros w. now destruct (lookup p (fs w)). Qed.

Lemma unfailing_os_remove p : maintains unfailing (os_remove p) (fun _ => True).
Proof. apply unfailing_call. intros w. now destruct (lookup p (fs w)). Qed.

Lemma unfailing_sort_keys l :
  maintains unfailing (sort_keys os_path_getmtime l) (fun _ => True).
Proof.
  induction l as [|x r IH]; simpl; [now apply maintains_ret|].
  eapply maintains_bind; [apply unfailing_os_path_getmtime|]. intros k _.
  eapply maintains_bind; [apply IH|]. intros kr _. now apply maintains_ret.
Qed.

Lemma unfailing_prune n l : maintains unfailing (prune n l) (fun _ => True).
Proof.
  induction l as [|b r IH]; simpl.
  - destruct (_ >? _); [apply maintains_raise | now apply maintains_ret].
  - destruct (_ >? _); [|now apply maintains_ret].
    eapply maintains_bind; [apply unfailing_os_remove|]. intros; apply IH.
Qed.

Lemma unfailing_cleanup_old_backups self :
  maintains unfailing (_cleanup_old_backups self) (fun _ => True).
Proof.
  unfold _cleanup_old_backups. apply maintains_try.
  - eapply maintains_bind; [apply unfailing_os_listdir|]. intros names _.
    eapply maintains_bind with (R' := fun _ => True).
    + unfold sort_by_mtime.
      eapply maintains_bind; [apply unfailing_sort_keys|]. intros.
      now apply maintains_ret.
    + intros. apply unfailing_prune.
  - intros e h. apply maintains_except_Exception. intros. apply unfailing_print.
Qed.

Lemma unfailing_create_backup self :
  maintains unfailing (_create_backup self) (fun _ => True).
Proof.
  unfold _create_backup.
  apply maintains_bind with (R' := fun _ => True); [now intros w Q|]. intros b _.
  apply maintains_if; [now apply maintains_ret|].
  apply maintains_bind with (R' := fun _ => True); [now intros w Q|]. intros ts _.
  apply maintains_try.
  - eapply maintains_bind; [apply unfailing_shutil_copy2|].
    intros; apply unfailing_cleanup_old_backups.
  - intros e h. apply maintains_except_Exception. intros. apply unfailing_print.
Qed.

Variable self : BackupManager.t.

(** [save_data] is its first three steps, then the replacement of the
    target *)
Lemma save_data_split doc w :
  save_data self doc w
  = try_ (save_prefix self doc ;;
          (b <- os_path_exists (base_filename self) ;;
           if b then os_remove (base_filename self) else ret tt) ;;
          os_rename (temp_filename self) (base_filename self))
         (except_Exception (fun e =>
            print ("Oops! Had trouble saving data: " ++ exn_str e) ;;
            b <- os_path_exists (temp_filename self) ;;
            if b then try_ (os_remove (temp_filename self)) (except_any (ret tt))
            else ret tt)) w.
Proof.
  unfold save_data, save_prefix. apply try_ext.
  rewrite bind_assoc. apply bind_ext. intros _ w1.
  rewrite bind_assoc. reflexivity.
Qed.

(** the first three steps when no call fails: the temporary file holds the
    document, and still no call to come fails *)
Lemma save_prefix_unfailing doc w :
  faults w = [] ->
  exists w3,
    save_prefix self doc w = (Ret tt, w3)
    /\ lookup (temp_filename self) (fs w3) = Some {| data := Json doc; mtime := now w |}
    /\ faults w3 = []
    /\ (lookup (base_filename self) (fs w) = None ->
        w3 = set_fs (store (temp_filename self) {| data := Json doc; mtime := now w |})
               (set_fs (store (temp_filename self) {| data := Blank; mtime := now w |}) w)).
Proof.
  intros Q.
  set (t1 := {| data := Blank; mtime := now w |}).
  set (t2 := {| data := Json doc; mtime := now w |}).
  set (w2 := set_fs (store (temp_filename self) t2)
                    (set_fs (store (temp_filename self) t1) w)).
  assert (E1 : open_w (temp_filename self) w
               = (Ret tt, set_fs (store (temp_filename self) t1) w))
    by apply open_w_quiet, Q.
  assert (E2 : json_dump doc (temp_filename self)
                 (set_fs (store (temp_filename self) t1) w) = (Ret tt, w2))
    by (apply json_dump_quiet; exact Q).
  assert (T2 : lookup (temp_filename self) (fs w2) = Some t2)
    by (unfold w2; simpl; apply lookup_store_eq).
  assert (B2 : lookup (base_filename self) (fs w2) = lookup (base_filename self) (fs w)).
  { unfold w2. simpl. now rewrite !lookup_store_neq by apply temp_is_not_base. }
  unfold save_prefix.
  rewrite (bind_ret_eq _ _ _ _ _ E1), (bind_ret_eq _ _ _ _ _ E2).
  unfold bind at 1, os_path_exists at 1. rewrite B2.
  destruct (lookup (base_filename self) (fs w)) as [f|].
  - destruct (returns_create_backup self w2) as ([] & w3 & E3).
    exists w3. split; [exact E3|].
    pose proof (create_backup_keeps_temp self (Some t2) w2 T2) as [K _].
    pose proof (unfailing_create_backup self w2 Q) as [U _].
    rewrite E3 in K, U. simpl in K, U. repeat split; auto. discriminate.
  - exists w2. repeat split; auto.
Qed.

(** a save when no call fails *)
Lemma save_data_unfailing doc w :
  faults w = [] ->
  exists w',
    save_data self doc w = (Ret tt, w')
    /\ lookup (base_filename self) (fs w') = Some {| data := Json doc; mtime := now w |}
    /\ lookup (temp_filename self) (fs w') = None
    /\ faults w' = []
    /\ (lookup (base_filename self) (fs w) = None ->
        stdout w' = stdout w
        /\ fs w' = store (base_filename self) {| data := Json doc; mtime := now w |}
                     (delete (temp_filename self)
                        (store (temp_filename self) {| data := Json doc; mtime := now w |}
                           (store (temp_filename self) {| data := Blank; mtime := now w |}
                              (fs w))))).
Proof.
  intros Q. destruct (save_prefix_unfailing doc w Q) as (w3 & E3 & T3 & Q3 & N3).
  set (t2 := {| data := Json doc; mtime := now w |}) in *.
  rewrite save_data_split. unfold try_. rewrite (bind_ret_eq _ _ _ _ _ E3).
  assert (R : exists w5,
             (b <- os_path_exists (base_filename self) ;;
              if b then os_remove (base_filename self) else ret tt) w3 = (Ret tt, w5)
             /\ lookup (temp_filename self) (fs w5) = Some t2 /\ faults w5 = []
             /\ stdout w5 = stdout w3
             /\ (lookup (base_filename self) (fs w3) = None -> w5 = w3)).
  { unfold bind at 1, os_path_exists at 1.
    destruct (lookup (base_filename self) (fs w3)) as [f|] eqn:B3.
    - exists (set_fs (delete (base_filename self)) w3).
      split; [now apply os_remove_quiet with (f := f)|]. simpl.
      rewrite lookup_delete_neq by apply base_is_not_temp. repeat split; auto.
      discriminate.
    - exists w3. repeat split; auto. }
  destruct R as (w5 & E5 & T5 & Q5 & O5 & N5).
  rewrite (bind_ret_eq _ _ _ _ _ E5).
  rewrite (os_rename_quiet w5 Q5 _ _ t2 T5).
  eexists. split; [reflexivity|]. simpl.
  rewrite lookup_store_eq, lookup_store_neq, lookup_delete_eq
    by apply base_is_not_temp.
  repeat split; auto.
  - rewrite O5. rewrite (N3 H). reflexivity.
  - assert (B3 : lookup (base_filename self) (fs w3) = None).
    { rewrite (N3 H). simpl. now rewrite !lookup_store_neq by apply temp_is_not_base. }
    rewrite (N5 B3), (N3 H). reflexivity.
Qed.

End Unfailing.

Section Counting.

Import BackupManager.

(** a new backup adds an entry, one of the same name is replaced *)
Lemma backup_files_store_bak (self : BackupManager.t) p f l :
  dirname p = backup_dir self -> endswith (basename p) ".bak" = true ->
  length (backup_files self (store p f l))
  = match lookup p l with
    | Some _ => length (backup_files self l)
    | None => S (length (backup_files self l))
    end.
Proof.
  intros D B.
  assert (K : String.eqb (dirname p) (backup_dir self) && endswith (basename p) ".bak" = true)
    by (rewrite D, String.eqb_refl, B; reflexivity).
  unfold backup_files. induction l as [|[q g] r IH]; simpl.
  - now rewrite K.
  - destruct (path_eqb q p) eqn:E; simpl.
    + apply path_eqb_eq in E. subst q. now rewrite K.
    + destruct (String.eqb (dirname q) (backup_dir self) && endswith (basename q) ".bak");
        simpl; rewrite IH; now destruct (lookup p r).
Qed.

(** X2: a save over an existing target, when no call fails and the bound is
    not negative, leaves [min (n + 1) max_backups] backups, [n] being their
    number before, unless a backup of the same second exists: that one is
    overwritten and [min n max_backups] are left. *)
Theorem backup_count_after_save (self : BackupManager.t) (doc : Document) (w : world) (f : file) :
  NoDup (keys (fs w)) -> faults w = [] -> 0 <= BackupManager.max_backups self ->
  BackupManager.backup_dir self
    = BackupManager.backup_dir_of (BackupManager.base_filename self) ->
  lookup (BackupManager.base_filename self) (fs w) = Some f ->
  exists w',
    BackupManager.save_data self doc w = (Ret tt, w')
    /\ Z.of_nat (length (backup_paths self (fs w')))
       = Z.min (Z.of_nat (length (backup_paths self (fs w)))
                + match lookup (BackupManager.backup_filename self
                                  (strftime "%Y%m%d_%H%M%S" (now w))) (fs w) with
                  | Some _ => 0
                  | None => 1
                  end)
               (BackupManager.max_backups self).
Proof.
  intros N Q M self_built B.
  set (t1 := {| data := Blank; mtime := now w |}).
  set (t2 := {| data := Json doc; mtime := now w |}).
  set (w2 := set_fs (store (temp_filename self) t2)
                    (set_fs (store (temp_filename self) t1) w)).
  set (bk := backup_filename self (strftime "%Y%m%d_%H%M%S" (now w))).
  set (w3 := set_fs (store bk f) w2).
  assert (B2 : lookup (base_filename self) (fs w2) = Some f).
  { unfold w2. simpl. now rewrite !lookup_store_neq by apply temp_is_not_base. }
  assert (T2 : lookup (temp_filename self) (fs w2) = Some t2).
  { unfold w2. simpl. apply lookup_store_eq. }
  assert (NB : path_eqb bk (base_filename self) = false) by now apply bak_is_not_base.
  assert (NT : path_eqb bk (temp_filename self) = false)
    by apply bak_is_not_temp, backup_filename_is_bak.
  assert (OT : String.eqb (dirname (temp_filename self)) (backup_dir self) = false)
    by now apply base_outside_backup_dir.
  destruct (cleanup_old_backups_quiet self w3) as (w4 & E4 & F4 & Q4 & C4); auto.
  { unfold w3, w2. simpl. auto using NoDup_keys_store. }
  assert (B4 : lookup (base_filename self) (fs w4) = Some f).
  { pose proof (cleanup_keeps_base self self_built (Some f) w3) as K. rewrite E4 in K.
    apply K. unfold w3. simpl. now rewrite lookup_store_neq. }
  assert (T4 : lookup (temp_filename self) (fs w4) = Some t2).
  { pose proof (cleanup_keeps_temp self (Some t2) w3) as K. rewrite E4 in K.
    apply K. unfold w3. simpl. now rewrite lookup_store_neq. }
  set (w5 := set_fs (delete (base_filename self)) w4).
  set (w6 := set_fs (fun l => store (base_filename self) t2
                                    (delete (temp_filename self) l)) w5).
  assert (E1 : open_w (temp_filename self) w
               = (Ret tt, set_fs (store (temp_filename self) t1) w))
    by apply open_w_quiet, Q.
  assert (E2 : json_dump doc (temp_filename self)
                 (set_fs (store (temp_filename self) t1) w) = (Ret tt, w2))
    by (apply json_dump_quiet; exact Q).
  assert (E3 : (b <- os_path_exists (base_filename self) ;;
                if b then _create_backup self else ret tt) w2 = (Ret tt, w4)).
  { unfold bind at 1, os_path_exists at 1. rewrite B2.
    unfold _create_backup. unfold bind at 1, os_path_exists at 1. rewrite B2.
    cbn [negb]. unfold bind at 1, datetime_now_strftime, try_.
    rewrite (bind_ret_eq _ _ _ _ _ (shutil_copy2_quiet w2 Q _ bk f B2)).
    fold w3. now rewrite E4. }
  assert (E5 : (b <- os_path_exists (base_filename self) ;;
                if b then os_remove (base_filename self) else ret tt) w4 = (Ret tt, w5)).
  { unfold bind at 1, os_path_exists at 1. rewrite B4.
    apply (os_remove_quiet w4 Q4 _ f B4). }
  assert (E6 : os_rename (temp_filename self) (base_filename self) w5 = (Ret tt, w6)).
  { apply os_rename_quiet; [exact Q4|]. unfold w5. simpl.
    rewrite lookup_delete_neq by apply base_is_not_temp. exact T4. }
  exists w6. split.
  - unfold save_data, try_.
    rewrite (bind_ret_eq _ _ _ _ _ E1), (bind_ret_eq _ _ _ _ _ E2),
      (bind_ret_eq _ _ _ _ _ E3), (bind_ret_eq _ _ _ _ _ E5), E6.
    reflexivity.
  - assert (C6 : backup_paths self (fs w6) = backup_paths self (fs w4)).
    { unfold w6, w5. simpl. unfold backup_paths.
      rewrite backup_files_store_outside, !backup_files_delete_outside; auto;
        now apply base_outside_backup_dir. }
    assert (C3 : length (backup_paths self (fs w3))
                 = match lookup bk (fs w) with
                   | Some _ => length (backup_paths self (fs w))
                   | None => S (length (backup_paths self (fs w)))
                   end).
    { unfold w3, w2, backup_paths, keys. simpl. rewrite !length_map.
      rewrite backup_files_store_bak;
        [|reflexivity | apply backup_filename_is_bak].
      rewrite !lookup_store_neq
        by (rewrite path_eqb_sym; exact NT).
      now rewrite !backup_files_store_outside by exact OT. }
    rewrite C6, C4, C3. fold bk. destruct (lookup bk (fs w)); f_equal; lia.
Qed.

Lemma backup_count_after_save_witness :
  exists w',
    BackupManager.save_data store2 (growing 5) (crowded_disk []) = (Ret tt, w')
    /\ Z.of_nat (length (backup_paths store2 (fs w'))) = 2.
Proof.
  exact (backup_count_after_save store2 (growing 5) (crowded_disk [])
           {| data := Json (growing 4); mtime := 4000 |}
           crowded_disk_well_formed eq_refl ltac:(simpl; lia) eq_refl eq_refl).
Defined.

End Counting.

Section StoreEdges.

Import BackupManager.

Ltac run :=
  cbv beta iota zeta delta
    [try_ bind os_path_exists os_remove os_rename fault print
     except_Exception except_any ret raise negb];
  cbn [fs now faults remote stdout set_fs set_faults fst snd is_Exception hd].

(** X3: the replacement of the target is not atomic.  When the steps up to
    the backup have run, the target exists, its removal succeeds and the
    rename of the temporary file fails, [save_data] reports the failure and
    returns with no file at the target path: the old document is gone from
    it and the new one is not there; the temporary file is removed as well
    unless that removal fails. *)
Theorem failed_rename_loses_target
  (self : BackupManager.t) (doc : Document) (w w3 : world) (f : file) (l : list bool) :
  save_prefix self doc w = (Ret tt, w3) ->
  lookup (BackupManager.base_filename self) (fs w3) = Some f ->
  faults w3 = false :: true :: l ->
  exists w',
    BackupManager.save_data self doc w = (Ret tt, w')
    /\ lookup (BackupManager.base_filename self) (fs w') = None
    /\ In ("Oops! Had trouble saving data: cannot rename "
           ++ path_str (BackupManager.temp_filename self)) (stdout w')
    /\ (hd false l = false -> lookup (BackupManager.temp_filename self) (fs w') = None).
Proof.
  intros E3 B F. rewrite save_data_split. unfold try_ at 1.
  rewrite (bind_ret_eq _ _ _ _ _ E3). run. rewrite B, F. run. rewrite B. run.
  rewrite lookup_delete_neq by apply base_is_not_temp.
  destruct (lookup (temp_filename self) (fs w3)) as [t|] eqn:T.
  - destruct l as [|[] l']; run;
      rewrite ?lookup_delete_neq, ?T by apply base_is_not_temp;
      (eexists; split; [reflexivity|]); run;
      rewrite ?lookup_delete_neq, ?lookup_delete_eq by apply temp_is_not_base;
      rewrite ?lookup_delete_eq;
      (split; [reflexivity|]); (split; [apply in_or_app; right; now left|]);
      intros; try congruence; try discriminate.
  - eexists; split; [reflexivity|]. run. rewrite lookup_delete_eq.
    split; [reflexivity|]. split; [apply in_or_app; right; now left|].
    intros _. now rewrite lookup_delete_neq by apply base_is_not_temp.
Qed.

Lemma failed_rename_loses_target_witness :
  let w := committed_disk store2 (growing 1) 5000
             [false; false; false; false; false; false; true] in
  lookup (BackupManager.base_filename store2) (fs w)
  = Some {| data := Json (growing 1); mtime := 4000 |}
  /\ exists w',
       BackupManager.save_data store2 (growing 2) w = (Ret tt, w')
       /\ lookup (BackupManager.base_filename store2) (fs w') = None
       /\ In ("Oops! Had trouble saving data: cannot rename "
              ++ path_str (BackupManager.temp_filename store2)) (stdout w')
       /\ (hd false [] = false ->
           lookup (BackupManager.temp_filename store2) (fs w') = None).
Proof.
  intros w. split; [reflexivity|].
  apply (failed_rename_loses_target store2 (growing 2) w
           (snd (save_prefix store2 (growing 2) w))
           {| data := Json (growing 1); mtime := 4000 |} []);
    vm_compute; reflexivity.
Defined.

(** with a negative bound every backup is removed, and then the first
    element of an empty list is asked for *)
Lemma prune_negative m l w :
  m < 0 -> faults w = [] -> NoDup l -> incl l (keys (fs w)) ->
  exists w',
    prune m l w = (Raise (IndexError "list index out of range"), w')
    /\ fs w' = delete_all l (fs w) /\ faults w' = [] /\ stdout w' = stdout w.
Proof.
  intros M Q N. revert w Q.
  induction N as [|b r Hb Hr IH]; intros w Q H.
  - simpl. destruct (Z.gtb_spec 0 m) as [E|E]; [|lia]. exists w. now repeat split.
  - change (prune m (b :: r))
      with (if Z.of_nat (length (b :: r)) >? m
            then os_remove b ;; prune m r else ret tt).
    destruct (Z.gtb_spec (Z.of_nat (length (b :: r))) m) as [E|E]; [|lia].
    destruct (lookup_in_keys b (fs w) (H b (or_introl eq_refl))) as [f Hf].
    unfold bind. rewrite (os_remove_quiet w Q b f Hf).
    destruct (IH (set_fs (delete b) w)) as (w' & E1 & E2 & E3 & E4); auto.
    { intros q Hq. simpl. apply keys_delete_in; [|apply H; now right].
      intros ->. easy. }
    exists w'. rewrite E1. repeat split; auto.
Qed.

(** X4: with a negative [max_backups] and no failing call, the pruning step
    removes every backup, oldest first, then fails on the empty list; the
    failure is reported and the call returns. *)
Theorem negative_bound_removes_every_backup (self : BackupManager.t) (w : world) :
  NoDup (keys (fs w)) -> faults w = [] -> BackupManager.max_backups self < 0 ->
  exists w',
    BackupManager._cleanup_old_backups self w = (Ret tt, w')
    /\ fs w' = delete_all (oldest_first self (fs w)) (fs w)
    /\ backup_paths self (fs w') = []
    /\ stdout w'
       = (stdout w ++ ["Had a small issue cleaning up old backups: list index out of range"])%list.
Proof.
  intros N Q M.
  assert (P := oldest_first_perm self (fs w)).
  assert (L : length (oldest_first self (fs w)) = length (backup_paths self (fs w)))
    by now apply Permutation_length.
  assert (ND : NoDup (oldest_first self (fs w))).
  { eapply Permutation_NoDup; [symmetry; exact P|]. now apply NoDup_backup_paths. }
  assert (IN : incl (oldest_first self (fs w)) (backup_paths self (fs w))).
  { intros p Hp. eapply Permutation_in; eauto. }
  destruct (prune_negative (max_backups self) (oldest_first self (fs w)) w)
    as (w' & E1 & E2 & E3 & E4); auto.
  { intros p Hp. eapply backup_paths_in_keys, IN, Hp. }
  unfold _cleanup_old_backups, try_, bind.
  rewrite (os_listdir_quiet w Q), listing_is_backup_paths.
  unfold sort_by_mtime, bind.
  rewrite sort_keys_quiet by (auto; intros p Hp; eapply backup_paths_in_keys, Hp).
  unfold ret. fold (oldest_first self (fs w)). rewrite E1.
  cbn [except_Exception is_Exception print exn_str].
  eexists. split; [reflexivity|]. cbn [fs stdout]. rewrite E2, E4.
  repeat split.
  pose proof (backup_paths_delete_all self (oldest_first self (fs w)) (fs w) N ND IN) as C.
  apply length_zero_iff_nil. lia.
Qed.

Lemma negative_bound_removes_every_backup_witness :
  exists w',
    BackupManager._cleanup_old_backups store_minus (crowded_disk []) = (Ret tt, w')
    /\ fs w' = delete_all (oldest_first store_minus (fs (crowded_disk [])))
                          (fs (crowded_disk []))
    /\ backup_paths store_minus (fs w') = []
    /\ stdout w'
       = (stdout (crowded_disk [])
          ++ ["Had a small issue cleaning up old backups: list index out of range"])%list.
Proof.
  exact (negative_bound_removes_every_backup store_minus (crowded_disk [])
           crowded_disk_well_formed eq_refl ltac:(simpl; lia)).
Defined.

End StoreEdges.

(** X1: when no file-system call fails, [save_data] commits: it returns with
    the target holding the document and no temporary file left, whatever the
    pruning of the backups runs into.  A first save, with no target to
    replace, prints nothing and leaves the backup directory as it was. *)
Theorem save_commits_when_no_call_fails (self : BackupManager.t) (doc : Document) (w : world) :
  faults w = [] ->
  exists w',
    BackupManager.save_data self doc w = (Ret tt, w')
    /\ lookup (BackupManager.base_filename self) (fs w')
       = Some {| data := Json doc; mtime := now w |}
    /\ lookup (BackupManager.temp_filename self) (fs w') = None
    /\ (BackupManager.backup_dir self
          = BackupManager.backup_dir_of (BackupManager.base_filename self) ->
        lookup (BackupManager.base_filename self) (fs w) = None ->
        backup_files self (fs w') = backup_files self (fs w) /\ stdout w' = stdout w).
Proof.
  intros Q. destruct (save_data_unfailing self doc w Q) as (w' & E & B & T & _ & N).
  exists w'. repeat split; auto.
  - destruct (N H0) as [_ ->].
    rewrite backup_files_store_outside, backup_files_delete_outside,
      !backup_files_store_outside; auto; now apply base_outside_backup_dir.
  - now destruct (N H0).
Qed.

Lemma save_commits_when_no_call_fails_witness :
  faults (fresh 0) = []
  /\ exists w',
       BackupManager.save_data store2 (growing 1) (fresh 0) = (Ret tt, w')
       /\ lookup (BackupManager.base_filename store2) (fs w')
          = Some {| data := Json (growing 1); mtime := 0 |}
       /\ lookup (BackupManager.temp_filename store2) (fs w') = None
       /\ (BackupManager.backup_dir store2
             = BackupManager.backup_dir_of (BackupManager.base_filename store2) ->
           lookup (BackupManager.base_filename store2) (fs (fresh 0)) = None ->
           backup_files store2 (fs w') = backup_files store2 (fs (fresh 0))
           /\ stdout w' = stdout (fresh 0)).
Proof.
  split; [reflexivity|].
  apply (save_commits_when_no_call_fails store2 (growing 1) (fresh 0)). reflexivity.
Defined.

(* ================================================================== *)
(** * Three saves with room for two backups *)
(* ================================================================== *)

Section ThreeSaves.

Import BackupManager.

Variable self : BackupManager.t.
Hypothesis self_built : backup_dir self = backup_dir_of (base_filename self).
Hypothesis room : max_backups self = 2.

Local Abbreviation base := (base_filename self).
Local Abbreviation temp := (temp_filename self).
Local Abbreviation bak t := (backup_filename self (strftime "%Y%m%d_%H%M%S" t)).

Lemma append_cancel_r (a b c : string) : a ++ c = b ++ c -> a = b.
Proof.
  revert b. induction a as [|x a IH]; intros [|y b] E; simpl in E.
  - reflexivity.
  - apply (f_equal String.length) in E. simpl in E.
    rewrite length_append_string in E. lia.
  - apply (f_equal String.length) in E. simpl in E.
    rewrite length_append_string in E. lia.
  - inversion E. f_equal. now apply IH.
Qed.

Lemma append_cancel_l (a b c : string) : c ++ a = c ++ b -> a = b.
Proof. induction c; simpl; intros E; [exact E|]. inversion E. auto. Qed.

(** two backups have the same name exactly when their timestamps agree *)
Lemma bak_eqb t t' :
  path_eqb (bak t) (bak t')
  = String.eqb (strftime "%Y%m%d_%H%M%S" t) (strftime "%Y%m%d_%H%M%S" t').
Proof.
  destruct (String.eqb_spec (strftime "%Y%m%d_%H%M%S" t) (strftime "%Y%m%d_%H%M%S" t'))
    as [E|N].
  - apply path_eqb_eq. unfold backup_filename. now rewrite E.
  - apply path_eqb_neq. intros E. apply N. unfold backup_filename, join in E.
    inversion E as [H]. apply append_cancel_l in H. inversion H as [H'].
    now apply append_cancel_r in H'.
Qed.

Lemma bak_not_base t : path_eqb (bak t) base = false.
Proof. apply bak_is_not_base, self_built. Qed.

Lemma base_not_bak t : path_eqb base (bak t) = false.
Proof. rewrite path_eqb_sym. apply bak_not_base. Qed.

Lemma bak_not_temp t : path_eqb (bak t) temp = false.
Proof. apply bak_is_not_temp, backup_filename_is_bak. Qed.

Lemma temp_not_bak t : path_eqb temp (bak t) = false.
Proof. rewrite path_eqb_sym. apply bak_not_temp. Qed.

(** which entries of the table are backups *)
Lemma is_backup_bak t :
  String.eqb (dirname (bak t)) (backup_dir self)
  && endswith (basename (bak t)) ".bak" = true.
Proof.
  rewrite backup_filename_is_bak. unfold backup_filename, join. cbn [dirname].
  now rewrite String.eqb_refl.
Qed.

Lemma is_backup_base :
  String.eqb (dirname base) (backup_dir self) && endswith (basename base) ".bak" = false.
Proof. now rewrite (base_outside_backup_dir self self_built). Qed.

Lemma is_backup_temp :
  String.eqb (dirname temp) (backup_dir self) && endswith (basename temp) ".bak" = false.
Proof.
  unfold temp_filename. cbn [dirname].
  now rewrite (base_outside_backup_dir self self_built).
Qed.

Ltac files :=
  repeat (progress
            (cbn [store delete lookup filter map fst snd app keys length firstn
                  fold_left delete_all backup_files backup_paths backup_contents
                  data option_map Nat.sub fs];
             rewrite ?path_eqb_refl, ?(temp_is_not_base self), ?(base_is_not_temp self),
               ?bak_not_base, ?base_not_bak, ?bak_not_temp, ?temp_not_bak,
               ?is_backup_bak, ?is_backup_base, ?is_backup_temp)).

Ltac files_in H :=
  repeat (progress
            (cbn [store delete lookup filter map fst snd app keys length firstn
                  fold_left delete_all backup_files backup_paths backup_contents
                  data option_map Nat.sub fs] in H;
             rewrite ?path_eqb_refl, ?(temp_is_not_base self), ?(base_is_not_temp self),
               ?bak_not_base, ?base_not_bak, ?bak_not_temp, ?temp_not_bak,
               ?is_backup_bak, ?is_backup_base, ?is_backup_temp in H)).

Lemma NoDup_two (p q : path) : path_eqb p q = false -> NoDup [p; q].
Proof.
  intros N. apply path_eqb_neq in N. repeat constructor; simpl; intuition.
Qed.

Lemma at_time_eq t w :
  at_time t w = (Ret tt, snd (at_time t w))
  /\ fs (snd (at_time t w)) = fs w /\ faults (snd (at_time t w)) = faults w
  /\ now (snd (at_time t w)) = t.
Proof. now repeat split. Qed.

(** the table after three saves on an empty disk, at the clock readings
    [t1], [t2] and [t3] *)
Lemma three_saves_table d1 d2 d3 t1 t2 t3 w :
  fs w = [] -> faults w = [] ->
  exists w3,
    (save_at self t1 d1 ;; save_at self t2 d2 ;; save_at self t3 d3) w = (Ret tt, w3)
    /\ fs w3
       = if String.eqb (strftime "%Y%m%d_%H%M%S" t2) (strftime "%Y%m%d_%H%M%S" t3)
         then [(bak t3, {| data := Json d2; mtime := t2 |});
               (base, {| data := Json d3; mtime := t3 |})]
         else [(bak t2, {| data := Json d1; mtime := t1 |});
               (bak t3, {| data := Json d2; mtime := t2 |});
               (base, {| data := Json d3; mtime := t3 |})].
Proof.
  intros F0 Q0. unfold save_at.
  (* the first save *)
  destruct (at_time_eq t1 w) as (A1 & Fa1 & Qa1 & Na1).
  set (w1 := snd (at_time t1 w)) in *.
  destruct (save_data_unfailing self d1 w1) as (v1 & E1 & _ & _ & Q1 & X1);
    [congruence|].
  destruct X1 as [_ F1]; [now rewrite Fa1, F0|].
  rewrite Fa1, F0, Na1 in F1. files_in F1.
  (* the second save *)
  destruct (at_time_eq t2 v1) as (A2 & Fa2 & Qa2 & Na2).
  set (w2 := snd (at_time t2 v1)) in *.
  destruct (save_data_quiet self self_built d2 w2 {| data := Json d1; mtime := t1 |})
    as (v2 & E2 & _ & _ & Q2 & F2).
  { rewrite Fa2, F1. repeat constructor. simpl. tauto. }
  { congruence. }
  { rewrite room. lia. }
  { rewrite Fa2, F1. files. reflexivity. }
  rewrite Fa2, F1, Na2, room in F2. change (Z.to_nat 2) with 2%nat in F2.
  cbv zeta in F2. files_in F2.
  (* the third save *)
  destruct (at_time_eq t3 v2) as (A3 & Fa3 & Qa3 & Na3).
  set (w3 := snd (at_time t3 v2)) in *.
  destruct (save_data_quiet self self_built d3 w3 {| data := Json d2; mtime := t2 |})
    as (v3 & E3 & _ & _ & Q3 & F3).
  { rewrite Fa3, F2. apply NoDup_two, bak_not_base. }
  { congruence. }
  { rewrite room. lia. }
  { rewrite Fa3, F2. files. reflexivity. }
  rewrite Fa3, F2, Na3, room in F3. change (Z.to_nat 2) with 2%nat in F3.
  cbv zeta in F3. files_in F3. rewrite bak_eqb in F3.
  exists v3. split.
  - unfold bind at 1. unfold bind at 1. rewrite A1. fold w1. rewrite E1.
    unfold bind at 1. unfold bind at 1. rewrite A2. fold w2. rewrite E2.
    unfold bind at 1. rewrite A3. fold w3. exact E3.
  - destruct (String.eqb (strftime "%Y%m%d_%H%M%S" t2) (strftime "%Y%m%d_%H%M%S" t3));
      files_in F3; exact F3.
Qed.

End ThreeSaves.




(* ================================================================== *)
(** * The states of a run *)
(* ================================================================== *)

Section Reachable.

Lemma bind_inv {S A B} (m : M S A) (k : A -> M S B) s b s' :
  bind m k s = (Ret b, s') ->
  exists a s1, m s = (Ret a, s1) /\ k a s1 = (Ret b, s').
Proof.
  unfold bind. destruct (m s) as [[a|e|] s1]; try discriminate. eauto.
Qed.

(** the document the constructor leaves is the empty one *)
Lemma init_document path w g w' :
  __init__ path w = (Ret g, w') ->
  exists date, conversation_data g = initial_conversation_data (config g) date.
Proof.
  unfold __init__. intros E.
  repeat (apply bind_inv in E; destruct E as (? & ? & _ & E)).
  inversion E; subst. simpl. eauto.
Qed.

Lemma counted_initial c date : counted (initial_conversation_data c date).
Proof. reflexivity. Qed.

Lemma counted_append_pair p d : counted d -> counted (append_pair p d).
Proof.
  unfold counted. simpl. intros ->. rewrite length_app. simpl. lia.
Qed.

End Reachable.

(* ================================================================== *)
(** * What every method keeps of the object and of the world *)
(* ================================================================== *)

Section Leads.

Context {S : Type}.

Lemma leads_maintains {A} (I : S -> Prop) (m : M S A) R :
  maintains I m R -> leads I m I.
Proof. intros H s Hs. now destruct (H s Hs). Qed.

Lemma leads_weaken {A} (P P' Q Q' : S -> Prop) (m : M S A) :
  leads P m Q -> (forall s, P' s -> P s) -> (forall s, Q s -> Q' s) -> leads P' m Q'.
Proof. intros H HP HQ s Hs. auto. Qed.

(** a step that keeps [I], then the rest from [I] *)
Lemma leads_bind {A B} (I Q : S -> Prop) (m : M S A) (k : A -> M S B) R :
  maintains I m R -> (forall a, R a -> leads I (k a) Q) -> (forall s, I s -> Q s) ->
  leads I (bind m k) Q.
Proof.
  intros Hm Hk HQ s Hs. unfold bind. destruct (Hm s Hs) as [H1 H2].
  destruct (m s) as [[a|e|] s']; simpl in *; auto. now apply Hk.
Qed.

(** a step that returns, then the rest from where it leaves *)
Lemma leads_after {A B} (P P' Q : S -> Prop) (m : M S A) (k : A -> M S B) R :
  yields P m R P' -> (forall a, R a -> leads P' (k a) Q) -> leads P (bind m k) Q.
Proof.
  intros Hm Hk s Hs. unfold bind. destruct (Hm s Hs) as (a & s' & -> & Ha & Hs').
  now apply Hk.
Qed.

Lemma leads_if {A} (P Q : S -> Prop) (b : bool) (m1 m2 : M S A) :
  leads P m1 Q -> leads P m2 Q -> leads P (if b then m1 else m2) Q.
Proof. now destruct b. Qed.

Lemma leads_try {A} (P Q' Q : S -> Prop) (body : M S A) handler :
  leads P body Q' -> (forall e h, handler e = Some h -> leads Q' h Q) ->
  (forall s, Q' s -> Q s) -> leads P (try_ body handler) Q.
Proof.
  intros Hb Hh HQ s Hs. unfold try_. specialize (Hb s Hs).
  destruct (body s) as [[a|e|] s']; simpl in *; auto.
  destruct (handler e) as [h|] eqn:E; simpl; auto. now apply (Hh e h E).
Qed.

Lemma leads_finally {A} (P Q' Q : S -> Prop) (body : M S A) fin :
  leads P body Q' -> leads Q' fin Q -> (forall s, Q' s -> Q s) ->
  leads P (finally body fin) Q.
Proof.
  intros Hb Hf HQ s Hs. unfold finally. specialize (Hb s Hs).
  destruct (body s) as [[a|e|] s']; simpl in *; auto;
    specialize (Hf s' Hb); destruct (fin s') as [[u|e'|] s'']; simpl in *; auto.
Qed.

Lemma yields_bind {A B} (P P' Q : S -> Prop) (m : M S A) (k : A -> M S B) R R' :
  yields P m R' P' -> (forall a, R' a -> yields P' (k a) R Q) -> yields P (bind m k) R Q.
Proof.
  intros Hm Hk s Hs. unfold bind. destruct (Hm s Hs) as (a & s' & -> & Ha & Hs').
  now apply Hk.
Qed.

Lemma yields_ret {A} (P : S -> Prop) (a : A) (R : A -> Prop) :
  R a -> yields P (ret a) R P.
Proof. intros H s Hs. now exists a, s. Qed.

Lemma yields_get (P : S -> Prop) : yields P get P P.
Proof. intros s Hs. now exists s, s. Qed.

Lemma finally_inv {A} (body : M S A) fin s a s' :
  finally body fin s = (Ret a, s') ->
  fst (body s) = Ret a /\ exists u, fin (snd (body s)) = (Ret u, s').
Proof.
  unfold finally. destruct (body s) as [[x|e|] s1]; simpl; try discriminate;
    destruct (fin s1) as [[u|e'|] s2]; intros E; inversion E; subst; eauto.
Qed.

Lemma gives_maintains {A} (I : S -> Prop) (m : M S A) R :
  maintains I m R -> gives I m (fun a s => I s /\ R a) I.
Proof.
  intros H s Hs. destruct (H s Hs) as [H1 H2].
  destruct (fst (m s)); auto.
Qed.

Lemma gives_weaken {A} (P P' : S -> Prop) (m : M S A) (Q Q' : A -> S -> Prop) (E E' : S -> Prop) :
  gives P m Q E -> (forall s, P' s -> P s) -> (forall a s, Q a s -> Q' a s) ->
  (forall s, E s -> E' s) -> gives P' m Q' E'.
Proof.
  intros H HP HQ HE s Hs. specialize (H s (HP s Hs)).
  destruct (fst (m s)); auto.
Qed.

Lemma gives_ret {A} (P : S -> Prop) (a : A) (Q : A -> S -> Prop) (E : S -> Prop) :
  (forall s, P s -> Q a s) -> gives P (ret a) Q E.
Proof. intros H s Hs. now apply H. Qed.

Lemma gives_raise {A} (P E : S -> Prop) e (Q : A -> S -> Prop) :
  (forall s, P s -> E s) -> gives P (raise e : M S A) Q E.
Proof. intros H s Hs. now apply H. Qed.

Lemma gives_pending {A} (P E : S -> Prop) (Q : A -> S -> Prop) :
  (forall s, P s -> E s) -> gives P (pending : M S A) Q E.
Proof. intros H s Hs. now apply H. Qed.

Lemma gives_bind {A B} (P : S -> Prop) (m : M S A) (k : A -> M S B) Q' Q E :
  gives P m Q' E -> (forall a, gives (Q' a) (k a) Q E) -> gives P (bind m k) Q E.
Proof.
  intros Hm Hk s Hs. unfold bind. specialize (Hm s Hs).
  destruct (m s) as [[a|e|] s']; simpl in *; auto. now apply Hk.
Qed.

Lemma gives_if {A} (P : S -> Prop) (b : bool) (m1 m2 : M S A) Q E :
  gives P m1 Q E -> gives P m2 Q E -> gives P (if b then m1 else m2) Q E.
Proof. now destruct b. Qed.

Lemma gives_try {A} (P E' : S -> Prop) (body : M S A) handler Q E :
  gives P body Q E' -> (forall e h, handler e = Some h -> gives E' h Q E) ->
  (forall s, E' s -> E s) -> gives P (try_ body handler) Q E.
Proof.
  intros Hb Hh HE s Hs. unfold try_. specialize (Hb s Hs).
  destruct (body s) as [[a|e|] s']; simpl in *; auto.
  destruct (handler e) as [h|] eqn:X; simpl; auto. now apply (Hh e h X).
Qed.

(** a step that changes what holds, then the rest from there *)
Lemma leads_via {A B} (P Q : S -> Prop) (m : M S A) (k : A -> M S B) Q' E :
  gives P m Q' E -> (forall a, leads (Q' a) (k a) Q) -> (forall s, E s -> Q s) ->
  leads P (bind m k) Q.
Proof.
  intros Hm Hk HE s Hs. unfold bind. specialize (Hm s Hs).
  destruct (m s) as [[a|e|] s']; simpl in *; auto. now apply Hk.
Qed.

End Leads.

Lemma run_generation_eq fuel :
  run_generation fuel
  = (ok <- initialize_char_ai ;;
     if negb ok then io (print "Cannot continue without Character AI connection")
     else finally (run_body fuel) finish).
Proof. reflexivity. Qed.

Lemma last3_nonempty (l : list MessagePair) : l <> [] -> last3 l <> [].
Proof.
  intros N E. apply (f_equal (@length _)) in E. unfold last3 in E.
  rewrite length_skipn in E. destruct l; [congruence|]. cbn [length] in E. lia.
Qed.

Section Object.

(** the object of the run, and what is kept of the world and of the
    document *)
Variable g0 : t.
Variable J : world -> Document -> Prop.

Hypothesis J_print : forall d msg, maintains (fun w => J w d) (print msg) (fun _ => True).
Hypothesis J_await : forall d req, maintains (fun w => J w d) (await req) (fun _ => True).
Hypothesis J_save :
  forall d d', maintains (fun w => J w d)
                         (BackupManager.save_data (backup_manager g0) d') (fun _ => True).

Local Abbreviation K := (holds g0 J).

Lemma keeps_io {A} (m : M world A) :
  (forall d, maintains (fun w => J w d) m (fun _ => True)) ->
  maintains K (io m) (fun _ => True).
Proof.
  intros H s (Hs & Hj). unfold io. destruct (H _ (env s) Hj) as [H1 _].
  destruct (m (env s)) as [r w']; simpl in *. split; [|now destruct r].
  split; [exact Hs | exact H1].
Qed.

Lemma keeps_say msg : maintains K (io (print msg)) (fun _ => True).
Proof. apply keeps_io. intros d. apply J_print. Qed.

(** a line that does not print leaves the world as it is *)
Lemma keeps_tell msg : maintains K (io (print_text msg)) (fun _ => True).
Proof.
  apply keeps_io. intros d w Hw. unfold print_text.
  destruct (console w msg); [now split | now apply J_print].
Qed.

Lemma keeps_wait req : maintains K (io (await req)) (fun _ => True).
Proof. apply keeps_io. intros d. apply J_await. Qed.

Lemma keeps_get : maintains K get K.
Proof. now apply maintains_get. Qed.

Lemma keeps_set_self f :
  (forall g, settled g (f g) /\ conversation_data (f g) = conversation_data g) ->
  maintains K (set_self f) (fun _ => True).
Proof.
  intros H s ((H1 & H2 & H3 & H4) & Hj). split; [|exact Logic.I]. simpl.
  destruct (H (self s)) as [(F1 & F2 & F3 & F4) F5].
  unfold holds, settled. simpl. rewrite F1, F2, F3, F4, F5. now repeat split.
Qed.

Ltac say := eapply maintains_bind; [apply keeps_say|]; intros _ _.
Ltac tell := eapply maintains_bind; [apply keeps_tell|]; intros _ _.
Ltac wait := eapply maintains_bind; [apply keeps_wait|]; intros ? _.
Ltac self := eapply maintains_bind; [apply keeps_get|]; intros ? _.

Lemma keeps_initialize_char_ai : maintains K initialize_char_ai (fun _ => True).
Proof.
  unfold initialize_char_ai. apply maintains_try.
  - self. wait. eapply maintains_bind; [now apply keeps_set_self|]. intros _ _.
    wait. tell. wait.
    eapply maintains_bind; [now apply keeps_set_self|]. intros _ _. tell.
    now apply maintains_ret.
  - intros e h. apply maintains_except_Exception. intros e'. tell.
    now apply maintains_ret.
Qed.

Lemma keeps_save_conversation : maintains K save_conversation (fun _ => True).
Proof.
  intros s ((H1 & H2 & H3 & H4) & Hj).
  destruct (save_conversation_eq s) as (w1 & E1 & ->). simpl.
  split; [|exact Logic.I]. split; [now repeat split|]. simpl.
  apply J_print. rewrite H3 in E1.
  pose proof (J_save _ (conversation_data (self s)) (env s) Hj) as [H _].
  now rewrite E1 in H.
Qed.

(** appending is kept when the property of the document allows it *)
Lemma keeps_add_message_pair u c :
  (forall p w d, J w d -> J w (append_pair p d)) ->
  maintains K (add_message_pair u c) (fun _ => True).
Proof.
  intros HD s Hs. rewrite add_message_pair_eq. apply keeps_save_conversation.
  destruct Hs as (H1 & Hj).
  split; [exact H1 | now apply HD].
Qed.

Lemma keeps_config_character_name c :
  maintains K (config_character_name c) (fun _ => True).
Proof.
  unfold config_character_name. destruct (config_character c) as [[n|]|];
    [now apply maintains_ret | apply maintains_raise ..].
Qed.

Lemma keeps_clean_response x : maintains K (clean_response x) (fun _ => True).
Proof.
  unfold clean_response.
  eapply maintains_bind; [apply keeps_get|]. intros s _.
  eapply maintains_bind; [apply keeps_config_character_name|]. intros n _.
  now apply maintains_ret.
Qed.

Lemma keeps_character_label : maintains K character_label (fun _ => True).
Proof.
  unfold character_label.
  eapply maintains_bind; [apply keeps_get|]. intros s _.
  apply keeps_config_character_name.
Qed.

Lemma keeps_persona_key key v :
  maintains K (persona_key key v) (fun _ => v <> None).
Proof.
  unfold persona_key. destruct v; [now apply maintains_ret | apply maintains_raise].
Qed.

Lemma keeps_history g ctx acc :
  maintains K (conversation_history g ctx acc) (fun _ => True).
Proof.
  revert acc. induction ctx as [|[u c] r IH]; intros acc; simpl.
  - now apply maintains_ret.
  - destruct (character_name g); [apply IH | apply maintains_raise].
Qed.

(** the history is built only from an empty context, or with the attribute
    [character_name] set *)
Lemma keeps_conversation_history g ctx acc :
  maintains K (conversation_history g ctx acc)
            (fun _ => ctx = [] \/ character_name g <> None).
Proof.
  destruct (character_name g) as [cn|] eqn:E.
  - eapply maintains_weaken; [apply keeps_history|]. intros ? _. now right.
  - destruct ctx as [|[u c] r]; simpl.
    + apply maintains_ret. now left.
    + rewrite E. apply maintains_raise.
Qed.

Lemma keeps_first_prompt c :
  maintains K (first_prompt c)
            (fun _ => speaking_style (user_persona c) <> None
                      /\ interests (user_persona c) <> None).
Proof.
  unfold first_prompt.
  eapply maintains_bind; [apply keeps_persona_key|]. intros i Hi.
  eapply maintains_bind; [apply keeps_persona_key|]. intros st Hst.
  now apply maintains_ret.
Qed.

Lemma keeps_next_prompt c h :
  maintains K (next_prompt c h) (fun _ => speaking_style (user_persona c) <> None).
Proof.
  unfold next_prompt.
  eapply maintains_bind; [apply keeps_persona_key|]. intros st Hst.
  now apply maintains_ret.
Qed.

(** [get_user_message] returns only when it can speak *)
Lemma keeps_get_user_message b ctx :
  maintains K (get_user_message b ctx) (fun _ => can_speak g0 b ctx).
Proof.
  unfold get_user_message.
  eapply maintains_bind; [apply keeps_get|]. intros s ((Hc & _ & _ & Hn) & _).
  eapply maintains_bind; [apply keeps_conversation_history|]. intros history Hh.
  eapply maintains_bind
    with (R' := fun _ => speaking_style (user_persona (config (self s))) <> None
                         /\ (b = true ->
                             interests (user_persona (config (self s))) <> None)).
  { destruct b.
    - eapply maintains_weaken; [apply keeps_first_prompt|]. intros ? [H1 H2]. auto.
    - eapply maintains_weaken; [apply keeps_next_prompt|]. intros ? H. split; auto.
      discriminate. }
  intros prompt [Hs Hi].
  assert (CS : can_speak g0 b ctx).
  { unfold can_speak. rewrite <- Hc, <- Hn. auto. }
  apply maintains_try.
  - wait. eapply maintains_bind; [apply keeps_clean_response|]. intros r _.
    now apply maintains_ret.
  - intros e h. apply maintains_except_Exception. intros e'. tell.
    destruct b; [|now apply maintains_ret].
    eapply maintains_bind; [apply keeps_persona_key|]. intros i _.
    now apply maintains_ret.
Qed.

Lemma keeps_get_character_message depth ctx :
  maintains K (get_character_message depth ctx) (fun _ => True).
Proof.
  induction depth as [|depth IH]; simpl; [apply maintains_pending|].
  eapply maintains_bind; [apply keeps_get|]. intros s _.
  eapply maintains_bind with (R' := fun _ => True).
  { apply maintains_if; [|now apply maintains_ret].
    eapply maintains_bind; [apply keeps_initialize_char_ai|]. intros ok _.
    apply maintains_if; [apply maintains_raise | now apply maintains_ret]. }
  intros _ _. apply maintains_try.
  - self. wait. apply keeps_clean_response.
  - intros e h E. destruct e; simpl in E; inversion E; subst;
      try apply maintains_raise.
    say. eapply maintains_bind; [apply keeps_initialize_char_ai|]. intros ok _.
    apply maintains_if; [apply IH | apply maintains_raise].
Qed.

Ltac label := eapply maintains_bind; [apply keeps_character_label|]; intros ? _.

(** the body of the loop, given that appending is kept whenever the user
    turn can return *)
Lemma keeps_loop_body depth :
  (forall w d u c,
     J w d -> can_speak g0 false (context_of (last3 (conversation_pairs d))) ->
     maintains K (add_message_pair u c) (fun _ => True)) ->
  maintains K (loop_body depth) (fun _ => True).
Proof.
  intros Hadd. unfold loop_body. apply maintains_try.
  - say. wait.
    eapply maintains_bind; [apply keeps_get|]. intros s (_ & Hd). say.
    eapply maintains_bind; [apply keeps_get_user_message|]. intros u Hu. tell.
    say. wait. label. tell.
    eapply maintains_bind; [apply keeps_get_character_message|]. intros c _.
    label. tell.
    eapply maintains_bind; [now apply (Hadd _ _ u c Hd Hu)|]. intros _ _.
    now apply maintains_ret.
  - intros e h E. destruct e; simpl in E; inversion E; subst;
      try (tell; now apply maintains_ret).
    say. eapply maintains_bind; [apply keeps_initialize_char_ai|]. intros ok _.
    apply maintains_if; [apply maintains_raise | now apply maintains_ret].
Qed.

Lemma keeps_loop fuel :
  (forall w d u c,
     J w d -> can_speak g0 false (context_of (last3 (conversation_pairs d))) ->
     maintains K (add_message_pair u c) (fun _ => True)) ->
  maintains K (loop fuel) (fun _ => True).
Proof.
  intros Hadd. induction fuel as [|fuel IH]; simpl.
  - eapply maintains_bind; [apply keeps_get|]. intros s _.
    apply maintains_if; [apply maintains_pending | now apply maintains_ret].
  - eapply maintains_bind; [apply keeps_get|]. intros s _.
    apply maintains_if; [|now apply maintains_ret].
    eapply maintains_bind; [now apply keeps_loop_body|]. intros [|] _;
      [apply IH | now apply maintains_ret].
Qed.

Lemma keeps_finish : maintains K finish (fun _ => True).
Proof.
  unfold finish.
  eapply maintains_bind; [apply keeps_get|]. intros s _.
  eapply maintains_bind with (R' := fun _ => True).
  { apply maintains_if; [|now apply maintains_ret]. wait. now apply maintains_ret. }
  intros _ _.
  eapply maintains_bind; [apply keeps_save_conversation|]. intros _ _.
  eapply maintains_bind; [apply keeps_get|]. intros s' _. say.
  apply keeps_say.
Qed.

(** the two handlers of the [try] block of [run_generation] *)
Lemma keeps_run_handlers e h :
  match e with
  | KeyboardInterrupt =>
      Some (io (print (nl ++ "No problem, saving your progress before stopping!")))
  | _ =>
      if is_Exception e
      then Some (io (print_text ("Ran into a snag: " ++ exn_str e)))
      else None
  end = Some h ->
  maintains K h (fun _ => True).
Proof.
  intros E. destruct e; simpl in E; inversion E; subst;
    first [apply keeps_say | apply keeps_tell].
Qed.

(** the [try] block, given that once the opening user turn can return,
    appending and the loop are kept *)
Lemma keeps_run_body fuel :
  (can_speak g0 true [] ->
   (forall u c, maintains K (add_message_pair u c) (fun _ => True))
   /\ maintains K (loop fuel) (fun _ => True)) ->
  maintains K (run_body fuel) (fun _ => True).
Proof.
  intros H. unfold run_body. apply maintains_try.
  - eapply maintains_bind; [apply keeps_get|]. intros s _. tell.
    eapply maintains_bind; [apply keeps_get_user_message|]. intros u Hu. tell.
    destruct (H Hu) as [Hadd Hloop].
    label. tell. wait.
    eapply maintains_bind; [apply keeps_get_character_message|]. intros c _.
    label. tell.
    eapply maintains_bind; [apply Hadd|]. intros _ _. exact Hloop.
  - apply keeps_run_handlers.
Qed.

Lemma keeps_run_generation fuel :
  (can_speak g0 true [] ->
   (forall u c, maintains K (add_message_pair u c) (fun _ => True))
   /\ maintains K (loop fuel) (fun _ => True)) ->
  maintains K (run_generation fuel) (fun _ => True).
Proof.
  intros H. rewrite run_generation_eq.
  eapply maintains_bind; [apply keeps_initialize_char_ai|]. intros ok _.
  apply maintains_if; [apply keeps_say|].
  apply maintains_finally; [now apply keeps_run_body | apply keeps_finish].
Qed.

End Object.
Section ObjectInstances.

Lemma maintains_anything {S A} (m : M S A) :
  maintains (fun _ => True) m (fun _ => True).
Proof. intros s _. split; [exact I|]. now destruct (fst (m s)). Qed.

(** what does not depend on the state is kept *)
Lemma maintains_const {S A} (m : M S A) (P : Prop) :
  maintains (fun _ => P) m (fun _ => True).
Proof. intros s H. split; [exact H|]. now destruct (fst (m s)). Qed.

Lemma settled_refl g : settled g g.
Proof. now repeat split. Qed.

(** with a property that appending keeps, every method keeps the state of
    the run *)
Lemma keeps_run_generation_closed g0 (J : world -> Document -> Prop) fuel :
  (forall d msg, maintains (fun w => J w d) (print msg) (fun _ => True)) ->
  (forall d req, maintains (fun w => J w d) (await req) (fun _ => True)) ->
  (forall d d', maintains (fun w => J w d)
                          (BackupManager.save_data (backup_manager g0) d') (fun _ => True)) ->
  (forall p w d, J w d -> J w (append_pair p d)) ->
  maintains (holds g0 J) (run_body fuel) (fun _ => True)
  /\ maintains (holds g0 J) (run_generation fuel) (fun _ => True).
Proof.
  intros Jp Ja Js HD.
  assert (Hadd : forall u c, maintains (holds g0 J) (add_message_pair u c) (fun _ => True))
    by (intros; now apply keeps_add_message_pair).
  assert (Hloop : maintains (holds g0 J) (loop fuel) (fun _ => True))
    by (apply keeps_loop; auto).
  split; [apply keeps_run_body | apply keeps_run_generation]; auto.
Qed.

(** a run does not leave the object's settled attributes, whatever it is
    that a method does *)
Lemma settled_kept {A} (m : M state A) s :
  (forall g0, maintains (holds g0 (fun _ _ => True)) m (fun _ => True)) ->
  settled (self s) (self (snd (m s))).
Proof.
  intros H. destruct (H (self s) s) as [(K & _) _]; [|exact K].
  split; [apply settled_refl | exact Logic.I].
Qed.

Lemma init_character_name path w g w' :
  __init__ path w = (Ret g, w') -> character_name g = None.
Proof.
  unfold __init__. intros E.
  repeat (apply bind_inv in E; destruct E as (? & ? & _ & E)).
  inversion E; subst. reflexivity.
Qed.

(** what holds of the document when the constructor has set it and every
    method keeps it *)
Lemma reachable_document (D : Document -> Prop) :
  (forall c date, D (initial_conversation_data c date)) ->
  (forall p d, D d -> D (append_pair p d)) ->
  forall s, reachable s -> D (conversation_data (self s)).
Proof.
  intros D0 Dp.
  assert (T : forall {A} (m : M state A) s,
             (forall g0, maintains (holds g0 (fun _ d => D d)) m (fun _ => True)) ->
             D (conversation_data (self s)) ->
             D (conversation_data (self (snd (m s))))).
  { intros A m s0 H E. destruct (H (self s0) s0) as [(_ & K) _]; [|exact K].
    split; [apply settled_refl | exact E]. }
  assert (Any : forall {A} (m : M world A) d, maintains (fun _ : world => D d) m (fun _ => True))
    by (intros; apply maintains_const).
  induction 1 as [path w g w' E | s w _ IH | s fuel _ IH | s u c _ IH
                  | s _ IH | s _ IH | s b ctx _ IH | s depth ctx _ IH].
  - destruct (init_document _ _ _ _ E) as [date X]. simpl. rewrite X. apply D0.
  - exact IH.
  - apply T; auto. intros. apply keeps_run_generation_closed; auto.
  - apply T; auto. intros. apply keeps_add_message_pair; auto.
  - apply T; auto. intros. apply keeps_save_conversation; auto.
  - apply T; auto. intros. apply keeps_initialize_char_ai; auto.
  - apply T; auto. intros.
    eapply maintains_weaken; [apply keeps_get_user_message|]; auto.
  - apply T; auto. intros. apply keeps_get_character_message; auto.
Qed.

(** nothing assigns the attribute that [get_user_message] reads *)
Lemma reachable_character_name s : reachable s -> character_name (self s) = None.
Proof.
  assert (T : forall {A} (m : M state A) s,
             (forall g0, maintains (holds g0 (fun _ _ => True)) m (fun _ => True)) ->
             character_name (self s) = None ->
             character_name (self (snd (m s))) = None).
  { intros A m s0 H E. destruct (settled_kept m s0 H) as (_ & _ & _ & K). congruence. }
  induction 1 as [path w g w' E | s w _ IH | s fuel _ IH | s u c _ IH
                  | s _ IH | s _ IH | s b ctx _ IH | s depth ctx _ IH].
  - simpl. eapply init_character_name, E.
  - exact IH.
  - apply T; auto. intros. apply keeps_run_generation_closed; auto using maintains_anything.
  - apply T; auto. intros. apply keeps_add_message_pair; auto using maintains_anything.
  - apply T; auto. intros. apply keeps_save_conversation; auto using maintains_anything.
  - apply T; auto. intros. apply keeps_initialize_char_ai; auto using maintains_anything.
  - apply T; auto. intros.
    eapply maintains_weaken; [apply keeps_get_user_message|]; auto using maintains_anything.
  - apply T; auto. intros.
    apply keeps_get_character_message; auto using maintains_anything.
Qed.

(** the document as it is: every method but [add_message_pair] keeps it, and
    the loop never gets to [add_message_pair] *)
Lemma keeps_document_loop g0 (J : world -> Prop) d fuel :
  (forall msg, maintains J (print msg) (fun _ => True)) ->
  (forall req, maintains J (await req) (fun _ => True)) ->
  (forall d', maintains J (BackupManager.save_data (backup_manager g0) d') (fun _ => True)) ->
  character_name g0 = None -> conversation_pairs d <> [] ->
  maintains (holds g0 (fun w d' => J w /\ d = d')) (loop fuel) (fun _ => True).
Proof.
  assert (W : forall {A} (m : M world A) d',
             maintains J m (fun _ => True) ->
             maintains (fun w => J w /\ d = d') m (fun _ => True)).
  { intros A m d' H w [Hw E]. destruct (H w Hw) as [H1 _].
    split; [now split|]. now destruct (fst (m w)). }
  intros Jp Ja Js N P. apply keeps_loop; auto.
  intros w d' u c [_ <-] ([C|C] & _).
  - apply (f_equal (@length _)) in C. unfold context_of in C.
    rewrite length_map in C. apply length_zero_iff_nil in C.
    now apply last3_nonempty in C.
  - contradiction.
Qed.

Lemma append_pair_nonempty p d : conversation_pairs (append_pair p d) <> [].
Proof. simpl. intros E. now apply app_eq_nil in E as [_ E]. Qed.

Section OnePair.

Variable g0 : t.
Variable d0 : Document.
Hypothesis unset : character_name g0 = None.

Local Abbreviation K0 := (holds g0 (fun _ d => True /\ d0 = d)).
Local Abbreviation Q :=
  (holds g0 (fun _ d => d = d0 \/ exists p, d = append_pair p d0)).

Lemma one_pair_weaken s : K0 s -> Q s.
Proof. intros (H1 & _ & H3). split; [exact H1|]. now left. Qed.

Lemma leads_kept {A} (m : M state A) :
  maintains K0 m (fun _ => True) -> leads K0 m Q.
Proof. intros H s Hs. apply one_pair_weaken. now destruct (H s Hs). Qed.

Ltac kept := auto using maintains_anything, maintains_const.
Ltac step lem :=
  eapply leads_bind; [apply lem; kept | | exact one_pair_weaken].

(** a run of an object whose [character_name] is not set appends at most one
    pair *)
Lemma run_generation_one_pair fuel : leads K0 (run_generation fuel) Q.
Proof.
  rewrite run_generation_eq.
  step keeps_initialize_char_ai. intros ok _.
  apply leads_if; [apply leads_kept, keeps_say; kept|].
  apply leads_finally with (Q' := Q); [| |auto].
  2:{ eapply leads_maintains. apply keeps_finish; kept. }
  unfold run_body. apply leads_try with (Q' := Q); [| |auto].
  2:{ intros e h E. eapply leads_maintains. eapply keeps_run_handlers; eauto; kept. }
  step keeps_get. intros s0 _.
  step keeps_tell. intros _ _.
  step keeps_get_user_message. intros u _.
  step keeps_tell. intros _ _.
  step keeps_character_label. intros c1 _.
  step keeps_tell. intros _ _.
  step keeps_wait. intros _ _.
  step keeps_get_character_message. intros c _.
  step keeps_character_label. intros c2 _.
  step keeps_tell. intros _ _.
  intros s1 (H1 & _ & H3). unfold bind.
  rewrite add_message_pair_eq.
  destruct (save_conversation_eq (with_pair u c s1)) as (w1 & _ & ->).
  set (p := {| user := u; character := c;
               timestamp := strftime "%Y-%m-%d %H:%M:%S" (now (env s1)) |}).
  assert (K1 : holds g0 (fun _ d => True /\ append_pair p d0 = d)
                 {| self := self (with_pair u c s1);
                    env := snd (print (progress_line
                                  (conversation_data (self (with_pair u c s1)))) w1) |}).
  { split; [exact H1|]. split; [exact Logic.I|]. simpl. now rewrite <- H3. }
  pose proof (keeps_document_loop g0 (fun _ => True) (append_pair p d0) fuel
                (fun _ => maintains_anything _) (fun _ => maintains_anything _)
                (fun _ => maintains_anything _) unset
                (append_pair_nonempty p d0) _ K1) as [(L1 & _ & L3) _].
  split; [exact L1|]. right. now exists p.
Qed.

End OnePair.

(** a run that cannot make its opening user message keeps the document *)
Lemma keeps_document_run g0 d fuel :
  ~ can_speak g0 true [] ->
  maintains (holds g0 (fun _ d' => d = d')) (run_generation fuel) (fun _ => True).
Proof.
  intros N. apply keeps_run_generation; auto using maintains_const.
  intros C. contradiction.
Qed.

End ObjectInstances.

(** C9: in every reachable state [metadata.pair_count] is the length of
    [conversation_pairs]: the constructor sets 0 and the empty list, and
    [add_message_pair], the one method that changes either, appends one pair
    and adds one to the counter. *)
Theorem pair_count_is_length (s : state) :
  reachable s ->
  pair_count (metadata (conversation_data (self s)))
  = Z.of_nat (length (conversation_pairs (conversation_data (self s)))).
Proof.
  intros R. change (counted (conversation_data (self s))).
  revert s R. apply reachable_document.
  - intros c date. apply counted_initial.
  - intros p d. apply counted_append_pair.
Qed.

Lemma sample_run_reachable : reachable sample_run.
Proof.
  apply reach_run_generation.
  apply (reach_init (join "" "config.json") (configured sample_settings sample_answers)
           (self (started (join "" "config.json")
                          (configured sample_settings sample_answers)))
           (env (started (join "" "config.json")
                         (configured sample_settings sample_answers)))).
  vm_compute. reflexivity.
Defined.

Lemma pair_count_is_length_witness :
  reachable sample_run
  /\ pair_count (metadata (conversation_data (self sample_run)))
     = Z.of_nat (length (conversation_pairs (conversation_data (self sample_run)))).
Proof.
  split; [exact sample_run_reachable|].
  apply (pair_count_is_length sample_run). exact sample_run_reachable.
Defined.

Example sample_run_pairs :
  map (fun p => (user p, character p))
      (conversation_pairs (conversation_data (self sample_run)))
  = [("hello", "hi there")].
Proof. vm_compute. reflexivity. Qed.

(* ================================================================== *)
(** * Normalisation of an utterance *)
(* ================================================================== *)

Section Text.

Lemma strip_prefixes_cons q qs x :
  strip_prefixes (q :: qs) x
  = strip_prefixes qs (if startswith (lower x) q
                       then strip (slice_from (String.length q) x) else x).
Proof. reflexivity. Qed.

Lemma strip_prefixes_unlabelled ps x : unlabelled ps x -> strip_prefixes ps x = x.
Proof.
  unfold unlabelled. induction ps as [|q qs IH]; intros H; [reflexivity|].
  simpl in H. apply andb_true_iff in H. destruct H as [H1 H2].
  rewrite strip_prefixes_cons. apply negb_true_iff in H1. rewrite H1. now apply IH.
Qed.

Lemma unlabelled_app ps qs x :
  unlabelled (ps ++ qs) x <-> unlabelled ps x /\ unlabelled qs x.
Proof. unfold unlabelled. rewrite forallb_app. apply andb_true_iff. Qed.

Lemma clean_response_eq s n r :
  config_character (config (self s)) = Some (Some n) ->
  clean_response r s = (Ret (normalise n r), s).
Proof.
  intros H. unfold clean_response, bind, get, config_character_name. now rewrite H.
Qed.

Example strip_ex : strip "  User: hello  " = "User: hello".
Proof. reflexivity. Qed.

Example endswith_ex :
  endswith "conversation.json.17.bak" ".bak" = true
  /\ endswith "conversation.json.tmp" ".bak" = false.
Proof. split; reflexivity. Qed.

End Text.

(** C8 asks that the label of the speaker's own name be removed in its
    plain, bracketed and asterisk-wrapped forms.  For the character the
    labels are built from the name with the colon already appended, so the
    colon ends up inside the brackets: with the character named "Bot" the
    labels are [bot:], [*as bot:], [<bot:>] and [[bot:]].  A reply that
    starts with "[Bot]:" or "<Bot>:" is stored with its label, while the
    same brackets around the word "user" are removed, and so is the label
    with the colon inside.  The labels of the user side are those of the
    word "user", whatever the persona is called.  The example of the claim
    holds: "User: hello" becomes "hello". *)
Theorem bracketed_character_label_is_kept :
  let s := {| self := sample_generator (growing 0); env := fresh 0 |} in
  config_character (config (self s)) = Some (Some "Bot")
  /\ character_prefixes (lower "Bot" ++ ":") = ["bot:"; "*as bot:"; "<bot:>"; "[bot:]"]
  /\ clean_response "[Bot]: hi there" s = (Ret "[Bot]: hi there", s)
  /\ clean_response "<Bot>: hi there" s = (Ret "<Bot>: hi there", s)
  /\ clean_response "[bot:] hi there" s = (Ret "hi there", s)
  /\ clean_response "[User]: hi there" s = (Ret "hi there", s)
  /\ clean_response "<User>: hi there" s = (Ret "hi there", s)
  /\ clean_response "Bot: hi there" s = (Ret "hi there", s)
  /\ clean_response "*as Bot: hi there" s = (Ret "hi there", s)
  /\ clean_response "User: hello" s = (Ret "hello", s).
Proof. vm_compute. repeat split. Qed.

(** the same in a run: the persona is called Alice and the character Bot;
    the reply of each side comes back under the speaker's own name, the
    character's in brackets, and both are stored with their labels *)
Example own_name_label_is_kept :
  let s := snd (run_generation 3
                  (started (join "" "config.json")
                           (configured alice_settings alice_answers))) in
  name (user_persona (config (self s))) = "Alice"
  /\ config_character (config (self s)) = Some (Some "Bot")
  /\ map (fun p => (user p, character p))
         (conversation_pairs (conversation_data (self s)))
     = [("Alice: hello", "[Bot]: hi there")].
Proof. vm_compute. repeat split. Qed.

(* ================================================================== *)
(** * What a run can raise *)
(* ================================================================== *)

Section Throws.

Context {S : Type}.
Variable I : S -> Prop.

Lemma throws_ret {A} (a : A) Q : throws I (ret a) Q.
Proof. intros s Hs. now split. Qed.

Lemma throws_pending {A} Q : throws I (pending : M S A) Q.
Proof. intros s Hs. now split. Qed.

Lemma throws_raise {A} e (Q : exn -> Prop) : Q e -> throws I (raise e : M S A) Q.
Proof. intros H s Hs. now split. Qed.

Lemma throws_get Q : throws I get Q.
Proof. intros s Hs. now split. Qed.

Lemma throws_bind {A B} (m : M S A) (k : A -> M S B) Q :
  throws I m Q -> (forall a, throws I (k a) Q) -> throws I (bind m k) Q.
Proof.
  intros Hm Hk s Hs. unfold bind. destruct (Hm s Hs) as [H1 H2].
  destruct (m s) as [[a|e|] s']; simpl in *; auto. now apply Hk.
Qed.

Lemma throws_weaken {A} (m : M S A) (Q Q' : exn -> Prop) :
  throws I m Q -> (forall e, Q e -> Q' e) -> throws I m Q'.
Proof.
  intros Hm Hw s Hs. destruct (Hm s Hs) as [H1 H2]. split; auto.
  destruct (fst (m s)); auto.
Qed.

Lemma throws_if {A} (b : bool) (m1 m2 : M S A) Q :
  throws I m1 Q -> throws I m2 Q -> throws I (if b then m1 else m2) Q.
Proof. now destruct b. Qed.

Lemma throws_try {A} (body : M S A) handler Q' Q :
  throws I body Q' ->
  (forall e, Q' e -> match handler e with
                     | Some h => throws I h Q
                     | None => Q e
                     end) ->
  throws I (try_ body handler) Q.
Proof.
  intros Hb Hh s Hs. unfold try_. destruct (Hb s Hs) as [H1 H2].
  destruct (body s) as [[a|e|] s']; simpl in *; auto.
  specialize (Hh e H2). destruct (handler e) as [h|]; simpl; auto.
Qed.

Lemma throws_finally {A} (body : M S A) fin Q :
  throws I body Q -> throws I fin Q -> throws I (finally body fin) Q.
Proof.
  intros Hb Hf s Hs. unfold finally. destruct (Hb s Hs) as [H1 H2].
  destruct (body s) as [[a|e|] s']; simpl in *; auto;
    destruct (Hf s' H1) as [H3 H4];
    destruct (fin s') as [[u|e'|] s'']; simpl in *; auto.
Qed.

End Throws.
(* ================================================================== *)
(** * The session and the two turns *)
(* ================================================================== *)

Section Session.

Ltac session :=
  cbv beta iota zeta delta
    [initialize_char_ai try_ bind get io await set_self print print_text
     except_Exception ret raise set_char_ai_client set_char_ai_chat];
  cbn [self env fs now faults remote stdout calls console json_error fst snd
       outcome elapsed config char_ai_client char_ai_chat conversation_data
       output_file backup_manager character_name].

Ltac cases :=
  repeat (session;
          match goal with
          | |- context [match ?r with [] => _ | _ :: _ => _ end] =>
              is_var r; destruct r as [|[? [?|?]] r]
          | |- context [match ?k ?m with None => _ | Some _ => _ end] =>
              destruct (k m) eqn:?
          | |- context [if is_Exception ?e then _ else _] =>
              destruct (is_Exception e) eqn:?
          end).

Ltac report e :=
  exists e; split; [first [assumption | reflexivity] | apply in_or_app; right; now left].

Ltac blame e :=
  right; exists e; eexists; split; [first [assumption | reflexivity]|];
  split; [eassumption | reflexivity].

Ltac seen :=
  cbn [fst snd self env remote stdout];
  match goal with
  | |- True => exact Logic.I
  | |- _ /\ _ /\ (exists _, _) => repeat split; eauto
  | |- exists _, is_Exception _ = true /\ In _ _ =>
      first [ match goal with H : is_Exception ?e = true |- _ => report e end
            | match goal with
              | |- context [(_ ++ [_ ++ ?s])%list] => report (UnicodeEncodeError s)
              end ]
  | |- is_Exception _ = false \/ _ =>
      first [ left; assumption
            | match goal with H : is_Exception ?e = true |- _ => blame e end
            | match goal with
              | H : _ (_ ++ ?s) = Some _ |- _ => blame (UnicodeEncodeError s)
              end ]
  end.

Lemma initialize_char_ai_cases s :
  let r := initialize_char_ai s in
  same_object (self s) (self (snd r))
  /\ fs (env (snd r)) = fs (env s)
  /\ faults (env (snd r)) = faults (env s)
  /\ console (env (snd r)) = console (env s)
  /\ match fst r with
     | Ret true =>
         char_ai_client (self (snd r)) = true
         /\ char_ai_chat (self (snd r)) = true
         /\ exists a b c, remote (env s) = a :: b :: c :: remote (env (snd r))
     | Ret false =>
         exists e,
           is_Exception e = true
           /\ In (startup_report e) (stdout (env (snd r)))
     | Raise e =>
         is_Exception e = false
         \/ exists e' err, is_Exception e' = true
                           /\ console (env s) (startup_report e') = Some err
                           /\ e = UnicodeEncodeError err
     | Pending => True
     end.
Proof.
  destruct s as [g [l t fl r out cs k je]]. unfold same_object, startup_report.
  cases.
  all: split; [now repeat split|]; split; [reflexivity|]; split; [reflexivity|];
    split; [reflexivity|]; seen.
Qed.

(** the session cannot be opened: [run_generation] stops there *)
Lemma run_generation_not_started fuel s :
  fst (initialize_char_ai s) = Ret false ->
  run_generation fuel s
  = io (print "Cannot continue without Character AI connection")
       (snd (initialize_char_ai s)).
Proof.
  intros H. unfold run_generation, bind.
  destruct (initialize_char_ai s) as [[[|]|e|] s1]; simpl in H; try discriminate.
  reflexivity.
Qed.

(** the three calls answer and the console shows the two lines *)
Lemma initialize_char_ai_opens s ea eb ec l xa xb xc :
  remote (env s) = ea :: eb :: ec :: l ->
  outcome ea = Reply xa -> outcome eb = Reply xb -> outcome ec = Reply xc ->
  console (env s) ("Character AI: Logged in as @" ++ xb) = None ->
  console (env s) ("Character AI Greeting: " ++ xc) = None ->
  let r := initialize_char_ai s in
  let a := character_ai (config (self s)) in
  fst r = Ret true
  /\ char_ai_client (self (snd r)) = true
  /\ char_ai_chat (self (snd r)) = true
  /\ remote (env (snd r)) = l
  /\ calls (env (snd r))
     = (calls (env s)
        ++ [(get_client (token a), Reply xa); (fetch_me, Reply xb);
            (create_chat (character_id a), Reply xc)])%list.
Proof.
  destruct s as [g [fl t ft rm out cs k je]].
  cbn [self env remote console calls stdout fs config].
  intros -> Oa Ob Oc Kb Kc.
  session. rewrite Oa. session. rewrite Ob. session. rewrite Kb. session.
  rewrite Oc. session. rewrite Kc. session.
  repeat split. now rewrite <- !app_assoc.
Qed.

(** one of the three calls raises, the answers before it being replies *)
Lemma initialize_char_ai_fails s pre ev l e :
  remote (env s) = (pre ++ ev :: l)%list -> (length pre < 3)%nat ->
  Forall replied pre -> outcome ev = Fails e -> prints_all (env s) ->
  let r := initialize_char_ai s in
  remote (env (snd r)) = l
  /\ if is_Exception e
     then fst r = Ret false
          /\ exists lines,
               stdout (env (snd r))
               = (stdout (env s) ++ lines ++ [startup_report e])%list
     else fst r = Raise e.
Proof.
  destruct s as [g [fl t ft rm out cs k je]].
  cbn [self env remote console calls stdout fs config].
  intros -> Len Rep O P.
  assert (Pk : forall msg, k msg = None) by exact P. clear P.
  destruct pre as [|ea [|eb [|ec pre]]]; [| | |simpl in Len; lia];
    repeat match goal with
           | H : Forall replied (_ :: _) |- _ =>
               let x := fresh "x" in let X := fresh "X" in
               inversion H as [|? ? [x X] ?]; subst; clear H
           end;
    simpl app; session;
    repeat match goal with
           | X : outcome _ = Reply _ |- _ => rewrite X; clear X; session
           end;
    rewrite ?Pk; session; rewrite O; session;
    destruct (is_Exception e) eqn:E; session; rewrite ?Pk; session;
    (split; [reflexivity|]); try reflexivity;
    (split; [reflexivity|]).
  - now exists [].
  - now exists [].
  - eexists [_]. now rewrite <- app_assoc.
Qed.

(** X5: [initialize_char_ai] makes its three calls in order.  When the three
    answer and the console shows the two lines, it returns [True] with client
    and chat set, the three answers taken and the three requests recorded.
    When one of the calls raises, the answers before it being replies, it
    returns [False] after a report on that error if [except Exception]
    catches the error, and lets the error out if not.  It lets nothing else
    out but its failure to print the report, and it never touches the
    document, the settled attributes or the files. *)
Theorem initialize_char_ai_outcomes (s : state) :
  let r := initialize_char_ai s in
  let a := character_ai (config (self s)) in
  (same_object (self s) (self (snd r)) /\ fs (env (snd r)) = fs (env s))
  /\ (forall ea eb ec l xa xb xc,
        remote (env s) = ea :: eb :: ec :: l ->
        outcome ea = Reply xa -> outcome eb = Reply xb -> outcome ec = Reply xc ->
        console (env s) ("Character AI: Logged in as @" ++ xb) = None ->
        console (env s) ("Character AI Greeting: " ++ xc) = None ->
        fst r = Ret true
        /\ char_ai_client (self (snd r)) = true
        /\ char_ai_chat (self (snd r)) = true
        /\ remote (env (snd r)) = l
        /\ calls (env (snd r))
           = (calls (env s)
              ++ [(get_client (token a), Reply xa); (fetch_me, Reply xb);
                  (create_chat (character_id a), Reply xc)])%list)
  /\ (forall pre ev l e,
        remote (env s) = (pre ++ ev :: l)%list -> (length pre < 3)%nat ->
        Forall replied pre -> outcome ev = Fails e -> prints_all (env s) ->
        remote (env (snd r)) = l
        /\ if is_Exception e
           then fst r = Ret false
                /\ exists lines,
                     stdout (env (snd r))
                     = (stdout (env s) ++ lines ++ [startup_report e])%list
           else fst r = Raise e)
  /\ (forall e, fst r = Raise e ->
        is_Exception e = false
        \/ exists e' err, is_Exception e' = true
                          /\ console (env s) (startup_report e') = Some err
                          /\ e = UnicodeEncodeError err)
  /\ (fst r = Ret true ->
      char_ai_client (self (snd r)) = true
      /\ char_ai_chat (self (snd r)) = true
      /\ exists ea eb ec, remote (env s) = ea :: eb :: ec :: remote (env (snd r)))
  /\ (fst r = Ret false ->
      exists e, is_Exception e = true
                /\ In (startup_report e) (stdout (env (snd r)))).
Proof.
  intros r a.
  pose proof (initialize_char_ai_cases s) as (A & B & _ & _ & C). fold r in A, B, C.
  split; [now split|]. split; [|split; [|split; [|split]]].
  - intros ea eb ec l xa xb xc Hr Oa Ob Oc Kb Kc.
    exact (initialize_char_ai_opens s ea eb ec l xa xb xc Hr Oa Ob Oc Kb Kc).
  - intros pre ev l e Hr Len Rep O P.
    exact (initialize_char_ai_fails s pre ev l e Hr Len Rep O P).
  - intros e H. rewrite H in C. exact C.
  - intros H. rewrite H in C. exact C.
  - intros H. rewrite H in C. exact C.
Qed.

Lemma initialize_char_ai_outcomes_witness :
  let s := {| self := sample_generator (growing 0);
              env := configured sample_settings sample_answers |} in
  let t := {| self := sample_generator (growing 0);
              env := configured sample_settings half_open_answers |} in
  (fst (initialize_char_ai s) = Ret true
   /\ char_ai_client (self (snd (initialize_char_ai s))) = true
   /\ char_ai_chat (self (snd (initialize_char_ai s))) = true
   /\ remote (env (snd (initialize_char_ai s)))
      = [said "User: hello"; said ""; said "Bot: hi there"]
   /\ calls (env (snd (initialize_char_ai s)))
      = [(get_client "t", Reply "client"); (fetch_me, Reply "me");
         (create_chat "c", Reply "Hello, traveller")])
  /\ (remote (env (snd (initialize_char_ai t))) = []
      /\ fst (initialize_char_ai t) = Ret false
      /\ exists lines,
           stdout (env (snd (initialize_char_ai t)))
           = (lines ++ ["Failed to initialize Character AI: no account"])%list).
Proof.
  intros s t.
  pose proof (initialize_char_ai_outcomes s) as (_ & Opens & _).
  pose proof (initialize_char_ai_outcomes t) as (_ & _ & Breaks & _).
  split.
  - apply (Opens (said "client") (said "me") (said "Hello, traveller") _
                 "client" "me" "Hello, traveller"); reflexivity.
  - destruct (Breaks [said "client"]
                    {| elapsed := 1000; outcome := Fails (Exception "no account") |}
                    [] (Exception "no account")) as (R & F & lines & L);
      [reflexivity | simpl; lia | | reflexivity | intros msg; reflexivity |].
    + constructor; [now exists "client" | constructor].
    + split; [exact R|]. split; [exact F|]. exists lines. exact L.
Defined.

Lemma throws_anything {S A} (m : M S A) :
  throws (fun _ => True) m (fun _ => True).
Proof. intros s _. split; [exact I|]. now destruct (fst (m s)). Qed.

Section Wrapped.

(** the world at the start of the turn: its console stays *)
Variable w0 : world.

Local Abbreviation on_console := (fun s : state => console (env s) = console w0).

Lemma throws_print_console msg Q : throws on_console (io (print msg)) Q.
Proof. intros s Hs. now split. Qed.

Lemma throws_await_console req : throws on_console (io (await req)) (fun _ => True).
Proof.
  intros [g w] Hs. unfold io, await. simpl in *.
  destruct (remote w) as [|ev l]; [now split|].
  destruct (outcome ev); now split.
Qed.

Lemma throws_clean_response_console x :
  throws on_console (clean_response x) (fun _ => True).
Proof.
  intros s Hs. unfold clean_response, bind, get, config_character_name.
  destruct (config_character (config (self s))) as [[n|]|]; now split.
Qed.

Lemma throws_initialize_wrapped :
  throws on_console initialize_char_ai (wrapped w0).
Proof.
  intros s Hs.
  pose proof (initialize_char_ai_cases s) as (_ & _ & _ & K & H). simpl in H.
  split; [now rewrite K|].
  destruct (fst (initialize_char_ai s)); auto.
  destruct H as [H|(e' & err & H1 & H2 & H3)]; [now left|].
  right. right. right. right. exists e', err. now rewrite <- Hs.
Qed.

Lemma throws_get_character_message_wrapped depth ctx :
  throws on_console (get_character_message depth ctx) (wrapped w0).
Proof.
  induction depth as [|depth IH]; cbn [get_character_message];
    [apply throws_pending|].
  eapply throws_bind; [apply throws_get|]. intros s.
  eapply throws_bind.
  { apply throws_if; [|apply throws_ret].
    eapply throws_bind; [apply throws_initialize_wrapped|]. intros ok.
    apply throws_if; [apply throws_raise; right; now left | apply throws_ret]. }
  intros _. apply throws_try with (Q' := fun _ => True).
  { eapply throws_bind; [apply throws_get|]. intros s'.
    eapply throws_bind; [apply throws_await_console|]. intros response.
    apply throws_clean_response_console. }
  intros e _.
  destruct e; cbn [is_Exception];
    try match goal with
        | |- throws _ (raise (Exception (_ ++ exn_str ?x))) _ =>
            apply throws_raise; right; right; right; left; exists x; now split
        end;
    try (now left).
  eapply throws_bind; [apply throws_print_console|]. intros _.
  eapply throws_bind; [apply throws_initialize_wrapped|]. intros ok.
  apply throws_if; [apply IH | apply throws_raise; right; right; now left].
Qed.

End Wrapped.

(** X7: whatever [get_character_message] raises is a cancellation, an
    interrupt or an exit, or an error the method has built: one of its two
    fixed errors, or [Exception] around the text of the error it caught.
    The one other thing it lets out is the failure of [initialize_char_ai] to
    print its report.  [SessionClosedError] never comes out, and the error
    built around the text of another differs from that other. *)
Theorem get_character_message_wraps_errors
  (depth : nat) (recent_pairs : context) (s : state) (e : exn) :
  fst (get_character_message depth recent_pairs s) = Raise e ->
  wrapped (env s) e
  /\ (forall msg, e <> SessionClosedError msg)
  /\ (forall e', e = Exception ("Character AI error: " ++ exn_str e') -> e <> e').
Proof.
  intros H.
  destruct (throws_get_character_message_wrapped (env s) depth recent_pairs s eq_refl)
    as [_ T].
  rewrite H in T. split; [exact T|]. split.
  - intros msg ->.
    destruct T as [T|[T|[T|[(e' & _ & T)|(e' & err & _ & _ & T)]]]]; discriminate.
  - intros e' -> E. destruct e'; try discriminate E. inversion E as [L].
    apply (f_equal String.length) in L. simpl in L. lia.
Qed.

Lemma get_character_message_wraps_errors_witness :
  let s := {| self := sample_generator (growing 0);
              env := configured sample_settings broken_answers |} in
  fst (get_character_message 1 [] s)
  = Raise (Exception "Character AI error: connection reset")
  /\ wrapped (env s) (Exception "Character AI error: connection reset")
  /\ (forall msg, Exception "Character AI error: connection reset"
                  <> SessionClosedError msg)
  /\ (forall e', Exception "Character AI error: connection reset"
                 = Exception ("Character AI error: " ++ exn_str e') ->
                 Exception "Character AI error: connection reset" <> e').
Proof.
  intros s. split; [vm_compute; reflexivity|].
  apply (get_character_message_wraps_errors 1 [] s). vm_compute. reflexivity.
Defined.

Ltac turn :=
  cbv beta iota zeta delta
    [initialize_char_ai finish try_ bind get io await set_self print print_text
     except_Exception ret raise negb orb
     set_char_ai_client set_char_ai_chat];
  cbn [self env fs now faults remote stdout calls console json_error fst snd
       outcome elapsed config char_ai_client char_ai_chat conversation_data
       output_file backup_manager character_name is_Exception].

(** X8: when the character-side call finds the session closed and the
    session opens again, the same message is sent a second time, to the same
    character, and the normalised reply to it is returned: the calls made
    are the first [send_message], the three calls that open the session, and
    [send_message] again with the last user message of the context.  The
    document and the files are as they were. *)
Theorem expired_session_is_reopened
  (depth : nat) (ctx : context) (s : state) (n m : string)
  (ev a b c d : event) (l : list event) (xa xb xc y : string) :
  char_ai_client (self s) = true -> char_ai_chat (self s) = true ->
  config_character (config (self s)) = Some (Some n) ->
  prints_all (env s) ->
  remote (env s) = ev :: a :: b :: c :: d :: l ->
  outcome ev = Fails (SessionClosedError m) ->
  outcome a = Reply xa -> outcome b = Reply xb -> outcome c = Reply xc ->
  outcome d = Reply y ->
  let service := character_ai (config (self s)) in
  let message := last_user_message ctx in
  exists s',
    get_character_message (S (S depth)) ctx s = (Ret (normalise n y), s')
    /\ calls (env s')
       = (calls (env s)
          ++ [(send_message (character_id service) message,
               Fails (SessionClosedError m));
              (get_client (token service), Reply xa);
              (fetch_me, Reply xb);
              (create_chat (character_id service), Reply xc);
              (send_message (character_id service) message, Reply y)])%list
    /\ remote (env s') = l
    /\ same_object (self s) (self s')
    /\ fs (env s') = fs (env s)
    /\ In "Character AI session expired, attempting to reconnect..." (stdout (env s')).
Proof.
  destruct s as [[cfg cl ch cd out bm cn] [fl t ft r o cs k je]].
  cbn [self env remote console calls stdout fs config char_ai_client char_ai_chat].
  intros -> -> C P -> O Oa Ob Oc Od.
  assert (Pk : forall msg, k msg = None) by exact P. clear P.
  cbn [get_character_message]. turn. rewrite O. turn. rewrite Oa. turn.
  rewrite Ob. turn. rewrite Pk. turn. rewrite Oc. turn. rewrite Pk. turn.
  rewrite Od. turn.
  rewrite clean_response_eq with (n := n) by exact C.
  eexists. split; [reflexivity|]. unfold same_object.
  cbn [self env remote console calls stdout fs config conversation_data].
  split; [now rewrite <- !app_assoc|]. split; [reflexivity|].
  split; [now repeat split|]. split; [reflexivity|].
  apply in_or_app. left. apply in_or_app. left.
  apply in_or_app. right. now left.
Qed.

Lemma expired_session_is_reopened_witness :
  let s := {| self := connected_generator (growing 0);
              env := configured sample_settings expired_answers |} in
  exists s',
    get_character_message 2 [("hello", "")] s = (Ret "welcome back", s')
    /\ calls (env s')
       = [(send_message "c" "hello", Fails (SessionClosedError ""));
          (get_client "t", Reply "client");
          (fetch_me, Reply "me");
          (create_chat "c", Reply "Hello again");
          (send_message "c" "hello", Reply "Bot: welcome back")]
    /\ remote (env s') = []
    /\ same_object (self s) (self s')
    /\ fs (env s') = fs (env s)
    /\ In "Character AI session expired, attempting to reconnect..." (stdout (env s')).
Proof.
  intros s.
  apply (expired_session_is_reopened 0 [("hello", "")] s "Bot" ""
           {| elapsed := 1000; outcome := Fails (SessionClosedError "") |}
           (said "client") (said "me") (said "Hello again") (said "Bot: welcome back")
           [] "client" "me" "Hello again" "Bot: welcome back");
    first [reflexivity | intros msg; reflexivity].
Defined.

(** X10: the [finally] clause of [run_generation] closes the session before
    it saves: when closing raises, the clause raises the same and the final
    save is not attempted; no file is written and nothing is printed. *)
Theorem failed_close_skips_final_save (s : state) (ev : event) (l : list event) (e : exn) :
  char_ai_client (self s) = true ->
  remote (env s) = ev :: l -> outcome ev = Fails e ->
  exists s',
    finish s = (Raise e, s')
    /\ self s' = self s /\ fs (env s') = fs (env s) /\ stdout (env s') = stdout (env s)
    /\ remote (env s') = l.
Proof.
  destruct s as [g [fl t ft r o cs k je]]. simpl. intros C -> O.
  turn. rewrite C. turn. rewrite O. eexists. split; [reflexivity|]. now repeat split.
Qed.

Lemma failed_close_skips_final_save_witness :
  let s := {| self := connected_generator (growing 1);
              env := configured sample_settings unclosable_answers |} in
  exists s',
    finish s = (Raise (OSError "connection reset"), s')
    /\ self s' = self s /\ fs (env s') = fs (env s) /\ stdout (env s') = stdout (env s)
    /\ remote (env s') = [].
Proof.
  intros s.
  apply (failed_close_skips_final_save s
           {| elapsed := 1000; outcome := Fails (OSError "connection reset") |}
           [] (OSError "connection reset")); reflexivity.
Defined.

End Session.
Section Pieces.

Lemma part_of_refl x : part_of x x.
Proof. exists "", "". simpl. induction x; simpl; congruence. Qed.

Lemma part_of_trans x y z : part_of x y -> part_of y z -> part_of x z.
Proof.
  intros (a & b & ->) (c & d & ->). exists (c ++ a), (b ++ d).
  now rewrite !append_assoc_string.
Qed.

Lemma lstrip_part x : part_of (lstrip x) x.
Proof.
  induction x as [|c r IH]; simpl; [apply part_of_refl|].
  destruct (isspace c); [|apply part_of_refl].
  destruct IH as (a & b & E). exists (String c a), b. simpl. now rewrite <- E.
Qed.

Lemma rstrip_prefix x : exists b, x = rstrip x ++ b.
Proof.
  induction x as [|c r [b E]]; simpl; [now exists ""|].
  destruct (rstrip r) as [|c' r'].
  - simpl in E. subst b. destruct (isspace c); [now exists (String c r)|now exists r].
  - exists b. simpl in *. now rewrite <- E.
Qed.

Lemma rstrip_part x : part_of (rstrip x) x.
Proof. destruct (rstrip_prefix x) as [b E]. now exists "", b. Qed.

Lemma strip_part x : part_of (strip x) x.
Proof.
  unfold strip. eapply part_of_trans; [apply rstrip_part | apply lstrip_part].
Qed.

Lemma slice_from_part k x : part_of (slice_from k x) x.
Proof.
  revert x. induction k as [|k IH]; intros x; [apply part_of_refl|].
  destruct x as [|c r]; simpl; [apply part_of_refl|].
  destruct (IH r) as (a & b & E). exists (String c a), b. simpl. now rewrite <- E.
Qed.

Lemma strip_prefixes_part ps x : part_of (strip_prefixes ps x) x.
Proof.
  revert x. induction ps as [|q qs IH]; intros x; [apply part_of_refl|].
  rewrite strip_prefixes_cons. eapply part_of_trans; [apply IH|].
  destruct (startswith (lower x) q); [|apply part_of_refl].
  eapply part_of_trans; [apply strip_part | apply slice_from_part].
Qed.

Lemma normalise_part n r : part_of (normalise n r) r.
Proof.
  unfold normalise.
  eapply part_of_trans; [apply strip_prefixes_part|].
  eapply part_of_trans; [apply strip_prefixes_part | apply strip_part].
Qed.

End Pieces.
(* ================================================================== *)
(** * The files of a run *)
(* ================================================================== *)

Section RunFiles.

Lemma own_file_false self p :
  own_file self p = false ->
  path_eqb (BackupManager.base_filename self) p = false
  /\ path_eqb (BackupManager.temp_filename self) p = false
  /\ (forall f, endswith f ".bak" = true ->
                path_eqb (join (BackupManager.backup_dir self) f) p = false).
Proof.
  unfold own_file. intros H.
  apply orb_false_iff in H. destruct H as [H H3].
  apply orb_false_iff in H. destruct H as [H1 H2].
  rewrite (path_eqb_sym _ p), (path_eqb_sym _ p). repeat split; auto.
  intros f Hf. apply path_eqb_neq. intros <-. simpl in H3.
  now rewrite String.eqb_refl, Hf in H3.
Qed.

(** a save leaves every file alone that is not one of its own *)
Lemma save_data_keeps_file self p v d :
  own_file self p = false ->
  maintains (fun w => lookup p (fs w) = v) (BackupManager.save_data self d) (fun _ => True).
Proof.
  intros H. destruct (own_file_false self p H) as (H1 & H2 & H3).
  apply maintains_save_data with (touchable := fun q => path_eqb q p = false); auto.
  - intros w q f T E. simpl. now rewrite lookup_store_neq.
  - intros w q T E. simpl. now rewrite lookup_delete_neq.
Qed.

Lemma await_keeps_files (I : list (path * file) -> list bool -> Prop) req :
  maintains (fun w => I (fs w) (faults w)) (await req) (fun _ => True).
Proof.
  intros w H. unfold await. destruct (remote w) as [|ev l]; simpl; auto.
  destruct (outcome ev); simpl; auto.
Qed.

Lemma print_keeps_files (I : list (path * file) -> list bool -> Prop) msg :
  maintains (fun w => I (fs w) (faults w)) (print msg) (fun _ => True).
Proof. intros w H. now split. Qed.

(** X14: a run writes, renames and removes only the files of its store: the
    output file, its temporary file and the [.bak] entries of the backup
    directory.  Every other file, the configuration file among them, is at
    the end as it was at the start. *)
Theorem run_touches_only_its_files (fuel : nat) (s : state) (p : path) :
  own_file (backup_manager (self s)) p = false ->
  lookup p (fs (env (snd (run_generation fuel s)))) = lookup p (fs (env s)).
Proof.
  intros H.
  destruct (keeps_run_generation_closed (self s)
              (fun w _ => lookup p (fs w) = lookup p (fs (env s))) fuel)
    as [_ K].
  - intros _ msg.
    apply (print_keeps_files (fun l _ => lookup p l = lookup p (fs (env s)))).
  - intros _ req.
    apply (await_keeps_files (fun l _ => lookup p l = lookup p (fs (env s)))).
  - intros _ d. now apply save_data_keeps_file.
  - auto.
  - destruct (K s) as [(_ & R) _]; [|exact R].
    split; [apply settled_refl | reflexivity].
Qed.

Lemma run_touches_only_its_files_witness :
  let s := started (join "" "config.json") (configured sample_settings long_answers) in
  lookup (join "" "config.json") (fs (env (snd (run_generation 5 s))))
  = lookup (join "" "config.json") (fs (env s)).
Proof.
  intros s. apply (run_touches_only_its_files 5 s (join "" "config.json")).
  vm_compute. reflexivity.
Defined.

(** a save when no call fails leaves a world in which no call fails *)
Lemma save_data_keeps_unfailing self d :
  maintains unfailing (BackupManager.save_data self d) (fun _ => True).
Proof.
  intros w Q. destruct (save_data_unfailing self d w Q) as (w' & -> & _ & _ & Q' & _).
  now split.
Qed.

(** the [finally] clause, when it returns and no file-system call fails,
    leaves the document in the output file *)
Lemma finish_persists g0 s u s' :
  output_file g0 = BackupManager.base_filename (backup_manager g0) ->
  holds g0 (fun w _ => unfailing w) s ->
  finish s = (Ret u, s') ->
  conversation_data (self s') = conversation_data (self s)
  /\ option_map data (lookup (output_file (self s')) (fs (env s')))
     = Some (Json (conversation_data (self s')))
  /\ lookup (BackupManager.temp_filename (backup_manager (self s'))) (fs (env s')) = None.
Proof.
  intros O K E. unfold finish in E.
  apply bind_inv in E. destruct E as (s0 & s1 & E0 & E). inversion E0; subst s0 s1.
  apply bind_inv in E. destruct E as ([] & s2 & E1 & E).
  assert (K2 : holds g0 (fun w _ => unfailing w) s2
               /\ conversation_data (self s2) = conversation_data (self s)).
  { destruct (char_ai_client (self s)).
    - unfold bind, io, await in E1. destruct s as [g w]. simpl in *.
      destruct K as (K1 & K2). simpl in *.
      destruct (remote w) as [|ev l]; [discriminate|].
      destruct (outcome ev); inversion E1; subst.
      split; [split; [exact K1 | exact K2] | reflexivity].
    - inversion E1; subst. now split. }
  destruct K2 as [((S1 & S2 & S3 & S4) & Q2) D2].
  apply bind_inv in E. destruct E as ([] & s3 & E2 & E).
  destruct (save_conversation_eq s2) as (w1 & Ew & Es). rewrite Es in E2.
  inversion E2; subst s3. clear E2 Es.
  destruct (save_data_unfailing (backup_manager (self s2)) (conversation_data (self s2))
              (env s2) Q2) as (w' & Ew' & B & T & _).
  rewrite Ew in Ew'. inversion Ew'; subst w'.
  unfold bind, get, io, print in E. simpl in E. inversion E; subst s'. simpl.
  rewrite S2, O, <- S3, B, T. now repeat split.
Qed.

(** X15: when no file-system call fails, a run whose session opened and
    which has returned leaves the document it ends with in the output file,
    and no temporary file. *)
Theorem run_ends_with_document_on_disk (fuel : nat) (s s' : state) :
  faults (env s) = [] ->
  output_file (self s) = BackupManager.base_filename (backup_manager (self s)) ->
  fst (initialize_char_ai s) = Ret true ->
  run_generation fuel s = (Ret tt, s') ->
  option_map data (lookup (output_file (self s')) (fs (env s')))
  = Some (Json (conversation_data (self s')))
  /\ lookup (BackupManager.temp_filename (backup_manager (self s'))) (fs (env s')) = None.
Proof.
  intros Q O I E.
  set (K := holds (self s) (fun w (_ : Document) => unfailing w)).
  assert (Jp : forall (d : Document) msg, maintains unfailing (print msg) (fun _ => True))
    by (intros; apply (print_keeps_files (fun _ fl => fl = []))).
  assert (Ja : forall (d : Document) req, maintains unfailing (await req) (fun _ => True))
    by (intros; apply (await_keeps_files (fun _ fl => fl = []))).
  assert (Js : forall d d' : Document,
             maintains unfailing
                       (BackupManager.save_data (backup_manager (self s)) d')
                       (fun _ => True))
    by (intros; apply save_data_keeps_unfailing).
  assert (K0 : K s) by (split; [apply settled_refl | exact Q]).
  rewrite run_generation_eq in E. unfold bind in E.
  pose proof (keeps_initialize_char_ai (self s) (fun w _ => unfailing w) Jp Ja s K0)
    as [K1 _].
  destruct (initialize_char_ai s) as [[[|]|e|] s1]; simpl in I; try discriminate.
  simpl in E, K1. apply finally_inv in E. destruct E as [_ [u E]].
  destruct (keeps_run_generation_closed (self s) (fun w _ => unfailing w) fuel)
    as [Kb _]; auto.
  destruct (Kb s1 K1) as [K2 _].
  destruct (finish_persists (self s) _ _ _ O K2 E) as (_ & B & T). now split.
Qed.

Lemma run_ends_with_document_on_disk_witness :
  let s := started (join "" "config.json")
                   (configured sample_settings long_answers) in
  let s' := snd (run_generation 3 s) in
  option_map data (lookup (output_file (self s')) (fs (env s')))
  = Some (Json (conversation_data (self s')))
  /\ lookup (BackupManager.temp_filename (backup_manager (self s'))) (fs (env s')) = None.
Proof.
  intros s s'. apply (run_ends_with_document_on_disk 3 s s'); vm_compute; reflexivity.
Defined.

End RunFiles.

(* ================================================================== *)
(** * The constructor and the program *)
(* ================================================================== *)

Section Constructor.

Lemma init_eq path :
  __init__ path
  = (config <- load_config path ;;
     os_makedirs "datasets" ;;
     os_makedirs "cache" ;;
     date <- datetime_now_strftime "%Y-%m-%d %H:%M:%S" ;;
     let conversation_data := initial_conversation_data config date in
     stamp <- datetime_now_strftime "%Y%m%d_%H%M%S" ;;
     let output_file := join "datasets" ("conversation_" ++ stamp ++ ".json") in
     backup_manager <-
       BackupManager.__init__ output_file (pipeline_max_backups (pipeline config)) ;;
     print ("Ready to generate "
            ++ str_of_int (target_message_count (pipeline config))
            ++ " message pairs!") ;;
     character <- config_character_name config ;;
     print_text ("Character: " ++ character) ;;
     print_text ("Scenario: " ++ config_scenario config) ;;
     ret {| config := config; char_ai_client := false; char_ai_chat := false;
            conversation_data := conversation_data; output_file := output_file;
            backup_manager := backup_manager; character_name := None |}).
Proof. reflexivity. Qed.

Lemma print_text_inv msg w u w' :
  print_text msg w = (Ret u, w') -> w' = snd (print msg w).
Proof.
  unfold print_text. destruct (console w msg); [discriminate|].
  intros E. now rewrite E.
Qed.

Lemma fault_undisturbed msg w r w' : fault msg w = (r, w') -> undisturbed w w'.
Proof.
  unfold fault. destruct (faults w) as [|[] l]; intros E; inversion E; now repeat split.
Qed.

Lemma undisturbed_trans w1 w2 w3 :
  undisturbed w1 w2 -> undisturbed w2 w3 -> undisturbed w1 w3.
Proof. intros (A & B & C) (A' & B' & C'). repeat split; congruence. Qed.

(** the configuration the constructor settles on is the defaults, or what
    the file holds; in the second case no file was written *)
Lemma load_config_cases path w cfg w1 :
  load_config path w = (Ret cfg, w1) ->
  cfg = default_config
  \/ (exists f, lookup path (fs w) = Some f /\ cfg = loaded f) /\ undisturbed w w1.
Proof.
  destruct w as [l t fl r out cs k je].
  unfold load_config, try_, bind, os_path_exists, json_load, open_w,
    json_dump_config, fault, print, except_Exception, ret, raise.
  cbn [fs now faults remote stdout calls console json_error set_fs set_faults].
  destruct (lookup path l) as [f|] eqn:L.
  - destruct f as [d m].
    destruct fl as [|[] fl']; cbn; rewrite ?L; cbn;
      try (intros E; inversion E; now left);
      (destruct d; cbn; intros E; inversion E; subst;
       first [now left
             | right; split; [eexists; split; reflexivity | now repeat split]]).
  - destruct fl as [|[] fl']; cbn; try (intros E; inversion E; now left);
      try discriminate;
      destruct fl' as [|[] fl'']; cbn; try (intros E; inversion E; now left);
      discriminate.
Qed.

(** X16: when the constructor returns, the configuration file was there and
    was read, and it names the character; the session attributes and
    [character_name] are unset, the document is empty with the configured
    target, the output file is named after the second in [datasets], the
    store is built over it with the configured bound; no file was written
    and no collaborator was called. *)
Theorem constructor_result (path : path) (w : world) (g : t) (w' : world) :
  __init__ path w = (Ret g, w') ->
  (exists f, lookup path (fs w) = Some f /\ config g = loaded f)
  /\ (exists n, config_character (config g) = Some (Some n))
  /\ char_ai_client g = false /\ char_ai_chat g = false /\ character_name g = None
  /\ conversation_data g
     = initial_conversation_data (config g) (strftime "%Y-%m-%d %H:%M:%S" (now w))
  /\ output_file g
     = join "datasets" ("conversation_" ++ strftime "%Y%m%d_%H%M%S" (now w) ++ ".json")
  /\ backup_manager g
     = {| BackupManager.base_filename := output_file g;
          BackupManager.max_backups := pipeline_max_backups (pipeline (config g));
          BackupManager.backup_dir := BackupManager.backup_dir_of (output_file g) |}
  /\ fs w' = fs w /\ remote w' = remote w /\ now w' = now w.
Proof.
  rewrite init_eq. intros E.
  apply bind_inv in E. destruct E as (cfg & w1 & E1 & E).
  apply bind_inv in E. destruct E as ([] & w2 & E2 & E).
  apply fault_undisturbed in E2.
  apply bind_inv in E. destruct E as ([] & w3 & E3 & E).
  apply fault_undisturbed in E3.
  apply bind_inv in E. destruct E as (date & w4 & E4 & E).
  inversion E4; subst date w4. clear E4.
  apply bind_inv in E. destruct E as (stamp & w4 & E4 & E).
  inversion E4; subst stamp w4. clear E4.
  apply bind_inv in E. destruct E as (bm & w5 & E5 & E).
  unfold BackupManager.__init__ in E5.
  apply bind_inv in E5. destruct E5 as ([] & w5' & E5 & E5').
  apply fault_undisturbed in E5. inversion E5'; subst bm w5'. clear E5'.
  apply bind_inv in E. destruct E as ([] & w6 & E6 & E).
  inversion E6; subst w6. clear E6.
  apply bind_inv in E. destruct E as (n & w7 & E7 & E).
  unfold config_character_name in E7.
  destruct (config_character cfg) as [[n'|]|] eqn:C; try discriminate.
  inversion E7; subst n' w7. clear E7.
  apply bind_inv in E. destruct E as ([] & w7 & E7 & E).
  apply print_text_inv in E7. subst w7.
  apply bind_inv in E. destruct E as ([] & w8 & E8 & E).
  apply print_text_inv in E8. subst w8.
  inversion E; subst g w'. clear E. cbn.
  apply load_config_cases in E1. destruct E1 as [->|[F U1]]; [discriminate|].
  pose proof (undisturbed_trans _ _ _ (undisturbed_trans _ _ _ U1 E2) E3) as (A & B & T).
  destruct E5 as (A5 & B5 & T5).
  rewrite T. repeat split; eauto; congruence.
Qed.

Lemma constructor_result_witness :
  let w := configured sample_settings sample_answers in
  let g := self (started (join "" "config.json") w) in
  let w' := env (started (join "" "config.json") w) in
  (exists f, lookup (join "" "config.json") (fs w) = Some f /\ config g = loaded f)
  /\ (exists n, config_character (config g) = Some (Some n))
  /\ char_ai_client g = false /\ char_ai_chat g = false /\ character_name g = None
  /\ conversation_data g
     = initial_conversation_data (config g) (strftime "%Y-%m-%d %H:%M:%S" (now w))
  /\ output_file g
     = join "datasets" ("conversation_" ++ strftime "%Y%m%d_%H%M%S" (now w) ++ ".json")
  /\ backup_manager g
     = {| BackupManager.base_filename := output_file g;
          BackupManager.max_backups := pipeline_max_backups (pipeline (config g));
          BackupManager.backup_dir := BackupManager.backup_dir_of (output_file g) |}
  /\ fs w' = fs w /\ remote w' = remote w /\ now w' = now w.
Proof.
  intros w g w'. apply (constructor_result (join "" "config.json") w g w').
  vm_compute. reflexivity.
Defined.

Ltac boot :=
  cbv beta iota zeta delta
    [program asyncio_run main __init__ BackupManager.__init__ try_ bind os_path_exists
     json_load json_dump_config open_w os_makedirs datetime_now_strftime
     fault print except_Exception config_character_name ret raise config_path];
  cbn [fs now faults remote stdout calls console json_error set_fs set_faults
       fst snd is_Exception data].

(** no configuration file: what the program leaves *)
Lemma program_bootstrap_world fuel argv w :
  faults w = [] -> lookup (config_path argv) (fs w) = None ->
  exists w',
    program fuel argv w = (Raise (SystemExit 0), w')
    /\ faults w' = []
    /\ lookup (config_path argv) (fs w')
       = Some {| data := ConfigJson default_settings; mtime := now w |}.
Proof.
  destruct w as [l t fl r out cs k je]. simpl. intros -> H.
  unfold program, main. fold (config_path argv).
  generalize dependent (config_path argv). intros p H.
  boot. rewrite H. boot.
  eexists. split; [reflexivity|]. boot. split; [reflexivity|].
  apply lookup_store_eq.
Qed.

(** a configuration that names no character: the constructor raises
    [KeyError], after the backup directory has been asked for and before any
    collaborator is called *)
Lemma program_without_character fuel argv w f :
  faults w = [] ->
  lookup (config_path argv) (fs w) = Some f ->
  (forall n, config_character (loaded f) <> Some (Some n)) ->
  exists key w',
    program fuel argv w = (Raise (KeyError key), w')
    /\ fs w' = fs w /\ remote w' = remote w.
Proof.
  destruct w as [l t fl r out cs k je], f as [d m]. simpl. intros -> H C.
  unfold program, main. fold (config_path argv).
  generalize dependent (config_path argv). intros p H.
  unfold loaded in C. cbn [data] in C.
  boot. rewrite H. boot. rewrite H. boot.
  destruct d as [|doc|doc|c|x]; boot;
    try (eexists _, _; split; [reflexivity|]; now split).
  destruct (config_character (fold_left apply_setting c default_config))
    as [[n|]|] eqn:E; boot.
  - now destruct (C n).
  - eexists _, _; split; [reflexivity|]; now split.
  - eexists _, _; split; [reflexivity|]; now split.
Qed.

End Constructor.

(* ================================================================== *)
(** * The opening exchange *)
(* ================================================================== *)

Section Exchange.

Variable g0 : t.
Variables n i st : string.
Hypothesis named : config_character (config g0) = Some (Some n).
Hypothesis keen : interests (user_persona (config g0)) = Some i.
Hypothesis styled : speaking_style (user_persona (config g0)) = Some st.

Ltac turn :=
  cbv beta iota zeta delta
    [initialize_char_ai get_user_message first_prompt persona_key
     conversation_history character_label clean_response config_character_name
     try_ bind get io await set_self print print_text
     except_Exception ret raise negb orb
     set_char_ai_client set_char_ai_chat];
  cbn [self env fs now faults remote stdout calls console json_error
       fst snd outcome elapsed
       config char_ai_client char_ai_chat conversation_data output_file
       backup_manager character_name is_Exception].

Lemma yields_say d c L msg :
  yields (poised g0 d c L) (io (print msg)) (fun _ => True) (poised g0 d c L).
Proof. intros [g w] H. eexists _, _. split; [reflexivity|]. split; [exact I | exact H]. Qed.

Lemma yields_tell d c L msg :
  yields (poised g0 d c L) (io (print_text msg)) (fun _ => True) (poised g0 d c L).
Proof.
  intros [g w] H. pose proof H as (_ & _ & _ & P & _). simpl in P.
  unfold io, print_text. simpl. rewrite (P msg).
  eexists _, _. split; [reflexivity|]. split; [exact I | exact H].
Qed.

Lemma yields_await d c ev L x req :
  outcome ev = Reply x ->
  yields (poised g0 d c (ev :: L)) (io (await req)) (eq x) (poised g0 d c L).
Proof.
  intros O [g [l t fl r out cs k je]] (H1 & H2 & H3 & P & H4). simpl in *. subst r.
  turn. rewrite O. eexists _, _. split; [reflexivity|]. split; [reflexivity|].
  split; [exact H1|]. split; [exact H2|]. split; [reflexivity|]. split; [exact P | exact H4].
Qed.

Lemma yields_initialize_char_ai d a b c L xa xb xc :
  outcome a = Reply xa -> outcome b = Reply xb -> outcome c = Reply xc ->
  yields (poised g0 d false (a :: b :: c :: L)) initialize_char_ai (eq true)
         (poised g0 d true L).
Proof.
  intros Oa Ob Oc [g [l t fl r out cs k je]] (H1 & H2 & H3 & P & H4).
  cbn [self env remote conversation_data] in *. subst r.
  assert (Pk : forall msg, k msg = None) by exact P.
  turn. rewrite Oa. turn. rewrite Ob. turn. rewrite Pk. turn. rewrite Oc. turn.
  rewrite Pk. turn.
  eexists _, _. split; [reflexivity|]. split; [reflexivity|].
  split; [exact H1|]. split; [exact H2|]. split; [reflexivity|].
  split; [exact P | now split].
Qed.

Lemma yields_clean_response d c L x :
  yields (poised g0 d c L) (clean_response x) (eq (normalise n x)) (poised g0 d c L).
Proof.
  intros s H. exists (normalise n x), s. split; [|now split].
  apply clean_response_eq. destruct H as ((-> & _) & _). exact named.
Qed.

Lemma yields_character_label d c L :
  yields (poised g0 d c L) character_label (eq n) (poised g0 d c L).
Proof.
  intros s H. exists n, s. split; [|now split].
  unfold character_label, bind, get, config_character_name.
  destruct H as ((-> & _) & _). now rewrite named.
Qed.

Lemma yields_get_user_message d c ev L x :
  outcome ev = Reply x ->
  yields (poised g0 d c (ev :: L)) (get_user_message true [])
         (eq (normalise n x)) (poised g0 d c L).
Proof.
  intros O [g [l t fl r out cs k je]] (H1 & H2 & H3 & P & H4).
  cbn [self env remote conversation_data] in *. subst r.
  destruct H1 as (Hc & Ho & Hb & Hn).
  turn. rewrite Hc, keen, styled. turn. rewrite O. turn. rewrite Hc, named.
  eexists _, _. split; [reflexivity|]. split; [reflexivity|].
  split; [now repeat split|]. split; [exact H2|]. split; [reflexivity|].
  split; [exact P | exact H4].
Qed.

Lemma yields_get_character_message d ev L y depth ctx :
  outcome ev = Reply y ->
  yields (poised g0 d true (ev :: L)) (get_character_message (S depth) ctx)
         (eq (normalise n y)) (poised g0 d true L).
Proof.
  intros O [g [l t fl r out cs k je]] (H1 & H2 & H3 & P & H4).
  cbn [self env remote conversation_data char_ai_client char_ai_chat] in *. subst r.
  destruct H1 as (Hc & Ho & Hb & Hn). destruct (H4 eq_refl) as [C1 C2].
  cbn [get_character_message]. turn. rewrite C1, C2. turn. rewrite O. turn.
  rewrite Hc, named.
  eexists _, _. split; [reflexivity|]. split; [reflexivity|].
  split; [now repeat split|]. split; [exact H2|]. split; [reflexivity|].
  split; [exact P | exact H4].
Qed.

Lemma yields_add_message_pair d c L u ch :
  yields (poised g0 d c L) (add_message_pair u ch) (fun _ => True)
         (fun s' => exists ts,
                      poised g0 (append_pair {| user := u; character := ch;
                                                timestamp := ts |} d) c L s').
Proof.
  intros s (H1 & H2 & H3 & P & H4). rewrite add_message_pair_eq.
  destruct (save_conversation_eq (with_pair u ch s)) as (w1 & E1 & ->).
  eexists _, _. split; [reflexivity|]. split; [exact I|].
  exists (strftime "%Y-%m-%d %H:%M:%S" (now (env s))).
  pose proof (frame_save_data (backup_manager (self (with_pair u ch s)))
                (conversation_data (self (with_pair u ch s)))
                (env (with_pair u ch s))) as (F & _ & Fk).
  rewrite E1 in F, Fk. simpl in F, Fk.
  split; [exact H1|]. cbn. rewrite H2, F. split; [reflexivity|].
  split; [exact H3|]. split; [|exact H4].
  intros msg. unfold prints_all in P. cbn. rewrite Fk. apply P.
Qed.

Hypothesis unset : character_name g0 = None.

Variable d0 : Document.
Variables x y : string.

Local Abbreviation done :=
  (fun s' : state =>
     exists ts,
       holds g0 (fun _ d => True /\ append_pair {| user := normalise n x;
                                                  character := normalise n y;
                                                  timestamp := ts |} d0 = d) s').

Lemma done_kept {A} (m : M state A) :
  (forall d, maintains (holds g0 (fun _ d' => True /\ d = d')) m (fun _ => True)) ->
  leads done m done.
Proof. intros H s [ts K]. exists ts. now destruct (H _ s K). Qed.

Ltac kept := auto using maintains_anything, maintains_const.

(** the session opens and the opening exchange succeeds: the run stores that
    exchange and nothing else *)
Lemma run_generation_single_exchange fuel a b c ux sl cy L xa xb xc z :
  outcome a = Reply xa -> outcome b = Reply xb -> outcome c = Reply xc ->
  outcome ux = Reply x -> outcome sl = Reply z -> outcome cy = Reply y ->
  leads (poised g0 d0 false (a :: b :: c :: ux :: sl :: cy :: L))
        (run_generation (S fuel)) done.
Proof.
  intros Oa Ob Oc Ox Oz Oy. rewrite run_generation_eq.
  eapply leads_after; [now apply yields_initialize_char_ai with (1 := Oa) (2 := Ob) (3 := Oc)|].
  intros ok <-. cbn [negb].
  apply leads_finally with (Q' := done); [| |auto].
  2:{ apply done_kept. intros. apply keeps_finish; kept. }
  unfold run_body. apply leads_try with (Q' := done); [| |auto].
  2:{ intros e h E. apply done_kept. intros. eapply keeps_run_handlers; eauto; kept. }
  eapply leads_after; [apply yields_get|]. intros s0 _.
  eapply leads_after; [apply yields_tell|]. intros _ _.
  eapply leads_after; [now apply yields_get_user_message with (1 := Ox)|]. intros u <-.
  eapply leads_after; [apply yields_tell|]. intros _ _.
  eapply leads_after; [apply yields_character_label|]. intros c1 _.
  eapply leads_after; [apply yields_tell|]. intros _ _.
  eapply leads_after; [now apply yields_await with (1 := Oz)|]. intros _ _.
  eapply leads_after; [now apply yields_get_character_message with (1 := Oy)|].
  intros ch <-.
  eapply leads_after; [apply yields_character_label|]. intros c2 _.
  eapply leads_after; [apply yields_tell|]. intros _ _.
  eapply leads_after; [apply yields_add_message_pair|]. intros _ _.
  intros s1 (ts & H1 & H2 & _). exists ts.
  apply (keeps_document_loop g0 (fun _ => True) _ (S fuel)
           (fun _ => maintains_anything _) (fun _ => maintains_anything _)
           (fun _ => maintains_anything _) unset (append_pair_nonempty _ d0)).
  split; [exact H1|]. split; [exact I | now symmetry].
Qed.

End Exchange.

(* ================================================================== *)
(** * Further properties of the session and of the run *)
(* ================================================================== *)

(** X6: when the session cannot be opened, [run_generation] says so and
    returns: nothing is appended, no file is written (the final save is not
    attempted), and no further answer is awaited, so a client that
    [get_client] had delivered is not closed. *)
Theorem failed_startup_writes_nothing (fuel : nat) (s : state) :
  fst (initialize_char_ai s) = Ret false ->
  exists s',
    run_generation fuel s = (Ret tt, s')
    /\ conversation_data (self s') = conversation_data (self s)
    /\ fs (env s') = fs (env s)
    /\ remote (env s') = remote (env (snd (initialize_char_ai s)))
    /\ char_ai_client (self s') = char_ai_client (self (snd (initialize_char_ai s))).
Proof.
  intros H. rewrite (run_generation_not_started fuel s H).
  pose proof (initialize_char_ai_cases s) as ((_ & D) & F & _). simpl in *.
  eexists. split; [reflexivity|]. simpl. now repeat split.
Qed.

Lemma failed_startup_writes_nothing_witness :
  let s := {| self := sample_generator (growing 0);
              env := configured sample_settings half_open_answers |} in
  exists s',
    run_generation 3 s = (Ret tt, s')
    /\ conversation_data (self s') = conversation_data (self s)
    /\ fs (env s') = fs (env s)
    /\ remote (env s') = remote (env (snd (initialize_char_ai s)))
    /\ char_ai_client (self s') = char_ai_client (self (snd (initialize_char_ai s))).
Proof.
  intros s. apply (failed_startup_writes_nothing 3 s). vm_compute. reflexivity.
Defined.

(** X9: [clean_response] only trims: what it returns is a piece of the text
    it was given, and a text whose stripped form starts with none of the
    labels comes back stripped and otherwise as it was. *)
Theorem clean_response_only_trims (s : state) (n : string) :
  config_character (config (self s)) = Some (Some n) ->
  forall r, exists x,
    clean_response r s = (Ret x, s)
    /\ part_of x r
    /\ (unlabelled (user_prefixes ++ character_prefixes (lower n ++ ":")) (strip r) ->
        x = strip r).
Proof.
  intros H r. exists (normalise n r). split; [now apply clean_response_eq|].
  split; [apply normalise_part|]. intros U.
  apply unlabelled_app in U. destruct U as [Uu Uc]. unfold normalise.
  rewrite (strip_prefixes_unlabelled _ _ Uu). now apply strip_prefixes_unlabelled.
Qed.

Lemma clean_response_only_trims_witness :
  let s := {| self := sample_generator (growing 0); env := fresh 0 |} in
  exists x,
    clean_response "  hello  " s = (Ret x, s)
    /\ part_of x "  hello  "
    /\ (unlabelled (user_prefixes ++ character_prefixes (lower "Bot" ++ ":"))
                   (strip "  hello  ") ->
        x = strip "  hello  ").
Proof.
  intros s. apply (clean_response_only_trims s "Bot"). reflexivity.
Defined.

(** X11: the prompt of the opening message reads the keys [interests] and
    [speaking_style] of the persona, which the defaults do not have: with
    one of them missing, a run appends nothing, whatever the collaborators
    answer. *)
Theorem persona_without_keys_stores_nothing (fuel : nat) (s : state) :
  interests (user_persona (config (self s))) = None
  \/ speaking_style (user_persona (config (self s))) = None ->
  conversation_data (self (snd (run_generation fuel s))) = conversation_data (self s).
Proof.
  intros H.
  destruct (keeps_document_run (self s) (conversation_data (self s)) fuel) with (s := s)
    as [(_ & K) _].
  - intros (_ & S1 & S2). destruct H as [H|H]; [now apply S2 | contradiction].
  - split; [apply settled_refl | reflexivity].
  - now symmetry.
Qed.

Lemma persona_without_keys_stores_nothing_witness :
  let s := started (join "" "config.json") (configured bare_settings sample_answers) in
  config_character (config (self s)) = Some (Some "Bot")
  /\ conversation_data (self (snd (run_generation 3 s))) = conversation_data (self s).
Proof.
  intros s. split; [reflexivity|].
  apply (persona_without_keys_stores_nothing 3 s). left. reflexivity.
Defined.

(** X12: nothing assigns the attribute [character_name] that
    [get_user_message] reads when it is given pairs to recall, so no pass
    through the loop gets past its user turn: from a state the object can
    be in, a run appends at most one pair, whatever [target_message_count]
    is. *)
Theorem run_appends_at_most_one_pair (fuel : nat) (s : state) :
  reachable s ->
  let d := conversation_data (self s) in
  let d' := conversation_data (self (snd (run_generation fuel s))) in
  d' = d \/ exists p, d' = append_pair p d.
Proof.
  intros R d d'. apply reachable_character_name in R.
  destruct (run_generation_one_pair (self s) d R fuel s) as (_ & K).
  - split; [apply settled_refl | now split].
  - exact K.
Qed.

Lemma long_run_reachable :
  reachable (started (join "" "config.json") (configured sample_settings long_answers)).
Proof.
  apply (reach_init (join "" "config.json") (configured sample_settings long_answers)
           (self (started (join "" "config.json")
                          (configured sample_settings long_answers)))
           (env (started (join "" "config.json")
                         (configured sample_settings long_answers)))).
  vm_compute. reflexivity.
Defined.

Lemma run_appends_at_most_one_pair_witness :
  let s := started (join "" "config.json") (configured sample_settings long_answers) in
  reachable s
  /\ target_message_count (pipeline (config (self s))) = 3
  /\ (conversation_data (self (snd (run_generation 5 s))) = conversation_data (self s)
      \/ exists p, conversation_data (self (snd (run_generation 5 s)))
                   = append_pair p (conversation_data (self s))).
Proof.
  intros s. split; [exact long_run_reachable|]. split; [reflexivity|].
  apply (run_appends_at_most_one_pair 5 s). exact long_run_reachable.
Defined.

(** X13: on a console that shows every line, when the session opens and the
    opening exchange succeeds, the document at the end of the run is the one
    at its start with that one exchange appended: the normalised reply of
    the text-completion collaborator and the normalised reply of the
    character, whatever [target_message_count] is and whatever answers
    follow.  (The replies are printed before they are stored: a line the
    console cannot show ends the exchange before it is appended.) *)
Theorem single_exchange_is_all_a_run_stores
  (fuel : nat) (s : state) (n i st x y xa xb xc z : string)
  (a b c ux sl cy : event) (L : list event) :
  prints_all (env s) ->
  character_name (self s) = None ->
  config_character (config (self s)) = Some (Some n) ->
  interests (user_persona (config (self s))) = Some i ->
  speaking_style (user_persona (config (self s))) = Some st ->
  remote (env s) = a :: b :: c :: ux :: sl :: cy :: L ->
  outcome a = Reply xa -> outcome b = Reply xb -> outcome c = Reply xc ->
  outcome ux = Reply x -> outcome sl = Reply z -> outcome cy = Reply y ->
  exists ts,
    conversation_data (self (snd (run_generation (S fuel) s)))
    = append_pair {| user := normalise n x; character := normalise n y;
                     timestamp := ts |}
                  (conversation_data (self s)).
Proof.
  intros P N C I S R Oa Ob Oc Ox Oz Oy.
  destruct (run_generation_single_exchange (self s) n i st C I S N
              (conversation_data (self s)) x y fuel a b c ux sl cy L xa xb xc z
              Oa Ob Oc Ox Oz Oy s) as (ts & _ & _ & K).
  - split; [apply settled_refl|]. split; [reflexivity|]. split; [exact R|].
    split; [exact P | discriminate].
  - exists ts. now symmetry.
Qed.

Lemma single_exchange_is_all_a_run_stores_witness :
  let s := started (join "" "config.json") (configured sample_settings long_answers) in
  exists ts,
    conversation_data (self (snd (run_generation 5 s)))
    = append_pair {| user := normalise "Bot" "User: hello";
                     character := normalise "Bot" "Bot: hi there";
                     timestamp := ts |}
                  (conversation_data (self s)).
Proof.
  intros s.
  apply (single_exchange_is_all_a_run_stores 4 s "Bot" "chess" "plain"
           "User: hello" "Bot: hi there" "client" "me" "Hello, traveller" ""
           (said "client") (said "me") (said "Hello, traveller")
           (said "User: hello") (said "") (said "Bot: hi there")
           [said ""; said "User: and then?"; said ""; said "Bot: then nothing";
            said "closed"]);
    first [reflexivity | intros msg; reflexivity].
Defined.

(** X17: with a configuration file that is there and, once read, names no
    character (no ["character"] section, or one without ["name"], or a file
    that cannot be read, for which the defaults are taken), the constructor
    raises [KeyError]: the exit status is 1, no file has been written and no
    collaborator called. *)
Theorem missing_character_exits_with_error
  (fuel : nat) (argv : list string) (w : world) (f : file) :
  faults w = [] ->
  lookup (config_path argv) (fs w) = Some f ->
  (forall n, config_character (loaded f) <> Some (Some n)) ->
  exit_status (fst (program fuel argv w)) = Some 1
  /\ (exists key, fst (program fuel argv w) = Raise (KeyError key))
  /\ fs (snd (program fuel argv w)) = fs w
  /\ remote (snd (program fuel argv w)) = remote w.
Proof.
  intros Q H C.
  destruct (program_without_character fuel argv w f Q H C) as (key & w' & -> & F & R).
  simpl. repeat split; eauto.
Qed.

Lemma missing_character_exits_with_error_witness :
  let w := disk_with {| data := Other "not json"; mtime := 0 |} sample_answers in
  exit_status (fst (program 3 ["main.py"] w)) = Some 1
  /\ (exists key, fst (program 3 ["main.py"] w) = Raise (KeyError key))
  /\ fs (snd (program 3 ["main.py"] w)) = fs w
  /\ remote (snd (program 3 ["main.py"] w)) = remote w.
Proof.
  intros w.
  apply (missing_character_exits_with_error 3 ["main.py"] w
           {| data := Other "not json"; mtime := 0 |});
    [reflexivity | reflexivity | intros n; vm_compute; discriminate].
Defined.

(** X18: the starter configuration the program writes when it finds none
    names no character: started again on it, with nothing added, the
    program ends with exit status 1. *)
Theorem starter_config_does_not_start (fuel : nat) (argv : list string) (w : world) :
  faults w = [] ->
  lookup (config_path argv) (fs w) = None ->
  exit_status (fst (program fuel argv w)) = Some 0
  /\ exit_status (fst (program fuel argv (snd (program fuel argv w)))) = Some 1.
Proof.
  intros Q H.
  destruct (program_bootstrap_world fuel argv w Q H) as (w' & E & Q' & L).
  rewrite E. split; [reflexivity|]. simpl.
  destruct (program_without_character fuel argv w' _ Q' L) as (key & w'' & -> & _).
  - intros n. vm_compute. discriminate.
  - reflexivity.
Qed.

Lemma starter_config_does_not_start_witness :
  exit_status (fst (program 3 ["main.py"] (fresh 0))) = Some 0
  /\ exit_status (fst (program 3 ["main.py"] (snd (program 3 ["main.py"] (fresh 0)))))
     = Some 1.
Proof.
  apply (starter_config_does_not_start 3 ["main.py"] (fresh 0)); reflexivity.
Defined.
(* ================================================================== *)
(** * Where the texts of a pair come from *)
(* ================================================================== *)

Section Provenance.

(** the object of the run, the name of its character, the calls recorded
    and the document held when the run starts *)
Variable g0 : t.
Variable n : string.
Variable C0 : list (request * answer).
Variable d0 : Document.
Hypothesis named : config_character (config g0) = Some (Some n).
Hypothesis unset : character_name g0 = None.

Local Abbreviation cfg := (config g0).

(** a property [F] of the calls made since the start, and of the document *)
Local Abbreviation since F :=
  (fun (w : world) (d : Document) => exists made, calls w = (C0 ++ made)%list /\ F made d).

Local Abbreviation grows F :=
  (forall made more (d : Document), F made d -> F (made ++ more)%list d).

Lemma since_print (F : list (request * answer) -> Document -> Prop) d msg :
  maintains (fun w => since F w d) (print msg) (fun _ => True).
Proof. intros w H. now split. Qed.

Lemma since_await (F : list (request * answer) -> Document -> Prop) d req :
  grows F -> maintains (fun w => since F w d) (await req) (fun _ => True).
Proof.
  intros G w (made & Hc & Hf). unfold await.
  destruct (remote w) as [|ev l]; [split; [now exists made | exact I]|].
  assert (K : since F {| fs := fs w; now := now w + elapsed ev; faults := faults w;
                         remote := l; stdout := stdout w;
                         calls := calls w ++ [(req, outcome ev)];
                         console := console w; json_error := json_error w |} d).
  { exists (made ++ [(req, outcome ev)])%list. cbn [calls]. split.
    - now rewrite Hc, app_assoc.
    - now apply G. }
  destruct (outcome ev); now split.
Qed.

Lemma since_save (F : list (request * answer) -> Document -> Prop) d d' :
  maintains (fun w => since F w d)
            (BackupManager.save_data (backup_manager g0) d') (fun _ => True).
Proof.
  intros w (made & Hc & Hf).
  destruct (frame_save_data (backup_manager g0) d' w) as (_ & Fc & _).
  split; [|now destruct (fst _)]. exists made. split; [congruence | exact Hf].
Qed.

Lemma user_turn_grows made more u :
  user_turn cfg n made u -> user_turn cfg n (made ++ more) u.
Proof.
  intros (i & st & Hi & Hs & [(x & Hx & E)|(e & He & X & E)]); exists i, st;
    (split; [exact Hi|]); (split; [exact Hs|]).
  - left. exists x. split; [apply in_or_app; now left | exact E].
  - right. exists e. split; [apply in_or_app; now left | now split].
Qed.

Lemma character_turn_grows made more u c :
  character_turn cfg n made u c -> character_turn cfg n (made ++ more) u c.
Proof.
  intros (y & Hy & E). exists y. split; [apply in_or_app; now left | exact E].
Qed.

Ltac turn :=
  cbv beta iota zeta delta
    [get_user_message first_prompt persona_key
     conversation_history character_label clean_response config_character_name
     try_ bind get io await set_self print print_text
     except_Exception ret raise negb orb];
  cbn [self env fs now faults remote stdout calls console json_error
       fst snd outcome elapsed
       config char_ai_client char_ai_chat conversation_data output_file
       backup_manager character_name is_Exception].

(** the opening user turn: what it returns is the normalised reply to the
    opening prompt, or the opening fallback after that call has raised *)
Lemma gives_opening_user_message :
  gives (holds g0 (since (fun _ d => d = d0)))
        (get_user_message true [])
        (fun u => holds g0 (since (fun made d => d = d0 /\ user_turn cfg n made u)))
        (holds g0 (since (fun _ d => d = d0))).
Proof.
  intros [g [l t fl r out cs k je]] ((Hc & Ho & Hb & Hn) & made & Hcs & Hd).
  cbn [self env calls conversation_data] in *.
  assert (S0 : settled g0 g) by now repeat split.
  turn. rewrite Hc.
  destruct (interests (user_persona cfg)) as [i|] eqn:Ei; turn;
    [|split; [exact S0 | now exists made]].
  destruct (speaking_style (user_persona cfg)) as [st|] eqn:Es; turn;
    [|split; [exact S0 | now exists made]].
  destruct r as [|[dt [x|e]] r]; turn.
  - split; [exact S0 | now exists made].
  - rewrite Hc, named. cbn [fst snd]. split; [exact S0|].
    eexists. cbn [calls]. split; [now rewrite Hcs, <- app_assoc|].
    split; [exact Hd|]. exists i, st. split; [exact Ei|]. split; [exact Es|].
    left. exists x. split; [|reflexivity]. apply in_or_app. right. now left.
  - destruct (is_Exception e) eqn:E; turn.
    + destruct (k _) as [err|]; turn.
      * split; [exact S0|]. eexists. cbn [calls].
        split; [now rewrite Hcs, <- app_assoc | exact Hd].
      * split; [exact S0|].
        eexists. cbn [calls]. split; [now rewrite Hcs, <- app_assoc|].
        split; [exact Hd|]. exists i, st. split; [exact Ei|]. split; [exact Es|].
        right. exists e. split; [|now split]. apply in_or_app. right. now left.
    + split; [exact S0|]. eexists. cbn [calls].
      split; [now rewrite Hcs, <- app_assoc | exact Hd].
Qed.

Lemma gives_keep {A} (I : state -> Prop) (m : M state A) R :
  maintains I m R -> gives I m (fun _ => I) I.
Proof.
  intros H. eapply gives_weaken; [apply gives_maintains, H| | |]; auto.
  now intros a s [Hs _].
Qed.

Section Turn.

Variable F : list (request * answer) -> Document -> Prop.
Hypothesis F_grows : grows F.
Variable recent_pairs : context.

Local Abbreviation I := (holds g0 (since F)).
Local Abbreviation answered c :=
  (holds g0 (since (fun made d =>
                      F made d
                      /\ character_turn cfg n made (last_user_message recent_pairs) c))).

(** the call to the character service and the normalisation of its reply *)
Lemma gives_send_message :
  gives I
        (s <- get ;;
         response <- io (await (send_message
                                  (character_id (character_ai (config (self s))))
                                  (last_user_message recent_pairs))) ;;
         clean_response response)
        (fun c => answered c) I.
Proof.
  intros [g [l t fl r out cs k je]] ((Hc & Ho & Hb & Hn) & made & Hcs & Hd).
  cbn [self env calls conversation_data] in *.
  assert (S0 : settled g0 g) by now repeat split.
  turn. destruct r as [|[dt [y|e]] r]; turn.
  - split; [exact S0 | now exists made].
  - rewrite Hc, named. cbn [fst snd]. split; [exact S0|].
    eexists. cbn [calls]. split; [now rewrite Hcs, <- app_assoc|].
    split; [now apply F_grows|]. exists y. split; [|reflexivity].
    apply in_or_app. right. now left.
  - split; [exact S0|]. eexists. cbn [calls].
    split; [now rewrite Hcs, <- app_assoc | now apply F_grows].
Qed.

Lemma gives_get_character_message depth :
  gives I (get_character_message depth recent_pairs) (fun c => answered c) I.
Proof.
  assert (Jp := since_print F). assert (Ja := fun d req => since_await F d req F_grows).
  assert (Js := since_save F).
  induction depth as [|depth IH]; cbn [get_character_message];
    [now apply gives_pending|].
  eapply gives_bind; [eapply gives_keep, keeps_get|]. intros s.
  eapply gives_bind.
  { eapply gives_keep with (R := fun _ => True).
    apply maintains_if; [|now apply maintains_ret].
    eapply maintains_bind; [now apply keeps_initialize_char_ai|]. intros ok _.
    apply maintains_if; [apply maintains_raise | now apply maintains_ret]. }
  intros ?. apply gives_try with (E' := I); [apply gives_send_message | | auto].
  intros e h E. destruct e; cbn [is_Exception] in E; try discriminate E;
    injection E as <-; try (now apply gives_raise).
  eapply gives_bind; [eapply gives_keep, keeps_say; auto|]. intros ?.
  eapply gives_bind; [eapply gives_keep, keeps_initialize_char_ai; auto|].
  intros ok. apply gives_if; [exact IH | now apply gives_raise].
Qed.

End Turn.

(** both turns of the pair [p] are among the calls [made] *)
Local Abbreviation complete made p :=
  (user_turn cfg n made (user p)
   /\ character_turn cfg n made (user p) (character p)).

Local Abbreviation K0 := (holds g0 (since (fun _ d => d = d0))).
Local Abbreviation Ku :=
  (fun u : string =>
     holds g0 (since (fun made d => d = d0 /\ user_turn cfg n made u))).
Local Abbreviation Kuc :=
  (fun u c : string =>
     holds g0 (since (fun made d =>
                        (d = d0 /\ user_turn cfg n made u)
                        /\ character_turn cfg n made (last_user_message [(u, "")]) c))).
Local Abbreviation Kfin :=
  (holds g0 (since (fun made d =>
                      d = d0 \/ exists p, d = append_pair p d0 /\ complete made p))).

Lemma fin_of_start s : K0 s -> Kfin s.
Proof. intros (H & made & Hc & Hd). split; [exact H|]. exists made. auto. Qed.

Lemma fin_of_user u s : Ku u s -> Kfin s.
Proof. intros (H & made & Hc & Hd & _). split; [exact H|]. exists made. auto. Qed.

Lemma fin_of_both u c s : Kuc u c s -> Kfin s.
Proof. intros (H & made & Hc & (Hd & _) & _). split; [exact H|]. exists made. auto. Qed.

Lemma grows_start : grows (fun (_ : list (request * answer)) d => d = d0).
Proof. auto. Qed.

Lemma grows_user u : grows (fun made d => d = d0 /\ user_turn cfg n made u).
Proof. intros made more d [H1 H2]. auto using user_turn_grows. Qed.

Lemma grows_both u c :
  grows (fun made d => (d = d0 /\ user_turn cfg n made u)
                       /\ character_turn cfg n made (last_user_message [(u, "")]) c).
Proof.
  intros made more d [[H1 H2] H3].
  auto using user_turn_grows, character_turn_grows.
Qed.

Lemma grows_complete p : grows (fun made (_ : Document) => complete made p).
Proof.
  intros made more d [H1 H2]. auto using user_turn_grows, character_turn_grows.
Qed.

Lemma grows_fin :
  grows (fun made d => d = d0 \/ exists p, d = append_pair p d0 /\ complete made p).
Proof.
  intros made more d [H|(p & H1 & H2 & H3)]; [now left|]. right. exists p.
  auto using user_turn_grows, character_turn_grows.
Qed.

Ltac grown :=
  first [apply grows_start | apply grows_user | apply grows_both
        | apply grows_fin | apply grows_complete].
Ltac kept F :=
  try solve [first [apply (since_print F) | apply (since_save F)
                   | intros; apply (since_await F); grown]].
Ltac step lem F fin :=
  eapply leads_bind; [apply lem; kept F | | exact fin].

Local Abbreviation F0 := (fun (_ : list (request * answer)) (d : Document) => d = d0).
Local Abbreviation Fu :=
  (fun (u : string) made (d : Document) => d = d0 /\ user_turn cfg n made u).
Local Abbreviation Fuc :=
  (fun (u c : string) made (d : Document) =>
     (d = d0 /\ user_turn cfg n made u)
     /\ character_turn cfg n made (last_user_message [(u, "")]) c).
Local Abbreviation Ffin :=
  (fun made (d : Document) =>
     d = d0 \/ exists p, d = append_pair p d0 /\ complete made p).

(** a run from the document [d0]: what it leaves is [d0], or [d0] with one
    pair whose two turns are among the calls it made *)
Lemma run_generation_provenance fuel : leads K0 (run_generation fuel) Kfin.
Proof.
  rewrite run_generation_eq.
  step keeps_initialize_char_ai constr:(F0) fin_of_start. intros ok ?.
  apply leads_if.
  { eapply leads_weaken;
      [eapply leads_maintains, keeps_say; apply (since_print F0)
      | intros ? X; exact X | exact fin_of_start]. }
  apply leads_finally with (Q' := Kfin); [| |auto].
  2:{ eapply leads_maintains. apply keeps_finish; kept constr:(Ffin). }
  unfold run_body. apply leads_try with (Q' := Kfin); [| |auto].
  2:{ intros e h E. eapply leads_maintains.
      eapply keeps_run_handlers; [apply (since_print Ffin) | exact E]. }
  step keeps_get constr:(F0) fin_of_start. intros s0 ?.
  step keeps_tell constr:(F0) fin_of_start. intros ? ?.
  eapply leads_via; [apply gives_opening_user_message | | exact fin_of_start].
  intros u.
  step keeps_tell constr:(Fu u) (fin_of_user u). intros ? ?.
  step keeps_character_label constr:(Fu u) (fin_of_user u). intros c1 ?.
  step keeps_tell constr:(Fu u) (fin_of_user u). intros ? ?.
  step keeps_wait constr:(Fu u) (fin_of_user u). intros ? ?.
  eapply leads_via;
    [apply (gives_get_character_message _ (grows_user u) [(u, "")])
    | | exact (fin_of_user u)].
  intros c.
  step keeps_character_label constr:(Fuc u c) (fin_of_both u c). intros c2 ?.
  step keeps_tell constr:(Fuc u c) (fin_of_both u c). intros ? ?.
  intros s1 (Kobj & made & Hc & (Hd & Hu) & Hch). unfold bind.
  rewrite add_message_pair_eq.
  destruct (save_conversation_eq (with_pair u c s1)) as (w1 & Ew & ->).
  set (p := {| user := u; character := c;
               timestamp := strftime "%Y-%m-%d %H:%M:%S" (now (env s1)) |}).
  pose proof (frame_save_data (backup_manager (self (with_pair u c s1)))
                (conversation_data (self (with_pair u c s1)))
                (env (with_pair u c s1))) as (_ & Fc & _).
  rewrite Ew in Fc. cbn [snd env with_pair] in Fc.
  assert (K1 : holds g0 (fun w d' => since (fun made _ => complete made p) w d0
                                     /\ append_pair p d0 = d')
                 {| self := self (with_pair u c s1);
                    env := snd (print (progress_line
                                  (conversation_data (self (with_pair u c s1)))) w1) |}).
  { split; [exact Kobj|]. split.
    - exists made. cbn [calls env snd print]. split; [congruence|]. now split.
    - cbn. now rewrite Hd. }
  pose proof (keeps_document_loop g0 (fun w => since (fun made _ => complete made p) w d0)
                (append_pair p d0) fuel
                (fun msg => since_print _ d0 msg)
                (fun req => since_await _ d0 req (grows_complete p))
                (fun d' => since_save _ d0 d') unset
                (append_pair_nonempty p d0) _ K1) as [(L1 & (made' & L2 & L3) & L4) _].
  split; [exact L1|]. exists made'. split; [exact L2|]. right. exists p. now split.
Qed.

End Provenance.

(** the constructor returns only with a configuration that names the
    character *)
Lemma init_named path w g w' :
  __init__ path w = (Ret g, w') ->
  exists n, config_character (config g) = Some (Some n).
Proof.
  rewrite init_eq. intros E.
  apply bind_inv in E. destruct E as (c & w1 & _ & E).
  do 5 (apply bind_inv in E; destruct E as (? & ? & _ & E)).
  apply bind_inv in E. destruct E as ([] & w6 & _ & E).
  apply bind_inv in E. destruct E as (n & w7 & E7 & E).
  unfold config_character_name in E7.
  destruct (config_character c) as [[n'|]|] eqn:C; try discriminate.
  do 2 (apply bind_inv in E; destruct E as (? & ? & _ & E)).
  inversion E; subst. exists n'. exact C.
Qed.



(** the calls of the sample run: the three that open the session, the
    opening prompt, the pause, and the user text sent to the character *)
Example sample_run_calls :
  map (fun c => match fst c with
                | send_message _ message => Some message
                | _ => None
                end) (calls (env sample_run))
  = [None; None; None; None; None; Some "hello"]
  /\ map snd (calls (env sample_run))
     = [Reply "client"; Reply "me"; Reply "Hello, traveller";
        Reply "User: hello"; Reply ""; Reply "Bot: hi there"].
Proof. vm_compute. split; reflexivity. Qed.


(** a cancellation between the two turns: nothing is appended, the session
    is closed and the empty document is saved, and the cancellation goes on *)
Example cancel_between_turns :
  let s := snd (run_generation 3
                  (started (join "" "config.json")
                           (configured sample_settings interrupted_answers))) in
  fst (run_generation 3
         (started (join "" "config.json")
                  (configured sample_settings interrupted_answers)))
  = Raise CancelledError
  /\ conversation_pairs (conversation_data (self s)) = []
  /\ option_map data (lookup (output_file (self s)) (fs (env s)))
     = Some (Json (conversation_data (self s)))
  /\ remote (env s) = [].
Proof. vm_compute. repeat split. Qed.

(* ================================================================== *)
(** * How a run ends *)
(* ================================================================== *)

Section Ends.

Variable T : bool -> state -> Prop.

Lemma ends_of_cancelled {A} (m : M state A) : ends_cancelled T m -> ends T m.
Proof.
  intros H c s Hs. specialize (H c s Hs).
  destruct (m s) as [[a|e|] s']; auto.
Qed.

Lemma cancelled_ret {A} (a : A) : ends_cancelled T (ret a).
Proof. intros c s Hs. exact Hs. Qed.

Lemma cancelled_get : ends_cancelled T get.
Proof. intros c s Hs. exact Hs. Qed.

Lemma cancelled_pending {A} : ends_cancelled T (pending : M state A).
Proof. intros c s Hs. now exists c. Qed.

Lemma ends_raise {A} e : is_Exception e = true -> ends T (raise e : M state A).
Proof. intros E c s Hs. right. now split. Qed.

Lemma cancelled_bind {A B} (m : M state A) (k : A -> M state B) :
  ends_cancelled T m -> (forall a, ends_cancelled T (k a)) ->
  ends_cancelled T (bind m k).
Proof.
  intros Hm Hk c s Hs. unfold bind. specialize (Hm c s Hs).
  destruct (m s) as [[a|e|] s']; auto. now apply Hk.
Qed.

Lemma ends_bind {A B} (m : M state A) (k : A -> M state B) :
  ends T m -> (forall a, ends T (k a)) -> ends T (bind m k).
Proof.
  intros Hm Hk c s Hs. unfold bind. specialize (Hm c s Hs).
  destruct (m s) as [[a|e|] s']; auto. now apply Hk.
Qed.

Lemma cancelled_if {A} (b : bool) (m1 m2 : M state A) :
  ends_cancelled T m1 -> ends_cancelled T m2 ->
  ends_cancelled T (if b then m1 else m2).
Proof. now destruct b. Qed.

Lemma ends_if {A} (b : bool) (m1 m2 : M state A) :
  ends T m1 -> ends T m2 -> ends T (if b then m1 else m2).
Proof. now destruct b. Qed.

(** a [try] whose clauses do not catch the cancellation *)
Lemma ends_try {A} (body : M state A) handler :
  ends T body -> handler CancelledError = None ->
  (forall e h, handler e = Some h -> ends T h) ->
  ends T (try_ body handler).
Proof.
  intros Hb Hc Hh c s Hs. unfold try_. specialize (Hb c s Hs).
  destruct (body s) as [[a|e|] s']; auto.
  destruct Hb as [[-> Hb]|[E Hb]].
  - rewrite Hc. now left.
  - destruct (handler e) as [h|] eqn:X; [now apply (Hh e h X) | now right].
Qed.

(** a [try] that catches every [Exception], and not the cancellation *)
Lemma cancelled_try {A} (body : M state A) handler :
  ends T body -> handler CancelledError = None ->
  (forall e, is_Exception e = true ->
             exists h, handler e = Some h /\ ends_cancelled T h) ->
  ends_cancelled T (try_ body handler).
Proof.
  intros Hb Hc Hh c s Hs. unfold try_. specialize (Hb c s Hs).
  destruct (body s) as [[a|e|] s']; auto.
  destruct Hb as [[-> Hb]|[E Hb]].
  - rewrite Hc. now split.
  - destruct (Hh e E) as (h & -> & H). now apply H.
Qed.

Lemma cancelled_finally {A} (body : M state A) fin :
  ends_cancelled T body -> ends_cancelled T fin ->
  ends_cancelled T (finally body fin).
Proof.
  intros Hb Hf c s Hs. unfold finally. specialize (Hb c s Hs).
  destruct (body s) as [[a|e|] s']; auto.
  - specialize (Hf c s' Hb). destruct (fin s') as [[u|e'|] s'']; auto.
  - destruct Hb as [-> Hb]. specialize (Hf false s' Hb).
    destruct (fin s') as [[u|e'|] s'']; auto.
Qed.

End Ends.

Section RunEnds.

(** the answers scheduled at the start of the run *)
Variable L : list event.

Local Abbreviation T := (calm L).

Lemma calm_same_outside c g w g' w' :
  same_outside w w' -> T c {| self := g; env := w |} -> T c {| self := g'; env := w' |}.
Proof.
  intros (R & _ & K) (P & Q & pre & HL & Hp). cbn [env] in *.
  split; [intros msg; cbn [env]; rewrite K; apply P|]. cbn [env].
  rewrite R. split; [exact Q|]. now exists pre.
Qed.

Lemma cancelled_io {A} (m : M world A) :
  frame m -> returns m -> ends_cancelled T (io m).
Proof.
  intros F R c [g w] Hs. unfold io. cbn [env self].
  destruct (R w) as (a & w' & E). specialize (F w). rewrite E in *. cbn [snd] in F.
  now apply calm_same_outside with (w := w) (g := g).
Qed.

Lemma cancelled_say msg : ends_cancelled T (io (print msg)).
Proof.
  apply cancelled_io; [apply frame_print|]. intros w. now eexists _, _.
Qed.

(** on a console that shows every line, a line with text from outside prints *)
Lemma cancelled_tell msg : ends_cancelled T (io (print_text msg)).
Proof.
  intros c [g w] Hs. pose proof Hs as (P & _). cbn [env] in P.
  unfold io, print_text. cbn [env self]. rewrite (P msg).
  now apply (cancelled_say msg c {| self := g; env := w |}).
Qed.

Lemma cancelled_set_self f : ends_cancelled T (set_self f).
Proof.
  intros c [g w] Hs. unfold set_self. cbn [env self].
  now apply calm_same_outside with (w := w) (g := g); [repeat split|].
Qed.

(** an awaited call: a reply, or the cancellation *)
Lemma cancelled_await req : ends_cancelled T (io (await req)).
Proof.
  intros c [g w] (P & Q & pre & HL & Hp). unfold io, await. cbn [env self] in *.
  destruct (remote w) as [|ev l] eqn:E.
  - exists c. split; [exact P|]. cbn [env]. rewrite E. split; [exact Q|].
    exists pre. now split.
  - inversion Q as [|? ? Qev Ql]; subst.
    assert (HL' : (pre ++ ev :: l)%list = ((pre ++ [ev]) ++ l)%list)
      by now rewrite <- app_assoc.
    destruct (outcome ev) as [x|e] eqn:O.
    + split; [exact P|]. split; [exact Ql|]. exists (pre ++ [ev])%list.
      split; [exact HL'|]. destruct c.
      * apply Forall_app. split; [exact Hp|]. constructor; [now exists x | constructor].
      * intros H. apply Forall_app in H. now destruct H.
    + subst e. split; [reflexivity|]. split; [exact P|]. split; [exact Ql|].
      exists (pre ++ [ev])%list. split; [exact HL'|].
      intros H. apply Forall_app in H. destruct H as [_ H].
      inversion H as [|? ? [x X] _]; subst. congruence.
Qed.

Lemma cancelled_save_conversation : ends_cancelled T save_conversation.
Proof.
  intros c s Hs. destruct (save_conversation_eq s) as (w1 & E1 & ->).
  pose proof (frame_save_data (backup_manager (self s)) (conversation_data (self s))
                (env s)) as F.
  rewrite E1 in F. cbn [snd] in F. destruct s as [g w]. cbn [self env] in *.
  apply calm_same_outside with (w := w) (g := g); [|exact Hs].
  destruct F as (F1 & F2 & F3). now repeat split.
Qed.

Lemma cancelled_add_message_pair u c : ends_cancelled T (add_message_pair u c).
Proof.
  intros b s Hs. rewrite add_message_pair_eq. apply cancelled_save_conversation.
  destruct s as [g w]. now apply calm_same_outside with (w := w) (g := g);
    [repeat split|].
Qed.

Lemma ends_config_character_name c : ends T (config_character_name c).
Proof.
  unfold config_character_name. destruct (config_character c) as [[n|]|];
    [apply ends_of_cancelled, cancelled_ret | now apply ends_raise ..].
Qed.

Lemma ends_persona_key key v : ends T (persona_key key v).
Proof.
  unfold persona_key. destruct v;
    [apply ends_of_cancelled, cancelled_ret | now apply ends_raise].
Qed.

Lemma ends_clean_response x : ends T (clean_response x).
Proof.
  unfold clean_response.
  apply ends_bind; [apply ends_of_cancelled, cancelled_get|]. intros s.
  apply ends_bind; [apply ends_config_character_name|]. intros n.
  apply ends_of_cancelled, cancelled_ret.
Qed.

Lemma ends_character_label : ends T character_label.
Proof.
  unfold character_label.
  apply ends_bind; [apply ends_of_cancelled, cancelled_get|]. intros s.
  apply ends_config_character_name.
Qed.

Lemma ends_conversation_history g ctx acc : ends T (conversation_history g ctx acc).
Proof.
  revert acc. induction ctx as [|[u c] r IH]; intros acc; cbn [conversation_history].
  - apply ends_of_cancelled, cancelled_ret.
  - destruct (character_name g); [apply IH | now apply ends_raise].
Qed.

Ltac quiet lem := apply ends_bind; [apply ends_of_cancelled, lem|]; intros ?.
Ltac noisy lem := apply ends_bind; [apply lem|]; intros ?.

Lemma cancelled_initialize_char_ai : ends_cancelled T initialize_char_ai.
Proof.
  unfold initialize_char_ai. apply cancelled_try.
  - quiet cancelled_get. quiet cancelled_await. quiet cancelled_set_self.
    quiet cancelled_await. quiet cancelled_tell. quiet cancelled_await.
    quiet cancelled_set_self. quiet cancelled_tell.
    apply ends_of_cancelled, cancelled_ret.
  - reflexivity.
  - intros e E. unfold except_Exception. rewrite E. eexists. split; [reflexivity|].
    apply cancelled_bind; [apply cancelled_tell|]. intros _. apply cancelled_ret.
Qed.

Lemma ends_get_user_message b ctx : ends T (get_user_message b ctx).
Proof.
  unfold get_user_message.
  quiet cancelled_get. noisy ends_conversation_history.
  apply ends_bind.
  { destruct b; unfold first_prompt, next_prompt.
    - noisy ends_persona_key. noisy ends_persona_key.
      apply ends_of_cancelled, cancelled_ret.
    - noisy ends_persona_key. apply ends_of_cancelled, cancelled_ret. }
  intros prompt. apply ends_try.
  - quiet cancelled_await. noisy ends_clean_response.
    apply ends_of_cancelled, cancelled_ret.
  - reflexivity.
  - intros e h E. unfold except_Exception in E.
    destruct (is_Exception e); [|discriminate]. injection E as <-.
    quiet cancelled_tell. destruct b.
    + noisy ends_persona_key. apply ends_of_cancelled, cancelled_ret.
    + apply ends_of_cancelled, cancelled_ret.
Qed.

Lemma ends_get_character_message depth ctx : ends T (get_character_message depth ctx).
Proof.
  induction depth as [|depth IH]; cbn [get_character_message];
    [apply ends_of_cancelled, cancelled_pending|].
  quiet cancelled_get.
  apply ends_bind.
  { apply ends_if; [|apply ends_of_cancelled, cancelled_ret].
    quiet cancelled_initialize_char_ai.
    apply ends_if; [now apply ends_raise | apply ends_of_cancelled, cancelled_ret]. }
  intros _. apply ends_try.
  - quiet cancelled_get. quiet cancelled_await. apply ends_clean_response.
  - reflexivity.
  - intros e h E. destruct e; cbn [is_Exception] in E; try discriminate E;
      injection E as <-; try (now apply ends_raise).
    quiet cancelled_say. quiet cancelled_initialize_char_ai.
    apply ends_if; [exact IH | now apply ends_raise].
Qed.

Lemma ends_loop_body depth : ends T (loop_body depth).
Proof.
  unfold loop_body. apply ends_try.
  - quiet cancelled_say. quiet cancelled_await. quiet cancelled_get.
    quiet cancelled_say. noisy ends_get_user_message. quiet cancelled_tell.
    quiet cancelled_say. quiet cancelled_await. noisy ends_character_label.
    quiet cancelled_tell. noisy ends_get_character_message.
    noisy ends_character_label. quiet cancelled_tell.
    quiet cancelled_add_message_pair. apply ends_of_cancelled, cancelled_ret.
  - reflexivity.
  - intros e h E. destruct e; cbn [is_Exception] in E; try discriminate E;
      injection E as <-;
      try (quiet cancelled_tell; apply ends_of_cancelled, cancelled_ret).
    quiet cancelled_say. quiet cancelled_initialize_char_ai.
    apply ends_if; [now apply ends_raise | apply ends_of_cancelled, cancelled_ret].
Qed.

Lemma ends_loop fuel : ends T (loop fuel).
Proof.
  induction fuel as [|fuel IH]; cbn [loop].
  - quiet cancelled_get.
    apply ends_if; apply ends_of_cancelled; [apply cancelled_pending | apply cancelled_ret].
  - quiet cancelled_get.
    apply ends_if; [|apply ends_of_cancelled, cancelled_ret].
    noisy ends_loop_body.
    match goal with
    | f : flow |- _ => destruct f; [exact IH | apply ends_of_cancelled, cancelled_ret]
    end.
Qed.

Lemma cancelled_finish : ends_cancelled T finish.
Proof.
  unfold finish.
  apply cancelled_bind; [apply cancelled_get|]. intros s.
  apply cancelled_bind.
  { apply cancelled_if; [|apply cancelled_ret].
    apply cancelled_bind; [apply cancelled_await|]. intros _. apply cancelled_ret. }
  intros _.
  apply cancelled_bind; [apply cancelled_save_conversation|]. intros _.
  apply cancelled_bind; [apply cancelled_get|]. intros s'.
  apply cancelled_bind; [apply cancelled_say|]. intros _. apply cancelled_say.
Qed.

(** a run on an obliging console, when nothing fails but by a Ctrl+C:
    it returns, or it raises the cancellation it has met *)
Lemma cancelled_run_generation fuel : ends_cancelled T (run_generation fuel).
Proof.
  rewrite run_generation_eq.
  apply cancelled_bind; [apply cancelled_initialize_char_ai|]. intros ok.
  apply cancelled_if; [apply cancelled_say|].
  apply cancelled_finally; [|apply cancelled_finish].
  unfold run_body. apply cancelled_try.
  - quiet cancelled_get. quiet cancelled_tell. noisy ends_get_user_message.
    quiet cancelled_tell. noisy ends_character_label. quiet cancelled_tell.
    quiet cancelled_await. noisy ends_get_character_message.
    noisy ends_character_label. quiet cancelled_tell.
    quiet cancelled_add_message_pair. apply ends_loop.
  - reflexivity.
  - intros e E. destruct e; try discriminate E; cbn [is_Exception];
      (eexists; split; [reflexivity | apply cancelled_tell]).
Qed.

End RunEnds.

Section Progress.

Variable cfg : Config.
Variable b : nat.

Lemma supplied_mono k k' j j' s :
  (k' <= k)%nat -> (j <= j')%nat -> supplied cfg k j s -> supplied cfg k' j' s.
Proof.
  intros Hk Hj (C & P & Q & Len & Left). repeat split; auto; lia.
Qed.

(** the configuration, the document, the console and the schedule are all
    that matters *)
Lemma supplied_same k j g w g' w' :
  config g' = config g -> conversation_data g' = conversation_data g ->
  same_outside w w' ->
  supplied cfg k j {| self := g; env := w |} ->
  supplied cfg k j {| self := g'; env := w' |}.
Proof.
  intros C D (R & _ & K) (C0 & P & Q & Len & Left). cbn [self env] in *.
  unfold supplied. cbn [self env]. rewrite C, D, R.
  repeat split; auto. intros msg. rewrite K. apply P.
Qed.

Lemma spends_weaken {A} n n' (d d' : A -> nat) m :
  (n <= n')%nat -> (forall a, (d' a <= d a)%nat) ->
  spends cfg b n d m -> spends cfg b n' d' m.
Proof.
  intros Hn Hd H k j Hj s Hs.
  specialize (H (n' - n + k)%nat j Hj s).
  assert (E : (n + (n' - n + k) = n' + k)%nat) by lia. rewrite E in H.
  specialize (H Hs). destruct (m s) as [[a|e|] s']; [| |exact H].
  - eapply supplied_mono; [| |exact H]; [lia|]. specialize (Hd a). lia.
  - destruct H as [H N]. split; [|exact N]. eapply supplied_mono; [| |exact H]; lia.
Qed.

Lemma spends_ret {A} (a : A) : spends cfg b 0 (fun _ => 0%nat) (ret a).
Proof. intros k j Hj s Hs. cbn. now rewrite Nat.sub_0_r. Qed.

Lemma spends_break : spends cfg b 0 stored (ret Break).
Proof. intros k j Hj s Hs. cbn. now rewrite Nat.sub_0_r. Qed.

Lemma spends_get : spends cfg b 0 (fun _ => 0%nat) get.
Proof. intros k j Hj s Hs. cbn. now rewrite Nat.sub_0_r. Qed.

Lemma spends_raise {A} (d : A -> nat) e :
  (forall msg, e <> SessionClosedError msg) -> spends cfg b 0 d (raise e).
Proof. intros N k j Hj s Hs. cbn. now split. Qed.

Lemma spends_bind {A B} n1 n2 (d : B -> nat) (m : M state A) (f : A -> M state B) :
  spends cfg b n1 (fun _ => 0%nat) m -> (forall a, spends cfg b n2 d (f a)) ->
  spends cfg b (n1 + n2) d (bind m f).
Proof.
  intros Hm Hf k j Hj s Hs. unfold bind.
  specialize (Hm (n2 + k)%nat j Hj s). rewrite Nat.add_assoc in Hm. specialize (Hm Hs).
  destruct (m s) as [[a|e|] s']; [| |exact Hm].
  - rewrite Nat.sub_0_r in Hm. exact (Hf a k j Hj s' Hm).
  - destruct Hm as [H N]. split; [|exact N]. eapply supplied_mono; [| |exact H]; lia.
Qed.

(** the pairs are stored by the first of the two *)
Lemma spends_bind_r {A B} n1 n2 c (m : M state A) (f : A -> M state B) :
  spends cfg b n1 (fun _ => c) m -> (forall a, spends cfg b n2 (fun _ => 0%nat) (f a)) ->
  spends cfg b (n1 + n2) (fun _ => c) (bind m f).
Proof.
  intros Hm Hf k j Hj s Hs. unfold bind.
  specialize (Hm (n2 + k)%nat j Hj s). rewrite Nat.add_assoc in Hm. specialize (Hm Hs).
  destruct (m s) as [[a|e|] s']; [| |exact Hm].
  - assert (Hj' : (j - c <= b)%nat) by lia.
    specialize (Hf a k (j - c)%nat Hj' s' Hm).
    destruct (f a s') as [[y|e|] s'']; [| |exact Hf].
    + now rewrite Nat.sub_0_r in Hf.
    + destruct Hf as [H N]. split; [|exact N]. eapply supplied_mono; [| |exact H]; lia.
  - destruct Hm as [H N]. split; [|exact N]. eapply supplied_mono; [| |exact H]; lia.
Qed.

Lemma spends_if {A} n (d : A -> nat) (c : bool) (m1 m2 : M state A) :
  spends cfg b n d m1 -> spends cfg b n d m2 -> spends cfg b n d (if c then m1 else m2).
Proof. now destruct c. Qed.

(** the handlers that are reached await nothing *)
Lemma spends_try {A} n (d : A -> nat) (body : M state A) handler :
  spends cfg b n d body ->
  (forall e h, (forall msg, e <> SessionClosedError msg) -> handler e = Some h ->
               spends cfg b 0 d h) ->
  spends cfg b n d (try_ body handler).
Proof.
  intros Hb Hh k j Hj s Hs. unfold try_.
  specialize (Hb k j Hj s Hs). destruct (body s) as [[a|e|] s']; [exact Hb| |exact Hb].
  destruct Hb as [H N]. destruct (handler e) as [h|] eqn:E; [|now split].
  exact (Hh e h N E k j Hj s' H).
Qed.

Lemma spends_finally {A} n1 n2 (d : A -> nat) (body : M state A) fin :
  spends cfg b n1 d body -> spends cfg b n2 (fun _ => 0%nat) fin ->
  spends cfg b (n1 + n2) d (finally body fin).
Proof.
  intros Hb Hf k j Hj s Hs. unfold finally.
  specialize (Hb (n2 + k)%nat j Hj s). rewrite Nat.add_assoc in Hb. specialize (Hb Hs).
  destruct (body s) as [[a|e|] s']; [| |exact Hb].
  - assert (Hj' : (j - d a <= b)%nat) by lia.
    specialize (Hf k (j - d a)%nat Hj' s' Hb).
    destruct (fin s') as [[y|e|] s'']; [| |exact Hf].
    + now rewrite Nat.sub_0_r in Hf.
    + destruct Hf as [H N]. split; [|exact N]. eapply supplied_mono; [| |exact H]; lia.
  - destruct Hb as [H N]. specialize (Hf k j Hj s' H).
    destruct (fin s') as [[y|e'|] s'']; [| |exact Hf].
    + rewrite Nat.sub_0_r in Hf. now split.
    + exact Hf.
Qed.

Lemma spends_io {A} (m : M world A) :
  frame m -> returns m -> spends cfg b 0 (fun _ => 0%nat) (io m).
Proof.
  intros F R k j Hj [g w] Hs. unfold io. cbn [env self].
  destruct (R w) as (a & w' & E). specialize (F w). rewrite E in *. cbn [snd] in F.
  rewrite Nat.sub_0_r. now apply supplied_same with (g := g) (w := w).
Qed.

Lemma spends_say msg : spends cfg b 0 (fun _ => 0%nat) (io (print msg)).
Proof.
  apply spends_io; [apply frame_print|]. intros w. now eexists _, _.
Qed.

Lemma spends_tell msg : spends cfg b 0 (fun _ => 0%nat) (io (print_text msg)).
Proof.
  intros k j Hj [g w] Hs. pose proof Hs as (_ & P & _). cbn [env] in P.
  unfold io, print_text. cbn [env self]. rewrite (P msg).
  exact (spends_say msg k j Hj {| self := g; env := w |} Hs).
Qed.

Lemma spends_set_self f :
  (forall g, config (f g) = config g /\ conversation_data (f g) = conversation_data g) ->
  spends cfg b 0 (fun _ => 0%nat) (set_self f).
Proof.
  intros H k j Hj [g w] Hs. unfold set_self. cbn [env self]. rewrite Nat.sub_0_r.
  destruct (H g) as [C D].
  now apply supplied_same with (g := g) (w := w); [| |repeat split|].
Qed.

(** an awaited call takes one answer from the schedule *)
Lemma spends_await req : spends cfg b 1 (fun _ => 0%nat) (io (await req)).
Proof.
  intros k j Hj [g w] (C & P & Q & Len & Left). unfold io, await. cbn [env self] in *.
  destruct (remote w) as [|ev l] eqn:E; [simpl in Len; lia|].
  inversion Q as [|? ? Qev Ql]; subst. simpl in Len.
  rewrite Nat.sub_0_r.
  destruct (outcome ev) as [x|e] eqn:O.
  - repeat split; auto. cbn [env remote]. lia.
  - subst e. split; [|discriminate]. repeat split; auto. cbn [env remote]. lia.
Qed.

Lemma spends_save_conversation : spends cfg b 0 (fun _ => 0%nat) save_conversation.
Proof.
  intros k j Hj s Hs. destruct (save_conversation_eq s) as (w1 & E1 & ->).
  pose proof (frame_save_data (backup_manager (self s)) (conversation_data (self s))
                (env s)) as F.
  rewrite E1 in F. cbn [snd] in F. destruct s as [g w]. cbn [self env] in *.
  rewrite Nat.sub_0_r.
  apply supplied_same with (g := g) (w := w); auto;
    destruct F as (F1 & F2 & F3); now repeat split.
Qed.

(** a stored exchange is one pair less to go *)
Lemma spends_add_message_pair u c :
  spends cfg b 0 (fun _ => 1%nat) (add_message_pair u c).
Proof.
  intros k j Hj s Hs. rewrite add_message_pair_eq.
  assert (H : supplied cfg (0 + k) (j - 1) (with_pair u c s)).
  { destruct s as [g w]. destruct Hs as (C & P & Q & Len & Left).
    unfold with_pair, supplied. cbn in *. repeat split; auto. lia. }
  assert (Hj' : (j - 1 <= b)%nat) by lia.
  pose proof (spends_save_conversation k (j - 1)%nat Hj' _ H) as S.
  destruct (save_conversation (with_pair u c s)) as [[y|e|] s']; [| |exact S].
  - now rewrite Nat.sub_0_r in S.
  - destruct S as [S N]. split; [|exact N]. eapply supplied_mono; [| |exact S]; lia.
Qed.

Lemma spends_config_character_name c :
  spends cfg b 0 (fun _ => 0%nat) (config_character_name c).
Proof.
  unfold config_character_name. destruct (config_character c) as [[n|]|];
    [apply spends_ret | apply spends_raise; discriminate ..].
Qed.

Lemma spends_persona_key key v : spends cfg b 0 (fun _ => 0%nat) (persona_key key v).
Proof.
  unfold persona_key. destruct v; [apply spends_ret | apply spends_raise; discriminate].
Qed.

Ltac free lem := apply (spends_bind 0); [apply lem|]; intros ?.

Lemma spends_clean_response x : spends cfg b 0 (fun _ => 0%nat) (clean_response x).
Proof.
  unfold clean_response. free spends_get. free spends_config_character_name.
  apply spends_ret.
Qed.

Lemma spends_character_label : spends cfg b 0 (fun _ => 0%nat) character_label.
Proof.
  unfold character_label. free spends_get. apply spends_config_character_name.
Qed.

Lemma spends_conversation_history g ctx acc :
  spends cfg b 0 (fun _ => 0%nat) (conversation_history g ctx acc).
Proof.
  revert acc. induction ctx as [|[u c] r IH]; intros acc; cbn [conversation_history].
  - apply spends_ret.
  - destruct (character_name g); [apply IH | apply spends_raise; discriminate].
Qed.

Lemma flags_keep_document :
  (forall v g, config (set_char_ai_client v g) = config g
               /\ conversation_data (set_char_ai_client v g) = conversation_data g)
  /\ (forall v g, config (set_char_ai_chat v g) = config g
                  /\ conversation_data (set_char_ai_chat v g) = conversation_data g).
Proof. now split. Qed.

(** opening the session takes three answers at most *)
Lemma spends_initialize_char_ai : spends cfg b 3 (fun _ => 0%nat) initialize_char_ai.
Proof.
  unfold initialize_char_ai. apply spends_try.
  - free spends_get.
    apply (spends_bind 1 2); [apply spends_await|]. intros ?.
    apply (spends_bind 0 2); [apply spends_set_self, flags_keep_document|]. intros ?.
    apply (spends_bind 1 1); [apply spends_await|]. intros ?.
    apply (spends_bind 0 1); [apply spends_tell|]. intros ?.
    apply (spends_bind 1 0); [apply spends_await|]. intros ?.
    apply (spends_bind 0 0); [apply spends_set_self, flags_keep_document|]. intros ?.
    free spends_tell. apply spends_ret.
  - intros e h N E. unfold except_Exception in E.
    destruct (is_Exception e); [|discriminate]. injection E as <-.
    free spends_tell. apply spends_ret.
Qed.

(** a user turn takes one *)
Lemma spends_get_user_message first ctx :
  spends cfg b 1 (fun _ => 0%nat) (get_user_message first ctx).
Proof.
  unfold get_user_message.
  free spends_get. free spends_conversation_history.
  apply (spends_bind 0 1).
  { destruct first; unfold first_prompt, next_prompt.
    - free spends_persona_key. free spends_persona_key. apply spends_ret.
    - free spends_persona_key. apply spends_ret. }
  intros prompt. apply spends_try.
  - apply (spends_bind 1 0); [apply spends_await|]. intros ?.
    free spends_clean_response. apply spends_ret.
  - intros e h N E. unfold except_Exception in E.
    destruct (is_Exception e); [|discriminate]. injection E as <-.
    free spends_tell. destruct first.
    + free spends_persona_key. apply spends_ret.
    + apply spends_ret.
Qed.

(** a character turn takes four: three to open the session when it is not
    open, one for the message; the session does not expire, so that the
    turn is not taken again *)
Lemma spends_get_character_message depth ctx :
  spends cfg b 4 (fun _ => 0%nat) (get_character_message (S depth) ctx).
Proof.
  cbn [get_character_message]. free spends_get.
  apply (spends_bind 3 1).
  { apply spends_if; [|apply (spends_weaken 0 3 _ _ _ (Nat.le_0_l 3) (fun _ => le_n 0)),
                        spends_ret].
    apply (spends_bind 3 0); [apply spends_initialize_char_ai|]. intros ok.
    apply spends_if; [apply spends_raise; discriminate | apply spends_ret]. }
  intros _. apply spends_try.
  - free spends_get. apply (spends_bind 1 0); [apply spends_await|]. intros ?.
    apply spends_clean_response.
  - intros e h N E. destruct e; cbn [is_Exception] in E; try discriminate E;
      try (injection E as <-; apply spends_raise; discriminate).
    exfalso. eapply N. reflexivity.
Qed.

(** one pass through the loop takes seven *)
Lemma spends_loop_body depth : spends cfg b 7 stored (loop_body (S depth)).
Proof.
  unfold loop_body. apply spends_try.
  - apply (spends_weaken 7 7 (fun _ => 1%nat));
      [lia | intros []; simpl; lia |].
    free spends_say.
    apply (spends_bind 1 6 (fun _ => 1%nat)); [apply spends_await|]. intros ?.
    free spends_get. free spends_say.
    apply (spends_bind 1 5 (fun _ => 1%nat)); [apply spends_get_user_message|]. intros ?.
    free spends_tell. free spends_say.
    apply (spends_bind 1 4 (fun _ => 1%nat)); [apply spends_await|]. intros ?.
    free spends_character_label. free spends_tell.
    apply (spends_bind 4 0 (fun _ => 1%nat)); [apply spends_get_character_message|].
    intros ?. free spends_character_label. free spends_tell.
    apply (spends_bind_r 0 0); [apply spends_add_message_pair|]. intros ?.
    apply spends_ret.
  - intros e h N E. destruct e; cbn [is_Exception] in E; try discriminate E;
      try (injection E as <-; free spends_tell; apply spends_break).
    exfalso. eapply N. reflexivity.
Qed.

(** the [finally] clause takes one, to close the session *)
Lemma spends_finish : spends cfg b 1 (fun _ => 0%nat) finish.
Proof.
  unfold finish. free spends_get.
  apply (spends_bind 1 0).
  { apply spends_if; [|apply (spends_weaken 0 1 _ _ _ (Nat.le_0_l 1) (fun _ => le_n 0)),
                        spends_ret].
    apply (spends_bind 1 0); [apply spends_await|]. intros ?. apply spends_ret. }
  intros _. free spends_save_conversation. free spends_get. free spends_say.
  apply spends_say.
Qed.

End Progress.

Section Termination.

Variable cfg : Config.

(** the loop ends when its fuel covers the pairs that are missing and seven
    answers are scheduled for each *)
Lemma runs_loop fuel :
  forall k j, (j <= fuel)%nat ->
    runs (supplied cfg (7 * fuel + k) j) (loop fuel)
         (fun _ => supplied cfg k j)
         (fun e s' => supplied cfg k j s' /\ forall msg, e <> SessionClosedError msg).
Proof.
  induction fuel as [|fuel IH]; intros k j Hj s Hs.
  - assert (j = 0)%nat as -> by lia. cbn [loop]. unfold bind, get.
    pose proof Hs as (C & _ & _ & _ & Left). rewrite C.
    destruct (Z.ltb_spec (pair_count (metadata (conversation_data (self s))))
                (target_message_count (pipeline cfg))); [lia|].
    cbn. eapply supplied_mono; [| |exact Hs]; lia.
  - cbn [loop]. unfold bind at 1, get.
    pose proof Hs as (C & _). rewrite C.
    destruct (pair_count (metadata (conversation_data (self s)))
              <? target_message_count (pipeline cfg));
      [|cbn; eapply supplied_mono; [| |exact Hs]; lia].
    unfold bind.
    pose proof (spends_loop_body cfg j fuel (7 * fuel + k)%nat j (le_n j) s) as B.
    assert (E : (7 + (7 * fuel + k) = 7 * S fuel + k)%nat) by lia.
    rewrite E in B. specialize (B Hs).
    destruct (loop_body (S fuel) s) as [[[|]|e|] s']; [| | |exact B].
    + simpl stored in B. assert (Hj' : (j - 1 <= fuel)%nat) by lia.
      specialize (IH k (j - 1)%nat Hj' s' B).
      destruct (loop fuel s') as [[y|e|] s'']; [| |exact IH].
      * eapply supplied_mono; [| |exact IH]; lia.
      * destruct IH as [H N]. split; [|exact N].
        eapply supplied_mono; [| |exact H]; lia.
    + simpl stored in B. cbn. eapply supplied_mono; [| |exact B]; lia.
    + destruct B as [H N]. split; [|exact N]. eapply supplied_mono; [| |exact H]; lia.
Qed.

Lemma spends_loop fuel : spends cfg fuel (7 * fuel) (fun _ => 0%nat) (loop fuel).
Proof.
  intros k j Hj s Hs. pose proof (runs_loop fuel k j Hj s Hs) as H.
  destruct (loop fuel s) as [[y|e|] s']; [|exact H|exact H].
  now rewrite Nat.sub_0_r.
Qed.

(** a run ends when its fuel covers the target and ten answers and seven for
    each pass of the loop are scheduled *)
Lemma spends_run_generation fuel :
  spends cfg (S fuel) (10 + 7 * S fuel) (fun _ => 0%nat) (run_generation (S fuel)).
Proof.
  rewrite run_generation_eq.
  apply (spends_bind _ _ 3 (7 + 7 * S fuel)); [apply spends_initialize_char_ai|].
  intros ok.
  apply spends_if;
    [apply (spends_weaken _ _ 0 _ (fun _ => 0%nat) (fun _ => 0%nat));
      [lia | auto | apply spends_say]|].
  apply (spends_weaken _ _ (6 + 7 * S fuel + 1) _ (fun _ => 0%nat) (fun _ => 0%nat));
    [lia | auto |].
  apply (spends_finally _ _ (6 + 7 * S fuel) 1); [|apply spends_finish].
  unfold run_body. apply spends_try.
  - apply (spends_bind _ _ 0); [apply spends_get|]. intros ?.
    apply (spends_bind _ _ 0); [apply spends_tell|]. intros ?.
    apply (spends_bind _ _ 1 (5 + 7 * S fuel)); [apply spends_get_user_message|].
    intros ?.
    apply (spends_bind _ _ 0); [apply spends_tell|]. intros ?.
    apply (spends_bind _ _ 0); [apply spends_character_label|]. intros ?.
    apply (spends_bind _ _ 0); [apply spends_tell|]. intros ?.
    apply (spends_bind _ _ 1 (4 + 7 * S fuel)); [apply spends_await|]. intros ?.
    apply (spends_bind _ _ 4 (7 * S fuel)); [apply spends_get_character_message|].
    intros ?.
    apply (spends_bind _ _ 0); [apply spends_character_label|]. intros ?.
    apply (spends_bind _ _ 0); [apply spends_tell|]. intros ?.
    apply (spends_bind _ _ 0 (7 * S fuel));
      [apply (spends_weaken _ _ 0 0 (fun _ => 1%nat)); [lia | auto with arith |];
       apply spends_add_message_pair|].
    intros ?. apply spends_loop.
  - intros e h N E. destruct e; try discriminate E; cbn [is_Exception] in E;
      injection E as <-; first [apply spends_say | apply spends_tell].
Qed.

End Termination.

(* ================================================================== *)
(** * The exit status *)
(* ================================================================== *)

Section ExitStatus.

Ltac boot :=
  cbv beta iota zeta delta
    [program asyncio_run main __init__ BackupManager.__init__ try_ bind os_path_exists
     json_load json_dump_config open_w os_makedirs datetime_now_strftime
     fault print print_text except_Exception config_character_name ret raise config_path];
  cbn [fs now faults remote stdout calls console json_error set_fs set_faults
       fst snd is_Exception data].

(** no configuration file: the defaults are written and the program leaves
    through [sys.exit(0)] *)
Lemma program_bootstrap fuel argv w :
  faults w = [] -> lookup (config_path argv) (fs w) = None ->
  exists w', program fuel argv w = (Raise (SystemExit 0), w').
Proof.
  intros Q H. destruct (program_bootstrap_world fuel argv w Q H) as (w' & E & _).
  now exists w'.
Qed.

(** a configuration file that names the character, on a console that shows
    every line: the constructor returns an object with an empty document and
    the generation is run *)
Lemma program_configured fuel argv w f c n :
  faults w = [] -> prints_all w ->
  lookup (config_path argv) (fs w) = Some f -> data f = ConfigJson c ->
  config_character (fold_left apply_setting c default_config) = Some (Some n) ->
  exists g w1,
    same_outside w w1
    /\ config g = fold_left apply_setting c default_config
    /\ pair_count (metadata (conversation_data g)) = 0
    /\ program fuel argv w
       = asyncio_run (try_ (call g (run_generation fuel)) main_handler) w1.
Proof.
  destruct w as [l t fl r out cs k je], f as [d m]. simpl. intros -> P H -> C.
  assert (Pk : forall msg, k msg = None) by exact P. clear P.
  unfold program, main. fold (config_path argv).
  generalize dependent (config_path argv). intros p H.
  boot. rewrite H. boot. rewrite H. boot. rewrite C. boot. rewrite !Pk. boot.
  eexists _, _. split; [|split; [|split]]; [| | |reflexivity];
    [now repeat split | reflexivity | reflexivity].
Qed.

Lemma call_eq {A} g (m : M state A) w :
  call g m w = (fst (m {| self := g; env := w |}), env (snd (m {| self := g; env := w |}))).
Proof. unfold call. now destruct (m {| self := g; env := w |}). Qed.

End ExitStatus.



(** the two runs of the sample: the one that is left alone runs to its end
    and has status 0; the one that meets a Ctrl+C while the character is
    awaited saves what it has, nothing, and ends with status 130 *)
Example sample_statuses :
  let quiet := program 3 ["main.py"] (configured sample_settings (patient_answers 31)) in
  let stopped := program 3 ["main.py"] (configured sample_settings (cancelled_answers 25)) in
  exit_status (fst quiet) = Some 0
  /\ In "All done! Created 1 conversation exchanges" (stdout (snd quiet))
  /\ exit_status (fst stopped) = Some 130
  /\ In "All done! Created 0 conversation exchanges" (stdout (snd stopped)).
Proof.
  vm_compute. repeat split; repeat (first [left; reflexivity | right]).
Qed.

